(** * can2vss-feeder: the bootstrap and driver loop of [src/main.cpp]

    A shallow embedding of [main.cpp]: the mapping-file parser (lines 110-203),
    [publish_to_kuksa] (lines 59-79), [signal_handler] (lines 37-42) and the
    body of [main] with its driver loop (lines 81-330).

    The program talks to five collaborators that are libraries of their own
    (yaml-cpp, libvss-types, libvssdag, kuksa_cpp, the C++ runtime).  Their
    answers are fields of the record [Collaborators]; every call the program
    makes to them is recorded, in program order, as an [Event]. *)

From Stdlib Require Import ZArith List Bool Lia.
From stdpp Require Import base option gmap strings list.

#[local] Set Warnings "-register-all".

Local Open Scope string_scope.
Local Open Scope list_scope.
Local Open Scope Z_scope.

(** ** Data model *)

(** Modelled from the spec: the declaration of [ValueType] (libvss-types) is
    not part of the sources; section 3 lists its tags. *)
Inductive ValueType :=
  | UNSPECIFIED | BOOL
  | INT8 | INT16 | INT32 | INT64
  | UINT8 | UINT16 | UINT32 | UINT64
  | FLOAT | DOUBLE | STRING | STRUCT.

Definition ValueType_eqb (a b : ValueType) : bool :=
  match a, b with
  | UNSPECIFIED, UNSPECIFIED | BOOL, BOOL
  | INT8, INT8 | INT16, INT16 | INT32, INT32 | INT64, INT64
  | UINT8, UINT8 | UINT16, UINT16 | UINT32, UINT32 | UINT64, UINT64
  | FLOAT, FLOAT | DOUBLE, DOUBLE | STRING, STRING | STRUCT, STRUCT => true
  | _, _ => false
  end.

(** Modelled from the spec: a value is a tagged union (section 3); floating
    point payloads are carried by their bit pattern, nothing here computes
    with them. *)
Inductive Value :=
  | VUnspecified
  | VBool (b : bool)
  | VInt (tag : ValueType) (n : Z)
  | VFloat (bits : Z)
  | VDouble (bits : Z)
  | VString (s : string)
  | VStruct (fields : list (string * Value)).

(** Modelled from the spec: "a value paired with validity/quality metadata". *)
Record QualifiedValue := { value : Value; valid : bool }.

Definition is_valid (qv : QualifiedValue) : bool := valid qv.

(** Modelled from the spec: an input record [{name, value, timestamp}]. *)
Record SignalUpdate := { su_name : string; su_value : QualifiedValue; su_timestamp : Z }.

(** [vssdag::VSSSignal]: the two members [main.cpp] reads. *)
Record VSSSignal := { path : string; qualified_value : QualifiedValue }.

(** [kuksa::DynamicSignalHandle] is opaque to [main.cpp]. *)
Inductive DynamicSignalHandle := Handle (id : N).

(** A status as the kuksa client reports it; [text] is what [<<] prints. *)
Inductive Status := OkStatus | ErrorStatus (text : string).

Definition ok (s : Status) : bool :=
  match s with OkStatus => true | ErrorStatus _ => false end.

Inductive StatusOr (A : Type) := OkValue (a : A) | NotOk (text : string).
Arguments OkValue {A} a.
Arguments NotOk {A} text.

(** Modelled from the spec: the mapping types of libvssdag are declared
    outside the sources; section 3 gives the fields of a node spec, and
    [main.cpp] names the members it assigns. *)
Inductive UpdateTrigger := ON_DEPENDENCY | PERIODIC | BOTH.

Record SignalSource := { src_type : string; src_name : string }.

(** [value_map.mappings[from] = to]: a map from string to string *)
Record ValueMapping := { mappings : gmap string string }.

(** The closed sum of section 3: direct, code(expression), value-map. *)
Inductive Transform :=
  | DirectMapping
  | CodeTransform (expression : string)
  | ValueMap (value_map : ValueMapping).

Record SignalMapping := {
  source : SignalSource;
  datatype : ValueType;
  interval_ms : Z;
  is_struct : bool;
  struct_type : string;
  depends_on : list string;
  transform : Transform;
  update_trigger : UpdateTrigger
}.

(** ** Observable events *)

Inductive Severity := WARNING | ERROR | VERBOSE (level : nat).

Inductive ClockUse := LastPeriodicCheck | LoopStart | PeriodicNow | LoopEnd.

(** Calls to the outside, in program order.  Of the log lines only warnings,
    errors and the two "Skipping" lines are recorded; [ShutdownRequested] is
    the line [signal_handler] logs. *)
Inductive Event :=
  | Usage
  | Log (sev : Severity) (text : string)
  | ShutdownRequested (signal : Z)
  | ProcessorInitialize (accepted : bool)
  | SourceInitialize (started : bool)
  | ResolverCreate (s : Status)
  | ClientCreate (s : Status)
  | Resolve (name : string) (r : StatusOr DynamicSignalHandle)
  | Clock (use : ClockUse) (t : Z)
  | Poll (updates : list SignalUpdate)
  | Process (batch : list SignalUpdate) (emissions : list VSSSignal)
  | SetValue (h : DynamicSignalHandle) (qv : QualifiedValue) (s : Status)
  | Sleep (d : Z)
  | Stop.

(** ** yaml-cpp, as far as [main.cpp] uses it *)

(** A parsed document.  The program looks up string keys only, and only a
    scalar key can match one: a map is given by its entries with scalar keys,
    in document order (maps with keys of another kind are not modelled). *)
Inductive Node :=
  | Null
  | Scalar (s : string)
  | Sequence (items : list Node)
  | Map (entries : list (string * Node)).

Inductive Exception :=
  | BadFile
  | ParserException
  | InvalidNode
  | BadSubscript
  | TypedBadConversion.

(** What the program has in hand is a [YAML::Node] object: either a node of
    the document or an invalid ("zombie") node, here [None]. *)
Abbreviation NodeRef := (option Node).

(** The parser's effects: the lines it logs, and a value or the exception
    that was thrown (nothing in [main.cpp] catches one). *)
Definition LogLine : Type := Severity * string.

Inductive result (A : Type) := Ok (a : A) | Throw (e : Exception).
Arguments Ok {A} a.
Arguments Throw {A} e.

Definition Parser (A : Type) : Type := list LogLine * result A.

Definition pret {A} (a : A) : Parser A := ([], Ok a).

Definition pthrow {A} (e : Exception) : Parser A := ([], Throw e).

Definition plog (sev : Severity) (text : string) : Parser unit :=
  ([(sev, text)], Ok tt).

#[export] Instance Parser_bind : MBind Parser := fun A B f m =>
  match m with
  | (l1, Ok a) => let '(l2, r) := f a in (l1 ++ l2, r)
  | (l1, Throw e) => (l1, Throw e)
  end.

(** The first entry of a list with this key. *)
Definition assoc {A} (key : string) (l : list (string * A)) : option A :=
  snd <$> List.find (fun kv => String.eqb (fst kv) key) l.

(** [node[key]] on a const node: the first entry of a map with that key; an
    invalid node when there is none, or when the node is null or a sequence;
    [BadSubscript] on a scalar, [InvalidNode] on an invalid node. *)
Definition subscript (n : NodeRef) (key : string) : Parser NodeRef :=
  match n with
  | None => pthrow InvalidNode
  | Some (Scalar _) => pthrow BadSubscript
  | Some (Map entries) =>
      pret (assoc key entries)
  | Some Null | Some (Sequence _) => pret None
  end.

(** [explicit operator bool], that is [IsDefined()] *)
Definition IsDefined (n : NodeRef) : bool :=
  match n with Some _ => true | None => false end.

(** [node.as<std::string>()].  What a null node gives depends on the
    version of yaml-cpp (the text "null", or [TypedBadConversion] in older
    ones); [null_text] is that answer. *)
Definition as_string (null_text : option string) (n : NodeRef) : Parser string :=
  match n with
  | None => pthrow InvalidNode
  | Some Null =>
      match null_text with
      | Some text => pret text
      | None => pthrow TypedBadConversion
      end
  | Some (Scalar s) => pret s
  | Some (Sequence _) | Some (Map _) => pthrow TypedBadConversion
  end.

(** [node.as<int>(fallback)]: never throws; [decode] is yaml-cpp's
    conversion of a scalar to [int]. *)
Definition as_int_or (decode : string -> option Z) (n : NodeRef) (fallback : Z) : Z :=
  match n with
  | Some (Scalar s) => default fallback (decode s)
  | _ => fallback
  end.

(** The values a range-for over [node] binds: the items of a sequence; for a
    map one invalid node per entry (the node part of a key/value pair);
    nothing otherwise. *)
Definition iterate (n : NodeRef) : list NodeRef :=
  match n with
  | Some (Sequence items) => Some <$> items
  | Some (Map entries) => (fun _ => None) <$> entries
  | _ => []
  end.

(** ** The collaborators

    [World] is the state of everything outside the program: the CAN bus, the
    broker, the processor's node states, the clock, pending signals.  Each
    call takes the world and returns its answer with the next world. *)
Record Collaborators := {
  World : Type;
  (* yaml-cpp *)
  LoadFile : string -> result Node;
  null_as_string : option string;
  decode_int : string -> option Z;
  (* libvss-types *)
  value_type_from_string : string -> option ValueType;
  (* libvssdag *)
  SignalMapping_default : SignalMapping;
  processor_initialize : gmap string SignalMapping -> World -> bool * World;
  process_signal_updates : list SignalUpdate -> World -> list VSSSignal * World;
  can_source_initialize :
    string -> string -> gmap string SignalMapping -> World -> bool * World;
  can_source_poll : World -> list SignalUpdate * World;
  can_source_stop : World -> unit * World;
  (* kuksa_cpp *)
  Resolver_create : string -> World -> Status * World;
  Client_create : string -> World -> Status * World;
  get_dynamic : string -> World -> StatusOr DynamicSignalHandle * World;
  client_set : DynamicSignalHandle -> QualifiedValue -> World -> Status * World;
  (* the C++ runtime and the operating system *)
  steady_clock_now : World -> Z * World;
  sleep_for : Z -> World -> unit * World;
  delivered_signals : World -> list Z * World;
  (* the C++ library: the order in which a range-for walks [dag_mappings], a
     std::unordered_map; the standard leaves it open, but every key comes
     once *)
  iteration_order : gmap string SignalMapping -> list string;
  iteration_order_keys :
    forall dag_mappings, iteration_order dag_mappings ≡ₚ (map_to_list dag_mappings).*1
}.

(** ** Parsing the mapping file (main.cpp, lines 110-203) *)

Section Parsing.
Context (C : Collaborators).

(** lines 129-134 *)
Definition parse_source (mapping_node : NodeRef) : Parser SignalSource :=
  source_node ← subscript mapping_node "source";
  if IsDefined source_node then
    ty ← subscript source_node "type" ≫= as_string (null_as_string C);
    name ← subscript source_node "name" ≫= as_string (null_as_string C);
    pret {| src_type := ty; src_name := name |}
  else pret (source (SignalMapping_default C)).

(** lines 135-148 *)
Definition parse_datatype (mapping_node : NodeRef) (signal_name : string)
    : Parser ValueType :=
  datatype_node ← subscript mapping_node "datatype";
  if IsDefined datatype_node then
    datatype_str ← as_string (null_as_string C) datatype_node;
    match value_type_from_string C datatype_str with
    | Some datatype => pret datatype
    | None =>
        plog WARNING
          ("Unknown datatype '" +:+ datatype_str +:+ "' for signal " +:+ signal_name);;
        pret UNSPECIFIED
    end
  else
    plog WARNING
      ("No datatype specified for signal " +:+ signal_name +:+ ", using UNSPECIFIED");;
    pret UNSPECIFIED.

(** line 149 *)
Definition parse_interval_ms (mapping_node : NodeRef) : Parser Z :=
  interval_node ← subscript mapping_node "interval_ms";
  pret (as_int_or (decode_int C) interval_node 0).

(** lines 151-157: the pair [(is_struct, struct_type)] *)
Definition parse_struct (mapping_node : NodeRef) (datatype : ValueType)
    : Parser (bool * string) :=
  if ValueType_eqb datatype STRUCT then
    struct_node ← subscript mapping_node "struct_type";
    if IsDefined struct_node then
      ty ← as_string (null_as_string C) struct_node;
      pret (true, ty)
    else pret (true, struct_type (SignalMapping_default C))
  else pret (is_struct (SignalMapping_default C), struct_type (SignalMapping_default C)).

(** lines 161-163: [push_back] of every item, in order *)
Fixpoint push_back_all (deps : list NodeRef) (acc : list string) : Parser (list string) :=
  match deps with
  | [] => pret acc
  | dep :: rest =>
      name ← as_string (null_as_string C) dep;
      push_back_all rest (acc ++ [name])
  end.

(** lines 159-164 *)
Definition parse_depends_on (mapping_node : NodeRef) : Parser (list string) :=
  deps_node ← subscript mapping_node "depends_on";
  if IsDefined deps_node then
    push_back_all (iterate deps_node) (depends_on (SignalMapping_default C))
  else pret (depends_on (SignalMapping_default C)).

(** lines 176-180: [value_map.mappings[from] = to] for every item *)
Fixpoint fill_value_map (items : list NodeRef) (acc : gmap string string)
    : Parser (gmap string string) :=
  match items with
  | [] => pret acc
  | item :: rest =>
      from ← subscript item "from" ≫= as_string (null_as_string C);
      to ← subscript item "to" ≫= as_string (null_as_string C);
      fill_value_map rest (<[from := to]> acc)
  end.

(** lines 166-187 *)
Definition parse_transform (mapping_node : NodeRef) : Parser Transform :=
  transform_node ← subscript mapping_node "transform";
  if IsDefined transform_node then
    code ← subscript transform_node "code";
    if IsDefined code then
      expr ← as_string (null_as_string C) code;
      pret (CodeTransform expr)
    else
      math ← subscript transform_node "math";
      if IsDefined math then
        expr ← as_string (null_as_string C) math;
        pret (CodeTransform expr)
      else
        mapping ← subscript transform_node "mapping";
        if IsDefined mapping then
          m ← fill_value_map (iterate mapping) ∅;
          pret (ValueMap {| mappings := m |})
        else pret DirectMapping
  else pret DirectMapping.

(** lines 189-199 *)
Definition parse_update_trigger (mapping_node : NodeRef) : Parser UpdateTrigger :=
  trigger_node ← subscript mapping_node "update_trigger";
  if IsDefined trigger_node then
    trigger ← as_string (null_as_string C) trigger_node;
    if String.eqb trigger "periodic" then pret PERIODIC
    else if String.eqb trigger "both" then pret BOTH
    else pret ON_DEPENDENCY
  else pret (update_trigger (SignalMapping_default C)).

(** One turn of the loop of lines 120-203: [None] is the [continue] of
    line 122, otherwise the key and the value of the assignment of line 202. *)
Definition parse_mapping_node (mapping_node : NodeRef)
    : Parser (option (string * SignalMapping)) :=
  signal_node ← subscript mapping_node "signal";
  if negb (IsDefined signal_node) then pret None
  else
    signal_name ← as_string (null_as_string C) signal_node;
    src ← parse_source mapping_node;
    dt ← parse_datatype mapping_node signal_name;
    interval ← parse_interval_ms mapping_node;
    '(is_st, st_type) ← parse_struct mapping_node dt;
    deps ← parse_depends_on mapping_node;
    tr ← parse_transform mapping_node;
    trig ← parse_update_trigger mapping_node;
    pret (Some (signal_name,
                {| source := src; datatype := dt; interval_ms := interval;
                   is_struct := is_st; struct_type := st_type;
                   depends_on := deps; transform := tr;
                   update_trigger := trig |})).

(** lines 117-203: [dag_mappings[signal_name] = mapping] *)
Fixpoint parse_mappings (nodes : list NodeRef) (dag_mappings : gmap string SignalMapping)
    : Parser (gmap string SignalMapping) :=
  match nodes with
  | [] => pret dag_mappings
  | mapping_node :: rest =>
      entry ← parse_mapping_node mapping_node;
      match entry with
      | None => parse_mappings rest dag_mappings
      | Some (signal_name, mapping) =>
          parse_mappings rest (<[signal_name := mapping]> dag_mappings)
      end
  end.

(** lines 111-115 and 119: [None] when there is no 'mappings' section.
    [root] is not const: on a null or sequence root the subscript finds
    nothing, on a scalar it throws, as the const one does. *)
Definition load_mappings (yaml_file : string)
    : Parser (option (gmap string SignalMapping)) :=
  root ← ([], LoadFile C yaml_file);
  yaml_mappings ← subscript (Some root) "mappings";
  if negb (IsDefined yaml_mappings) then
    plog ERROR "No 'mappings' section found in YAML file";;
    pret None
  else
    dag_mappings ← parse_mappings (iterate yaml_mappings) ∅;
    pret (Some dag_mappings).

End Parsing.

(** ** The process *)

(** How the process ends: a [return] of [main]; [std::terminate] after an
    exception nobody catches; or the model's loop budget is used up while the
    run-flag is still set. *)
Inductive Outcome := Exit (code : Z) | Terminate (e : Exception) | OutOfFuel.

Definition SIGINT : Z := 2.
Definition SIGTERM : Z := 15.

(** [steady_clock] counts nanoseconds (libstdc++ and libc++). *)
Definition ticks_per_ms : Z := 1000000.

(** line 262 *)
Definition processing_interval : Z := 10 * ticks_per_ms.

(** [duration_cast<milliseconds>(d).count()]: truncation towards zero *)
Definition to_milliseconds (d : Z) : Z := d ÷ ticks_per_ms.

Section Driver.
Context (C : Collaborators).

(** The state the program runs in: the world and the global of line 35. *)
Record Sys := { world : World C; g_running : bool }.

(** A piece of program: its value, the next state, the events it made. *)
Definition M (A : Type) : Type := Sys -> A * Sys * list Event.

#[export] Instance M_ret : MRet M := fun A a s => (a, s, []).

#[export] Instance M_bind : MBind M := fun A B f m s =>
  let '(a, s1, e1) := m s in
  let '(b, s2, e2) := f a s1 in
  (b, s2, e1 ++ e2).

Definition emit (e : Event) : M unit := fun s => (tt, s, [e]).

Definition log (sev : Severity) (text : string) : M unit := emit (Log sev text).

Definition lift_parser {A} (p : Parser A) : M (result A) := fun s =>
  (p.2, s, (fun line => Log line.1 line.2) <$> p.1).

(** lines 37-42 *)
Definition signal_handler (signal : Z) : M unit := fun s =>
  if (signal =? SIGINT) || (signal =? SIGTERM) then
    (tt, {| world := world s; g_running := false |}, [ShutdownRequested signal])
  else (tt, s, []).

Fixpoint handle_signals (signals : list Z) : M unit :=
  match signals with
  | [] => mret tt
  | signal :: rest => signal_handler signal;; handle_signals rest
  end.

(** A call to the outside.  Signals are asynchronous: the handler runs for
    those delivered while the call was in progress, before the program
    goes on. *)
Definition outside {A} (op : World C -> A * World C) (ev : A -> Event) : M A := fun s =>
  let '(a, w1) := op (world s) in
  let '(signals, w2) := delivered_signals C w1 in
  let '(_, s', e) := handle_signals signals {| world := w2; g_running := g_running s |} in
  (a, s', ev a :: e).

(** lines 59-79; the client is part of the world *)
Definition publish_to_kuksa (handle : DynamicSignalHandle) (vss_signal : VSSSignal)
    : M bool :=
  if negb (is_valid (qualified_value vss_signal)) then
    log (VERBOSE 3) ("Skipping invalid signal " +:+ path vss_signal);;
    mret false
  else
    status ← outside (client_set C handle (qualified_value vss_signal))
                     (SetValue handle (qualified_value vss_signal));
    match status with
    | ErrorStatus text =>
        log ERROR ("Failed to publish " +:+ path vss_signal +:+ ": " +:+ text);;
        mret false
    | OkStatus => mret true
    end.

(** lines 277-286, and again lines 304-313 *)
Fixpoint publish_signals (signal_handles : gmap string DynamicSignalHandle)
    (vss_signals : list VSSSignal) : M unit :=
  match vss_signals with
  | [] => mret tt
  | vss :: rest =>
      match signal_handles !! path vss with
      | Some handle => publish_to_kuksa handle vss;; mret tt
      | None =>
          log (VERBOSE 1) ("Skipping signal " +:+ path vss +:+ " (not in KUKSA VSS tree)")
      end;;
      publish_signals signal_handles rest
  end.

(** lines 248-257 *)
Fixpoint resolve_handles (names : list string)
    (signal_handles : gmap string DynamicSignalHandle)
    : M (gmap string DynamicSignalHandle) :=
  match names with
  | [] => mret signal_handles
  | signal_name :: rest =>
      handle_result ← outside (get_dynamic C signal_name) (Resolve signal_name);
      match handle_result with
      | NotOk text =>
          log WARNING ("Failed to resolve signal " +:+ signal_name +:+ ": " +:+ text
                       +:+ " (will retry on first publish)");;
          resolve_handles rest signal_handles
      | OkValue handle =>
          resolve_handles rest (<[signal_name := handle]> signal_handles)
      end
  end.

Definition now (use : ClockUse) : M Z := outside (steady_clock_now C) (Clock use).

(** One turn of the loop, lines 265-322; the value is the new
    [last_periodic_check]. *)
Definition loop_body (signal_handles : gmap string DynamicSignalHandle)
    (last_periodic_check : Z) : M Z :=
  loop_start ← now LoopStart;
  signal_updates ← outside (can_source_poll C) Poll;
  match signal_updates with
  | [] => mret tt
  | _ :: _ =>
      vss_signals ← outside (process_signal_updates C signal_updates)
                            (Process signal_updates);
      publish_signals signal_handles vss_signals
  end;;
  now_ ← now PeriodicNow;
  let elapsed_ms := to_milliseconds (now_ - last_periodic_check) in
  last_periodic_check' ←
    (if 50 <=? elapsed_ms then
       vss_signals ← outside (process_signal_updates C []) (Process []);
       publish_signals signal_handles vss_signals;;
       mret now_
     else mret last_periodic_check);
  loop_end ← now LoopEnd;
  let loop_duration := loop_end - loop_start in
  (if loop_duration <? processing_interval then
     outside (sleep_for C (processing_interval - loop_duration))
             (fun _ => Sleep (processing_interval - loop_duration))
   else mret tt);;
  mret last_periodic_check'.

(** lines 264-329: the flag is read at the head of the loop *)
Fixpoint driver_loop (fuel : nat) (signal_handles : gmap string DynamicSignalHandle)
    (last_periodic_check : Z) : M Outcome :=
  match fuel with
  | O => mret OutOfFuel
  | S fuel' =>
      running ← (fun s => (g_running s, s, []));
      if running : bool then
        last_periodic_check' ← loop_body signal_handles last_periodic_check;
        driver_loop fuel' signal_handles last_periodic_check'
      else
        outside (can_source_stop C) (fun _ => Stop);;
        mret (Exit 0)
  end.

(** lines 90-258: either the way the process ends, or the table of handles
    the loop starts with.  [argv] is the whole vector, [argc] its length. *)
Definition initialize (argv : list string)
    : M (Outcome + gmap string DynamicSignalHandle) :=
  if negb (Z.of_nat (length argv) =? 5) then
    emit Usage;;
    mret (inl (Exit 1))
  else
    let dbc_file := nth 1 argv "" in
    let yaml_file := nth 2 argv "" in
    let can_interface := nth 3 argv "" in
    let kuksa_address := nth 4 argv "" in
    parsed ← lift_parser (load_mappings C yaml_file);
    match parsed with
    | Throw e => mret (inl (Terminate e))
    | Ok None => mret (inl (Exit 1))
    | Ok (Some dag_mappings) =>
        processor_ok ← outside (processor_initialize C dag_mappings) ProcessorInitialize;
        if negb processor_ok then
          log ERROR "Failed to initialize DAG processor";;
          mret (inl (Exit 1))
        else
          source_ok ← outside (can_source_initialize C can_interface dbc_file dag_mappings)
                              SourceInitialize;
          if negb source_ok then
            log ERROR "Failed to initialize CAN signal source";;
            mret (inl (Exit 1))
          else
            (* lines 221-225 ask the processor for its input signals
               and log them *)
            resolver_result ← outside (Resolver_create C kuksa_address) ResolverCreate;
            match resolver_result with
            | ErrorStatus text =>
                log ERROR ("Failed to create KUKSA resolver: " +:+ text);;
                mret (inl (Exit 1))
            | OkStatus =>
                client_result ← outside (Client_create C kuksa_address) ClientCreate;
                match client_result with
                | ErrorStatus text =>
                    log ERROR ("Failed to create KUKSA client: " +:+ text);;
                    mret (inl (Exit 1))
                | OkStatus =>
                    (* line 248 walks an unordered_map: the order is the
                       library's, see [iteration_order] *)
                    signal_handles ← resolve_handles (iteration_order C dag_mappings) ∅;
                    mret (inr signal_handles)
                end
            end
    end.

(** lines 81-330 *)
Definition main (fuel : nat) (argv : list string) : M Outcome :=
  started ← initialize argv;
  match started with
  | inl outcome => mret outcome
  | inr signal_handles =>
      last_periodic_check ← now LastPeriodicCheck;
      driver_loop fuel signal_handles last_periodic_check
  end.

End Driver.

Arguments world {C} s.
Arguments g_running {C} s.

(** ** Reading a trace and a run *)

(** The instants at which the turns of the loop started. *)
Definition loop_starts (trace : list Event) : list Z :=
  omap (fun e => match e with Clock LoopStart t => Some t | _ => None end) trace.

(** The names whose resolution was attempted, in order. *)
Definition resolved_names (trace : list Event) : list string :=
  omap (fun e => match e with Resolve name _ => Some name | _ => None end) trace.

(** The emissions of [vss_signals] the publishing loop hands to the client:
    those with a handle and a valid value, each with its handle. *)
Definition publishable (signal_handles : gmap string DynamicSignalHandle)
    (vss_signals : list VSSSignal) : list (DynamicSignalHandle * QualifiedValue) :=
  omap (fun vss =>
          match signal_handles !! path vss with
          | Some handle =>
              if is_valid (qualified_value vss) then Some (handle, qualified_value vss)
              else None
          | None => None
          end) vss_signals.

(** The writes a trace holds: handle and value of each [SetValue]. *)
Definition set_attempts (trace : list Event) : list (DynamicSignalHandle * QualifiedValue) :=
  omap (fun e => match e with SetValue h qv _ => Some (h, qv) | _ => None end) trace.


Definition is_stop_signal (signal : Z) : bool := (signal =? SIGINT) || (signal =? SIGTERM).

Definition is_shutdown (e : Event) : bool :=
  match e with ShutdownRequested _ => true | _ => false end.

(** The trace without the handler's lines: what the program itself did. *)
Definition actions (trace : list Event) : list Event :=
  filter (fun e => is_shutdown e = false) trace.

(** A property every event of a piece of program has, in every state. *)
Definition always {C : Collaborators} (Q : Event -> Prop) {A} (m : M C A) : Prop :=
  forall s, Forall Q (m s).2.

(** The events of startup: no poll, no processor call, no write, no sleep. *)
Definition startup_event (e : Event) : Prop :=
  match e with
  | Usage | Log _ _ | ShutdownRequested _ | ProcessorInitialize _ | SourceInitialize _
  | ResolverCreate _ | ClientCreate _ | Resolve _ _ => True
  | Clock _ _ | Poll _ | Process _ _ | SetValue _ _ _ | Sleep _ | Stop => False
  end.

(** The events of a turn of the loop: no resolution, no stop; a write
    carries a valid value and a handle of the table. *)
Definition turn_event (signal_handles : gmap string DynamicSignalHandle) (e : Event) : Prop :=
  match e with
  | Log _ _ | ShutdownRequested _ | Clock _ _ | Poll _ | Process _ _ | Sleep _ => True
  | SetValue h qv _ =>
      is_valid qv = true /\ exists name, signal_handles !! name = Some h
  | Usage | ProcessorInitialize _ | SourceInitialize _ | ResolverCreate _ | ClientCreate _
  | Resolve _ _ | Stop => False
  end.

(** The events of the loop: those of its turns, and the stop that ends it. *)
Definition loop_event (signal_handles : gmap string DynamicSignalHandle) (e : Event) : Prop :=
  turn_event signal_handles e \/ e = Stop.

(** The answers that mean a collaborator did not start. *)
Definition is_failure (e : Event) : Prop :=
  match e with
  | ProcessorInitialize false | SourceInitialize false
  | ResolverCreate (ErrorStatus _) | ClientCreate (ErrorStatus _) => True
  | _ => False
  end.

(** What the publishing loop does for a list of emissions, one after the
    other: skip (no handle), skip (invalid value), write, or write and log
    the client's error. *)
Inductive publish_trace (signal_handles : gmap string DynamicSignalHandle)
    : list VSSSignal -> list Event -> Prop :=
  | publish_done : publish_trace signal_handles [] []
  | publish_unresolved vss rest trace :
      signal_handles !! path vss = None ->
      publish_trace signal_handles rest trace ->
      publish_trace signal_handles (vss :: rest)
        (Log (VERBOSE 1) ("Skipping signal " +:+ path vss +:+ " (not in KUKSA VSS tree)")
         :: trace)
  | publish_invalid vss handle rest trace :
      signal_handles !! path vss = Some handle ->
      is_valid (qualified_value vss) = false ->
      publish_trace signal_handles rest trace ->
      publish_trace signal_handles (vss :: rest)
        (Log (VERBOSE 3) ("Skipping invalid signal " +:+ path vss) :: trace)
  | publish_ok vss handle rest trace :
      signal_handles !! path vss = Some handle ->
      is_valid (qualified_value vss) = true ->
      publish_trace signal_handles rest trace ->
      publish_trace signal_handles (vss :: rest)
        (SetValue handle (qualified_value vss) OkStatus :: trace)
  | publish_failed vss handle text rest trace :
      signal_handles !! path vss = Some handle ->
      is_valid (qualified_value vss) = true ->
      publish_trace signal_handles rest trace ->
      publish_trace signal_handles (vss :: rest)
        (SetValue handle (qualified_value vss) (ErrorStatus text)
         :: Log ERROR ("Failed to publish " +:+ path vss +:+ ": " +:+ text) :: trace).

(** A tick: the processor is called on [batch], then its emissions are
    published. *)
Inductive tick_trace (signal_handles : gmap string DynamicSignalHandle)
    (batch : list SignalUpdate) : list Event -> Prop :=
  | tick vss_signals trace :
      publish_trace signal_handles vss_signals trace ->
      tick_trace signal_handles batch (Process batch vss_signals :: trace).

(** The sleep that ends a turn which started at [t0] and ended at [t2]. *)
Definition sleep_trace (t0 t2 : Z) : list Event :=
  if t2 - t0 <? processing_interval then [Sleep (processing_interval - (t2 - t0))] else [].

(** The program's own events in one turn of the loop. *)
Definition turn_trace (t0 : Z) (updates : list SignalUpdate) (on_updates : list Event)
    (t1 : Z) (periodic : list Event) (t2 : Z) : list Event :=
  [Clock LoopStart t0; Poll updates] ++ on_updates
  ++ [Clock PeriodicNow t1] ++ periodic
  ++ [Clock LoopEnd t2] ++ sleep_trace t0 t2.

(** The state after a number of turns of the loop, the flag not looked at. *)
Definition turn {C : Collaborators} (signal_handles : gmap string DynamicSignalHandle)
    (st : Z * Sys C) : Z * Sys C :=
  (loop_body C signal_handles st.1 st.2).1.

Definition after_turns {C : Collaborators} (n : nat)
    (signal_handles : gmap string DynamicSignalHandle) (st : Z * Sys C) : Z * Sys C :=
  Nat.iter n (turn signal_handles) st.

(** The table [initialize] resolves: the parsed mapping file. *)
Definition parsed_mappings (C : Collaborators) (yaml_file : string)
    : gmap string SignalMapping :=
  match (load_mappings C yaml_file).2 with
  | Ok (Some dag_mappings) => dag_mappings
  | _ => ∅
  end.

(** lines 273-286, and again lines 297-313: a processor call on [batch],
    then the publishing pass over what it gave. *)
Definition process_and_publish {C : Collaborators}
    (signal_handles : gmap string DynamicSignalHandle) (batch : list SignalUpdate)
    : M C unit :=
  vss_signals ← outside C (process_signal_updates C batch) (Process batch);
  publish_signals C signal_handles vss_signals.

(** The batches polled, in order. *)
Definition polled (trace : list Event) : list (list SignalUpdate) :=
  omap (fun e => match e with Poll updates => Some updates | _ => None end) trace.

(** The batches handed to the processor, in order. *)
Definition processed (trace : list Event) : list (list SignalUpdate) :=
  omap (fun e => match e with Process batch _ => Some batch | _ => None end) trace.

Definition with_flag {C : Collaborators} (b : bool) (s : Sys C) : Sys C :=
  {| world := world s; g_running := b |}.

(** A piece of program that never reads the run-flag: started with the flag
    down it does what it does with the flag up. *)
Definition flag_blind {C : Collaborators} {A} (m : M C A) : Prop :=
  forall s b,
    m (with_flag b s) =
    let '(a, s', trace) := m (with_flag true s) in
    (a, with_flag (b && g_running s') s', trace).

(** The log lines of the parser, as events. *)
Definition log_events (lines : list LogLine) : list Event :=
  (fun line => Log line.1 line.2) <$> lines.

(** What the resolution loop does for a list of names, starting from one
    table of handles and ending with another. *)
Inductive resolve_trace :
    list string -> gmap string DynamicSignalHandle ->
    gmap string DynamicSignalHandle -> list Event -> Prop :=
  | resolve_done signal_handles : resolve_trace [] signal_handles signal_handles []
  | resolve_found name handle rest signal_handles signal_handles' trace :
      resolve_trace rest (<[name := handle]> signal_handles) signal_handles' trace ->
      resolve_trace (name :: rest) signal_handles signal_handles'
        (Resolve name (OkValue handle) :: trace)
  | resolve_missing name text rest signal_handles signal_handles' trace :
      resolve_trace rest signal_handles signal_handles' trace ->
      resolve_trace (name :: rest) signal_handles signal_handles'
        (Resolve name (NotOk text)
         :: Log WARNING ("Failed to resolve signal " +:+ name +:+ ": " +:+ text
                         +:+ " (will retry on first publish)")
         :: trace).

(** The program's own events during startup, with what startup gives: the
    seven ways through lines 90-258. *)
Inductive startup_trace (C : Collaborators) (argv : list string) :
    Outcome + gmap string DynamicSignalHandle -> list Event -> Prop :=
  | startup_usage :
      length argv <> 5%nat ->
      startup_trace C argv (inl (Exit 1)) [Usage]
  | startup_throw lines e :
      length argv = 5%nat ->
      load_mappings C (nth 2 argv "") = (lines, Throw e) ->
      startup_trace C argv (inl (Terminate e)) (log_events lines)
  | startup_no_mappings lines :
      length argv = 5%nat ->
      load_mappings C (nth 2 argv "") = (lines, Ok None) ->
      startup_trace C argv (inl (Exit 1)) (log_events lines)
  | startup_processor lines dag_mappings :
      length argv = 5%nat ->
      load_mappings C (nth 2 argv "") = (lines, Ok (Some dag_mappings)) ->
      startup_trace C argv (inl (Exit 1))
        (log_events lines
         ++ [ProcessorInitialize false; Log ERROR "Failed to initialize DAG processor"])
  | startup_source lines dag_mappings :
      length argv = 5%nat ->
      load_mappings C (nth 2 argv "") = (lines, Ok (Some dag_mappings)) ->
      startup_trace C argv (inl (Exit 1))
        (log_events lines
         ++ [ProcessorInitialize true; SourceInitialize false;
             Log ERROR "Failed to initialize CAN signal source"])
  | startup_resolver lines dag_mappings text :
      length argv = 5%nat ->
      load_mappings C (nth 2 argv "") = (lines, Ok (Some dag_mappings)) ->
      startup_trace C argv (inl (Exit 1))
        (log_events lines
         ++ [ProcessorInitialize true; SourceInitialize true;
             ResolverCreate (ErrorStatus text);
             Log ERROR ("Failed to create KUKSA resolver: " +:+ text)])
  | startup_client lines dag_mappings text :
      length argv = 5%nat ->
      load_mappings C (nth 2 argv "") = (lines, Ok (Some dag_mappings)) ->
      startup_trace C argv (inl (Exit 1))
        (log_events lines
         ++ [ProcessorInitialize true; SourceInitialize true;
             ResolverCreate OkStatus; ClientCreate (ErrorStatus text);
             Log ERROR ("Failed to create KUKSA client: " +:+ text)])
  | startup_ready lines dag_mappings signal_handles trace :
      length argv = 5%nat ->
      load_mappings C (nth 2 argv "") = (lines, Ok (Some dag_mappings)) ->
      resolve_trace (iteration_order C dag_mappings) ∅ signal_handles trace ->
      startup_trace C argv (inr signal_handles)
        (log_events lines
         ++ [ProcessorInitialize true; SourceInitialize true;
             ResolverCreate OkStatus; ClientCreate OkStatus]
         ++ trace).

(** An item [{from: f, to: t}] of a [transform.mapping] list. *)
Definition from_to_item (item : Node) (pair : string * string) : Prop :=
  exists entries,
    item = Map entries /\
    assoc "from" entries = Some (Scalar pair.1) /\
    assoc "to" entries = Some (Scalar pair.2).

(** What follows the first shutdown request in a trace. *)
Fixpoint after_shutdown (trace : list Event) : list Event :=
  match trace with
  | [] => []
  | ShutdownRequested _ :: rest => rest
  | _ :: rest => after_shutdown rest
  end.
(** ** A scripted world, for running the program on concrete inputs *)

(** What does not change during a run. *)
Record Setup := {
  file : result Node;                        (* what LoadFile gives *)
  known_types : list (string * ValueType);   (* the datatype strings that parse *)
  processor_ok : bool;
  source_ok : bool;
  resolver : Status;
  client : Status;
  broker_paths : list (string * N)           (* the paths the broker resolves *)
}.

(** What the outside answers, call after call; a list that is used up gives
    the default of its row.  Time passes between two readings of the clock
    and while the process sleeps. *)
Record Script := {
  polls : list (list SignalUpdate);          (* default: no update *)
  emissions : list (list VSSSignal);         (* default: no emission *)
  set_results : list Status;                 (* default: OkStatus *)
  time : Z;                                  (* the clock *)
  elapses : list Z;                          (* before each reading; default: 0 *)
  signals : list (list Z)                    (* during each call; default: none *)
}.

Definition empty_mapping : SignalMapping :=
  {| source := {| src_type := ""; src_name := "" |};
     datatype := UNSPECIFIED; interval_ms := 0;
     is_struct := false; struct_type := "";
     depends_on := []; transform := DirectMapping;
     update_trigger := ON_DEPENDENCY |}.

Definition next_poll (w : Script) : list SignalUpdate * Script :=
  (hd [] (polls w),
   {| polls := tl (polls w); emissions := emissions w; set_results := set_results w;
      time := time w; elapses := elapses w; signals := signals w |}).

Definition next_emissions (w : Script) : list VSSSignal * Script :=
  (hd [] (emissions w),
   {| polls := polls w; emissions := tl (emissions w); set_results := set_results w;
      time := time w; elapses := elapses w; signals := signals w |}).

Definition next_set_result (w : Script) : Status * Script :=
  (hd OkStatus (set_results w),
   {| polls := polls w; emissions := emissions w; set_results := tl (set_results w);
      time := time w; elapses := elapses w; signals := signals w |}).

Definition read_clock (w : Script) : Z * Script :=
  let t := time w + hd 0 (elapses w) in
  (t,
   {| polls := polls w; emissions := emissions w; set_results := set_results w;
      time := t; elapses := tl (elapses w); signals := signals w |}).

Definition sleep (d : Z) (w : Script) : unit * Script :=
  (tt,
   {| polls := polls w; emissions := emissions w; set_results := set_results w;
      time := time w + d; elapses := elapses w; signals := signals w |}).

Definition next_signals (w : Script) : list Z * Script :=
  (hd [] (signals w),
   {| polls := polls w; emissions := emissions w; set_results := set_results w;
      time := time w; elapses := elapses w; signals := tl (signals w) |}).

Definition scripted (setup : Setup) : Collaborators :=
  {| World := Script;
     LoadFile := fun _ => file setup;
     null_as_string := Some "null";
     decode_int := fun _ => None;
     value_type_from_string := fun s => assoc s (known_types setup);
     SignalMapping_default := empty_mapping;
     processor_initialize := fun _ w => (processor_ok setup, w);
     process_signal_updates := fun _ => next_emissions;
     can_source_initialize := fun _ _ _ w => (source_ok setup, w);
     can_source_poll := next_poll;
     can_source_stop := fun w => (tt, w);
     Resolver_create := fun _ w => (resolver setup, w);
     Client_create := fun _ w => (client setup, w);
     get_dynamic := fun name w =>
       (match assoc name (broker_paths setup) with
        | Some id => OkValue (Handle id)
        | None => NotOk "NOT_FOUND"
        end, w);
     client_set := fun _ _ => next_set_result;
     steady_clock_now := read_clock;
     sleep_for := sleep;
     delivered_signals := next_signals;
     (* the table is walked from the last key of [map_to_list] to the first *)
     iteration_order := fun dag_mappings => reverse (map_to_list dag_mappings).*1;
     iteration_order_keys := fun dag_mappings =>
       reverse_Permutation (map_to_list dag_mappings).*1 |}.

(** A mapping file with one well-formed entry. *)
Definition speed_entry : Node :=
  Map [("signal", Scalar "Vehicle.Speed");
       ("source", Map [("type", Scalar "can"); ("name", Scalar "DI_vehicleSpeed")]);
       ("datatype", Scalar "float")].

Definition speed_file : Node := Map [("mappings", Sequence [speed_entry])].

Definition vss_types : list (string * ValueType) :=
  [("boolean", BOOL); ("float", FLOAT); ("double", DOUBLE); ("string", STRING);
   ("int32", INT32); ("uint8", UINT8); ("struct", STRUCT)].

(** Everything starts; the broker knows [Vehicle.Speed]. *)
Definition healthy (mapping_file : Node) : Setup :=
  {| file := Ok mapping_file; known_types := vss_types;
     processor_ok := true; source_ok := true;
     resolver := OkStatus; client := OkStatus;
     broker_paths := [("Vehicle.Speed", 1%N)] |}.

Definition quiet : Script :=
  {| polls := []; emissions := []; set_results := []; time := 0; elapses := [];
     signals := [] |}.

Definition start (w : Script) (setup : Setup) : Sys (scripted setup) :=
  {| world := w : World (scripted setup); g_running := true |}.

Definition argv4 : list string :=
  ["can2vss-feeder"; "vehicle.dbc"; "mappings.yaml"; "can0"; "127.0.0.1:55555"].

(** ** Concrete inputs *)

(** The emission of [Vehicle.Speed] with 42.0f, valid or not. *)
Definition speed (is_good : bool) : VSSSignal :=
  {| path := "Vehicle.Speed";
     qualified_value := {| value := VFloat 1109917696; valid := is_good |} |}.

(** An emission for a path the broker does not know. *)
Definition yaw_rate : VSSSignal :=
  {| path := "Vehicle.Chassis.YawRate";
     qualified_value := {| value := VDouble 0; valid := true |} |}.

Definition speed_update : SignalUpdate :=
  {| su_name := "DI_vehicleSpeed";
     su_value := {| value := VFloat 1109917696; valid := true |};
     su_timestamp := 0 |}.

(** A terminate signal delivered during the call number [n + 1]. *)
Definition terminate_during (n : nat) : list (list Z) := replicate n [] ++ [[SIGTERM]].

(** One turn: an update arrives, the processor emits the speed twice (once
    invalid) and the yaw rate; the signal comes during the sleep. *)
Definition one_busy_turn : Script :=
  {| polls := [[speed_update]];
     emissions := [[speed false; speed true; yaw_rate]];
     set_results := []; time := 0; elapses := [];
     signals := terminate_during 12 |}.

(** Startups that go wrong, one collaborator at a time. *)
Definition failing_processor : Setup :=
  {| file := Ok speed_file; known_types := vss_types;
     processor_ok := false; source_ok := true;
     resolver := OkStatus; client := OkStatus;
     broker_paths := [("Vehicle.Speed", 1%N)] |}.

Definition failing_source : Setup :=
  {| file := Ok speed_file; known_types := vss_types;
     processor_ok := true; source_ok := false;
     resolver := OkStatus; client := OkStatus;
     broker_paths := [("Vehicle.Speed", 1%N)] |}.

Definition failing_resolver : Setup :=
  {| file := Ok speed_file; known_types := vss_types;
     processor_ok := true; source_ok := true;
     resolver := ErrorStatus "UNAVAILABLE"; client := OkStatus;
     broker_paths := [("Vehicle.Speed", 1%N)] |}.

Definition failing_client : Setup :=
  {| file := Ok speed_file; known_types := vss_types;
     processor_ok := true; source_ok := true;
     resolver := OkStatus; client := ErrorStatus "UNAVAILABLE";
     broker_paths := [("Vehicle.Speed", 1%N)] |}.

(** A mapping file without a 'mappings' section. *)
Definition other_file : Node := Map [("signals", Sequence [speed_entry])].

(** Entries of a mapping file: a misspelt datatype, an unknown trigger, no
    datatype, no signal, and a source without type. *)
Definition flaot_entry : list (string * Node) :=
  [("signal", Scalar "Vehicle.Speed"); ("datatype", Scalar "flaot")].

Definition sometimes_entry : list (string * Node) :=
  [("signal", Scalar "Vehicle.Chassis.YawRate"); ("datatype", Scalar "double");
   ("update_trigger", Scalar "sometimes")].

Definition untyped_entry : list (string * Node) :=
  [("signal", Scalar "Vehicle.Acceleration.Longitudinal")].

Definition unsigned_entry : list (string * Node) :=
  [("datatype", Scalar "float"); ("interval_ms", Scalar "100")].

Definition sourceless_entry : list (string * Node) :=
  [("signal", Scalar "Vehicle.Speed"); ("source", Map [("name", Scalar "DI_vehicleSpeed")]);
   ("datatype", Scalar "float")].

Definition sloppy_file : Node :=
  Map [("mappings",
        Sequence [Map flaot_entry; Map sometimes_entry; Map untyped_entry;
                  Map unsigned_entry])].

Definition sourceless_file : Node :=
  Map [("mappings", Sequence [speed_entry; Map sourceless_entry])].

(** One turn in which the processor emits the speed twice and the client
    refuses the first write; the signal comes during the sleep. *)
Definition one_failing_write : Script :=
  {| polls := [[speed_update]];
     emissions := [[speed true; speed true]];
     set_results := [ErrorStatus "UNAVAILABLE"]; time := 0; elapses := [];
     signals := terminate_during 13 |}.

(** The table of handles startup ends with when the broker knows the speed. *)
Definition speed_handles : gmap string DynamicSignalHandle := {[ "Vehicle.Speed" := Handle 1 ]}.

(** Two turns without input; the first takes 30 ms (the time passes before
    the clock is read for the periodic check); the signal comes during the
    poll of the second. *)
Definition one_slow_turn : Script :=
  {| polls := []; emissions := []; set_results := []; time := 0;
     elapses := [0; 0; 30 * ticks_per_ms];
     signals := terminate_during 11 |}.

(** One turn without input, the signal comes during its sleep. *)
Definition stop_while_asleep : Script :=
  {| polls := []; emissions := []; set_results := []; time := 0; elapses := [];
     signals := terminate_during 10 |}.

(** The same for the loop alone: the signal comes during the sleep of its
    first turn. *)
Definition asleep_in_first_turn : Script :=
  {| polls := []; emissions := []; set_results := []; time := 0; elapses := [];
     signals := terminate_during 4 |}.

(** Transforms as a mapping file writes them. *)
Definition code_entry : list (string * Node) :=
  [("signal", Scalar "Vehicle.Speed"); ("transform", Map [("code", Scalar "x * 3.6")])].

Definition math_entry : list (string * Node) :=
  [("signal", Scalar "Vehicle.Speed"); ("transform", Map [("math", Scalar "x * 3.6")])].

Definition gear_items : list Node :=
  [Map [("from", Scalar "0"); ("to", Scalar "P")];
   Map [("from", Scalar "1"); ("to", Scalar "R")];
   Map [("from", Scalar "0"); ("to", Scalar "PARK")]].

Definition gear_entry : list (string * Node) :=
  [("signal", Scalar "Vehicle.Powertrain.Transmission.CurrentGear");
   ("transform", Map [("mapping", Sequence gear_items)])].

Definition odd_entry : list (string * Node) :=
  [("signal", Scalar "Vehicle.Speed"); ("transform", Map [("lua", Scalar "x")])].

(** Two entries for the same signal. *)
Definition speed_as_float : list (string * Node) :=
  [("signal", Scalar "Vehicle.Speed"); ("datatype", Scalar "float")].

Definition speed_as_double : list (string * Node) :=
  [("signal", Scalar "Vehicle.Speed"); ("datatype", Scalar "double")].


(** ** What startup asks of its collaborators *)

(** The world in which the program goes on after a call to the outside that
    answered [r]: the signals delivered during the call have been taken. *)
Definition settled {C : Collaborators} {A} (r : A * World C) : World C :=
  (delivered_signals C r.2).2.

(** The four calls of lines 207-236 with the arguments [main] gives them, each
    in the world the call before it left: the processor gets the table; the
    CAN source the interface, the DBC file and the table; the resolver and
    the client the broker's address. *)
Record Answers := {
  processor_answer : bool;
  can_source_answer : bool;
  resolver_answer : Status;
  client_answer : Status
}.

Definition startup_answers (C : Collaborators) (dbc_file can_interface kuksa_address : string)
    (dag_mappings : gmap string SignalMapping) (w : World C) : Answers :=
  let processor := processor_initialize C dag_mappings w in
  let can_source :=
    can_source_initialize C can_interface dbc_file dag_mappings (settled processor) in
  let resolver := Resolver_create C kuksa_address (settled can_source) in
  let client := Client_create C kuksa_address (settled resolver) in
  {| processor_answer := processor.1; can_source_answer := can_source.1;
     resolver_answer := resolver.1; client_answer := client.1 |}.

(** What the program itself does after the parser's lines, by these answers:
    the calls up to the first collaborator that does not start, and the error
    line for it; [None] when all four started. *)
Definition failed_startup (a : Answers) : option (list Event) :=
  if negb (processor_answer a) then
    Some [ProcessorInitialize false; Log ERROR "Failed to initialize DAG processor"]
  else if negb (can_source_answer a) then
    Some [ProcessorInitialize true; SourceInitialize false;
          Log ERROR "Failed to initialize CAN signal source"]
  else
    match resolver_answer a with
    | ErrorStatus text =>
        Some [ProcessorInitialize true; SourceInitialize true;
              ResolverCreate (ErrorStatus text);
              Log ERROR ("Failed to create KUKSA resolver: " +:+ text)]
    | OkStatus =>
        match client_answer a with
        | ErrorStatus text =>
            Some [ProcessorInitialize true; SourceInitialize true;
                  ResolverCreate OkStatus; ClientCreate (ErrorStatus text);
                  Log ERROR ("Failed to create KUKSA client: " +:+ text)]
        | OkStatus => None
        end
    end.

(** ** Reading an entry of the mapping file *)

(** A field that is a scalar, or is not there. *)
Definition scalar_or_absent (field : option Node) : Prop :=
  match field with
  | None | Some (Scalar _) => True
  | Some _ => False
  end.

(** The entry without the field [key]. *)
Definition without (key : string) (entries : list (string * Node)) : list (string * Node) :=
  List.filter (fun kv => negb (String.eqb kv.1 key)) entries.

(** An entry with no other fault than those the parser lets pass: it has no
    signal; or it is stored once its datatype and update_trigger are taken
    out, and these two, whatever they say, and its struct_type are scalars or
    absent. *)
Definition tolerated (C : Collaborators) (node : Node) : Prop :=
  exists fields,
    node = Map fields /\
    (assoc "signal" fields = None \/
     (exists lines signal_name base,
         parse_mapping_node C
           (Some (Map (without "datatype" (without "update_trigger" fields))))
         = (lines, Ok (Some (signal_name, base)))) /\
     scalar_or_absent (assoc "datatype" fields) /\
     scalar_or_absent (assoc "update_trigger" fields) /\
     scalar_or_absent (assoc "struct_type" fields)).

(** The mapping with another transform. *)
Definition with_transform (tr : Transform) (mapping : SignalMapping) : SignalMapping :=
  {| source := source mapping; datatype := datatype mapping;
     interval_ms := interval_ms mapping;
     is_struct := is_struct mapping; struct_type := struct_type mapping;
     depends_on := depends_on mapping; transform := tr;
     update_trigger := update_trigger mapping |}.

(** The transform of a [transform] node, by cases:
    chosen by the keys [code], [math], [mapping], in this order; direct when
    there is no node, or the node holds none of the three; a scalar cannot
    be asked for a key.  The string of [code] or [math] and the pairs of
    [mapping] are read by the program's own conversions. *)
Definition code_of (C : Collaborators) (code : Node) : result Transform :=
  match (as_string (null_as_string C) (Some code)).2 with
  | Ok expr => Ok (CodeTransform expr)
  | Throw e => Throw e
  end.

Definition value_map_of (C : Collaborators) (items : Node) : result Transform :=
  match (fill_value_map C (iterate (Some items)) ∅).2 with
  | Ok m => Ok (ValueMap {| mappings := m |})
  | Throw e => Throw e
  end.

Definition transform_of (C : Collaborators) (transform_node : option Node)
    : result Transform :=
  match transform_node with
  | None | Some Null | Some (Sequence _) => Ok DirectMapping
  | Some (Scalar _) => Throw BadSubscript
  | Some (Map keys) =>
      match assoc "code" keys, assoc "math" keys, assoc "mapping" keys with
      | Some code, _, _ => code_of C code
      | None, Some math, _ => code_of C math
      | None, None, Some items => value_map_of C items
      | None, None, None => Ok DirectMapping
      end
  end.

(** ** Collaborators that look at what they are given

    The scripted world answers alike whatever it is asked.  Here the mapping
    file exists under one name, the CAN source wants the interface can0 and
    the file vehicle.dbc, the broker is at one address, and the processor
    takes a table only when its rows are those of [expected]. *)
Definition has_rows (expected : list string) (dag_mappings : gmap string SignalMapping)
    : bool :=
  forallb (fun name => bool_decide (is_Some (dag_mappings !! name))) expected
  && (size dag_mappings =? length expected)%nat.

Definition installed (setup : Setup) (expected : list string) : Collaborators :=
  let C := scripted setup in
  {| World := World C;
     LoadFile := fun yaml_file =>
       if String.eqb yaml_file "mappings.yaml" then file setup else Throw BadFile;
     null_as_string := null_as_string C;
     decode_int := decode_int C;
     value_type_from_string := value_type_from_string C;
     SignalMapping_default := SignalMapping_default C;
     processor_initialize := fun dag_mappings w =>
       (processor_ok setup && has_rows expected dag_mappings, w);
     process_signal_updates := process_signal_updates C;
     can_source_initialize := fun can_interface dbc_file _ w =>
       (source_ok setup && String.eqb can_interface "can0"
        && String.eqb dbc_file "vehicle.dbc", w);
     can_source_poll := can_source_poll C;
     can_source_stop := can_source_stop C;
     Resolver_create := fun kuksa_address w =>
       (if String.eqb kuksa_address "127.0.0.1:55555" then resolver setup
        else ErrorStatus "UNAVAILABLE", w);
     Client_create := fun kuksa_address w =>
       (if String.eqb kuksa_address "127.0.0.1:55555" then client setup
        else ErrorStatus "UNAVAILABLE", w);
     get_dynamic := get_dynamic C;
     client_set := client_set C;
     steady_clock_now := steady_clock_now C;
     sleep_for := sleep_for C;
     delivered_signals := delivered_signals C;
     iteration_order := iteration_order C;
     iteration_order_keys := iteration_order_keys C |}.

Definition boot (w : Script) (setup : Setup) (expected : list string)
    : Sys (installed setup expected) :=
  {| world := w : World (installed setup expected); g_running := true |}.

(** The arguments with a mapping file that is not there, with the two files
    in each other's place, and with another CAN interface. *)
Definition argv_missing_file : list string :=
  ["can2vss-feeder"; "vehicle.dbc"; "missing.yaml"; "can0"; "127.0.0.1:55555"].

Definition argv_files_swapped : list string :=
  ["can2vss-feeder"; "mappings.yaml"; "vehicle.dbc"; "can0"; "127.0.0.1:55555"].

Definition argv_other_bus : list string :=
  ["can2vss-feeder"; "vehicle.dbc"; "mappings.yaml"; "can1"; "127.0.0.1:55555"].

(** A mapping file that is no YAML. *)
Definition garbled : Setup :=
  {| file := Throw ParserException; known_types := vss_types;
     processor_ok := true; source_ok := true;
     resolver := OkStatus; client := OkStatus;
     broker_paths := [("Vehicle.Speed", 1%N)] |}.

(** A mapping file that is one scalar. *)
Definition scalar_file : Node := Scalar "mappings".

(** The names of the three mappings of [sloppy_file]. *)
Definition sloppy_names : list string :=
  ["Vehicle.Speed"; "Vehicle.Chassis.YawRate"; "Vehicle.Acceleration.Longitudinal"].

(** A transform written as a word, and one whose code is a list. *)
Definition direct_entry : list (string * Node) :=
  [("signal", Scalar "Vehicle.Speed"); ("datatype", Scalar "float");
   ("transform", Scalar "direct")].

Definition direct_file : Node := Map [("mappings", Sequence [Map direct_entry])].

Definition listed_code_entry : list (string * Node) :=
  [("signal", Scalar "Vehicle.Speed"); ("datatype", Scalar "float");
   ("transform", Map [("code", Sequence [Scalar "x * 3.6"])])].

(** An entry with a datatype and a transform, and what it is stored as. *)
Definition typed_code_entry : list (string * Node) :=
  [("signal", Scalar "Vehicle.Speed"); ("datatype", Scalar "float");
   ("transform", Map [("code", Scalar "x * 3.6")]);
   ("update_trigger", Scalar "periodic")].

(** ** Reading the parser *)

(** A parser that logs nothing, whatever it gives. *)
Definition silent {A} (p : Parser A) : Prop := p.1 = [].

(** The scripted world with a yaml-cpp that reads the integers of a table. *)
Definition scripted_ints (ints : list (string * Z)) (setup : Setup) : Collaborators :=
  let C := scripted setup in
  {| World := World C;
     LoadFile := LoadFile C;
     null_as_string := null_as_string C;
     decode_int := fun s => assoc s ints;
     value_type_from_string := value_type_from_string C;
     SignalMapping_default := SignalMapping_default C;
     processor_initialize := processor_initialize C;
     process_signal_updates := process_signal_updates C;
     can_source_initialize := can_source_initialize C;
     can_source_poll := can_source_poll C;
     can_source_stop := can_source_stop C;
     Resolver_create := Resolver_create C;
     Client_create := Client_create C;
     get_dynamic := get_dynamic C;
     client_set := client_set C;
     steady_clock_now := steady_clock_now C;
     sleep_for := sleep_for C;
     delivered_signals := delivered_signals C;
     iteration_order := iteration_order C;
     iteration_order_keys := iteration_order_keys C |}.

(** An entry with every field: a struct with two inputs, sent every 100 ms. *)
Definition pose_entry : list (string * Node) :=
  [("signal", Scalar "Vehicle.Pose");
   ("source", Map [("type", Scalar "can"); ("name", Scalar "DI_pose")]);
   ("datatype", Scalar "struct");
   ("struct_type", Scalar "Types.Pose");
   ("interval_ms", Scalar "100");
   ("depends_on", Sequence [Scalar "Vehicle.Speed"; Scalar "Vehicle.Chassis.YawRate"]);
   ("update_trigger", Scalar "periodic")].

(** An entry that is no struct but names a struct type, with an interval
    that is no number and a single dependency written as a scalar. *)
Definition loose_entry : list (string * Node) :=
  [("signal", Scalar "Vehicle.Speed");
   ("datatype", Scalar "float");
   ("struct_type", Sequence []);
   ("interval_ms", Scalar "fast");
   ("depends_on", Scalar "DI_vehicleSpeed")].

(** What these two entries parse to. *)
Definition pose_mapping : SignalMapping :=
  {| source := {| src_type := "can"; src_name := "DI_pose" |};
     datatype := STRUCT; interval_ms := 100;
     is_struct := true; struct_type := "Types.Pose";
     depends_on := ["Vehicle.Speed"; "Vehicle.Chassis.YawRate"];
     transform := DirectMapping;
     update_trigger := PERIODIC |}.

Definition loose_mapping : SignalMapping :=
  {| source := {| src_type := ""; src_name := "" |};
     datatype := FLOAT; interval_ms := 0;
     is_struct := false; struct_type := "";
     depends_on := []; transform := DirectMapping;
     update_trigger := ON_DEPENDENCY |}.

(** The world these entries are read in: "100" is the only integer. *)
Definition reads_100 : Collaborators := scripted_ints [("100", 100)] (healthy speed_file).

(** A mapping file whose 'mappings' section is there and holds nothing, and
    one whose section is a map from signal names instead of a list. *)
Definition idle_file : Node := Map [("mappings", Null)].

Definition keyed_file : Node :=
  Map [("mappings", Map [("Vehicle.Speed", Map speed_as_float)])].

(** The terminate signal comes during the first call of startup. *)
Definition stop_at_once : Script :=
  {| polls := [[speed_update]]; emissions := [[speed true]]; set_results := [];
     time := 0; elapses := []; signals := terminate_during 0 |}.

(** An entry whose trigger is written in capitals, and one whose signal is
    a list of names. *)
Definition shouting_entry : list (string * Node) :=
  [("signal", Scalar "Vehicle.Speed"); ("datatype", Scalar "float");
   ("update_trigger", Scalar "PERIODIC")].

Definition listed_entry : list (string * Node) :=
  [("signal", Sequence [Scalar "Vehicle.Speed"; Scalar "Vehicle.Chassis.YawRate"]);
   ("datatype", Scalar "float")].

Definition listed_file : Node :=
  Map [("mappings", Sequence [speed_entry; Map listed_entry])].

(** ** The order of a run *)

(** How far a run has got: which collaborators are up, whether the loop has
    been entered, whether the source has been stopped, or that startup has
    failed. *)
Inductive Stage :=
  | Fresh | ProcessorUp | SourceUp | ResolverUp | Connected | Looping | Stopped | Failed.

(** The place of each event in a run, as [main] is written: the stage the
    event leads to, or [None] when the event has no place at this stage.  Log
    lines and the handler's line can come at any time. *)
Definition protocol_step (stage : Stage) (e : Event) : option Stage :=
  match e, stage with
  | Log _ _, _ | ShutdownRequested _, _ => Some stage
  | Usage, Fresh => Some Failed
  | ProcessorInitialize accepted, Fresh => Some (if accepted then ProcessorUp else Failed)
  | SourceInitialize started, ProcessorUp => Some (if started then SourceUp else Failed)
  | ResolverCreate status, SourceUp => Some (if ok status then ResolverUp else Failed)
  | ClientCreate status, ResolverUp => Some (if ok status then Connected else Failed)
  | Resolve _ _, Connected => Some Connected
  | Clock LastPeriodicCheck _, Connected => Some Looping
  | Clock _ _, Looping | Poll _, Looping | Process _ _, Looping
  | SetValue _ _ _, Looping | Sleep _, Looping => Some Looping
  | Stop, Looping => Some Stopped
  | _, _ => None
  end.

Fixpoint protocol (stage : Stage) (trace : list Event) : option Stage :=
  match trace with
  | [] => Some stage
  | e :: rest => stage' ← protocol_step stage e; protocol stage' rest
  end.

(** ** The run-flag and the stop signals *)

(** The signals the handler acted on, in order. *)
Definition shutdown_requests (trace : list Event) : list Z :=
  omap (fun e => match e with ShutdownRequested signal => Some signal | _ => None end) trace.

(** A piece of program under which the flag follows the stop signals: the
    flag is up at its end exactly when it was up at its start and the handler
    has acted on no signal; and the handler acts on stop signals only. *)
Definition flag_follows_signals {C : Collaborators} {A} (m : M C A) : Prop :=
  forall s,
    g_running (m s).1.2 = g_running s && bool_decide (shutdown_requests (m s).2 = []) /\
    Forall (fun signal => is_stop_signal signal = true) (shutdown_requests (m s).2).

(** ** Reading the loop's trace *)

(** The processor calls on an empty batch, each with the reading of the
    clock that came before it ([clock] when there was none). *)
Fixpoint ticks_from (clock : Z) (trace : list Event) : list Z :=
  match trace with
  | [] => []
  | Clock _ t :: rest => ticks_from t rest
  | Process [] _ :: rest => clock :: ticks_from clock rest
  | _ :: rest => ticks_from clock rest
  end.

(** Instants that are each at least [gap] after the one before, the first
    at least [gap] after [reference]. *)
Fixpoint spaced (gap reference : Z) (instants : list Z) : Prop :=
  match instants with
  | [] => True
  | t :: rest => reference + gap <= t /\ spaced gap t rest
  end.

(** What the processor gave, call after call. *)
Definition emitted (trace : list Event) : list (list VSSSignal) :=
  omap (fun e => match e with Process _ vss_signals => Some vss_signals | _ => None end) trace.

(** An event that is neither a reading of the clock nor a processor call. *)
Definition is_plain (e : Event) : Prop :=
  match e with Clock _ _ | Process _ _ => False | _ => True end.

(** * The fixture of the integration test
    ([tests/integration/test_can2vss_feeder_integration.cpp])

    The class [Can2VssFeederIntegrationTest]: its static members and the
    functions that set the test up and tear it down.  They run shell commands,
    start and stop processes and sleep; what the host answers is given by a
    record [Host], and every call is recorded as a [Call].  Log lines are not
    recorded, nor is the text written to the configuration file.  The body of
    the test itself (lines 413-480), which talks to the broker through
    callbacks, and [ReplayCANLog] are not modelled. *)

(** lines 29-32 *)
Definition KUKSA_IMAGE : string := "ghcr.io/eclipse-kuksa/kuksa-databroker:0.6.0".
Definition CONTAINER_NAME : string := "can2vss-test-broker".
Definition KUKSA_PORT : string := "55557".
Definition VCAN_INTERFACE : string := "vcan0".

(** The static members, lines 34-38. *)
Record Statics := {
  kuksa_address : string;
  kuksa_started : bool;
  vcan_setup : bool;
  vcan_created_by_test : bool;
  feeder_pid : Z
}.

(** lines 406-410 *)
Definition initial_statics : Statics :=
  {| kuksa_address := ""; kuksa_started := false; vcan_setup := false;
     vcan_created_by_test := false; feeder_pid := 0 |}.

(** What the fixture asks of the host, with the answer where there is one. *)
Inductive Call :=
  | System (command : string) (status : Z)
  | Getcwd (cwd : option string)
  | Access (path : string) (status : Z)
  | SleepFor (milliseconds : Z)
  | WriteFile (path : string)
  | RemoveFile (path : string)
  | Fork (pid : Z)
  | Execl (path : string) (argv : list string) (replaced : bool)
  | Kill (pid : Z) (signal : Z)
  | Waitpid (pid : Z).

(** The host: [std::system], [getcwd] ([None] for [nullptr]), [access],
    [sleep_for], the file of [std::ofstream], [std::remove], [fork] (what it
    returns in the process at hand), [execl] ([true] when the process image
    was replaced), [kill] and [waitpid]. *)
Record Host := {
  HostState : Type;
  host_system : string -> HostState -> Z * HostState;
  host_getcwd : HostState -> option string * HostState;
  host_access : string -> HostState -> Z * HostState;
  host_sleep : Z -> HostState -> unit * HostState;
  host_write : string -> HostState -> unit * HostState;
  host_remove : string -> HostState -> unit * HostState;
  host_fork : HostState -> Z * HostState;
  host_execl : string -> list string -> HostState -> bool * HostState;
  host_kill : Z -> Z -> HostState -> unit * HostState;
  host_waitpid : Z -> HostState -> unit * HostState
}.

(** How a function that forks ends in the process at hand: it returns, the
    process image is replaced, the process exits, or the behaviour is not
    defined (a buffer is read that nothing has filled). *)
Inductive Ending (A : Type) :=
  | Returns (a : A)
  | Replaced
  | ExitsWith (code : Z)
  | NotDefined.
Arguments Returns {A} a.
Arguments Replaced {A}.
Arguments ExitsWith {A} code.
Arguments NotDefined {A}.

Section Fixture.
Context (H : Host).

(** The state of the test process: the static members and the host. *)
Record Env := { statics : Statics; host : HostState H }.

Definition F (A : Type) : Type := Env -> A * Env * list Call.

#[export] Instance F_ret : MRet F := fun A a e => (a, e, []).

#[export] Instance F_bind : MBind F := fun A B f m e =>
let '(a, e1, t1) := m e in
let '(b, e2, t2) := f a e1 in
(b, e2, t1 ++ t2).

(** A call to the host. *)
Definition call {A} (op : HostState H -> A * HostState H) (ev : A -> Call) : F A := fun e =>
let '(a, h) := op (host e) in
(a, {| statics := statics e; host := h |}, [ev a]).

Definition system (command : string) : F Z := call (host_system H command) (System command).

Definition sleep_ms (milliseconds : Z) : F unit :=
call (host_sleep H milliseconds) (fun _ => SleepFor milliseconds).

Definition read_statics : F Statics := fun e => (statics e, e, []).

Definition write_statics (st : Statics) : F unit := fun e =>
(tt, {| statics := st; host := host e |}, []).

(** lines 93-121 *)
Definition SetupVCAN : F bool :=
status ← system ("ip link show " +:+ VCAN_INTERFACE +:+ " > /dev/null 2>&1");
if status =? 0 then
  st ← read_statics;
  write_statics {| kuksa_address := kuksa_address st; kuksa_started := kuksa_started st;
                   vcan_setup := true; vcan_created_by_test := false;
                   feeder_pid := feeder_pid st |};;
  mret true
else
  status ← system ("sudo ip link add dev " +:+ VCAN_INTERFACE +:+ " type vcan 2>/dev/null");
  if negb (status =? 0) then mret false
  else
    status ← system ("sudo ip link set up " +:+ VCAN_INTERFACE +:+ " 2>/dev/null");
    if negb (status =? 0) then mret false
    else
      st ← read_statics;
      write_statics {| kuksa_address := kuksa_address st; kuksa_started := kuksa_started st;
                       vcan_setup := true; vcan_created_by_test := true;
                       feeder_pid := feeder_pid st |};;
      mret true.

(** lines 123-131 *)
Definition CleanupVCAN : F unit :=
st ← read_statics;
if vcan_setup st && vcan_created_by_test st then
  system ("sudo ip link delete " +:+ VCAN_INTERFACE +:+ " 2>/dev/null");;
  mret tt
else mret tt.

(** lines 169-182: what is left of the thirty turns of the wait *)
Fixpoint wait_for_kuksa (turns : nat) : F bool :=
match turns with
| O => mret false
| S turns' =>
    sleep_ms 1000;;
    status ← system ("docker ps -q -f name=" +:+ CONTAINER_NAME +:+ " | grep -q .");
    if negb (status =? 0) then
      system ("docker logs " +:+ CONTAINER_NAME +:+ " 2>&1");;
      mret false
    else
      status ← system ("nc -z localhost " +:+ KUKSA_PORT +:+ " 2>/dev/null");
      if status =? 0 then mret true
      else wait_for_kuksa turns'
end.

(** lines 133-186 *)
Definition StartKuksa : F bool :=
cwd ← call (host_getcwd H) Getcwd;
match cwd with
| None => mret false
| Some cwd =>
    let vss_path := cwd +:+ "/tesla_vss.json" in
    found ← call (host_access H vss_path) (Access vss_path);
    if negb (found =? 0) then mret false
    else
      status ← system ("docker run -d --rm " +:+ "--name " +:+ CONTAINER_NAME +:+ " "
                       +:+ "-p " +:+ KUKSA_PORT +:+ ":55555 "
                       +:+ "-v " +:+ vss_path +:+ ":/vss/tesla_vss.json:ro "
                       +:+ KUKSA_IMAGE +:+ " " +:+ "--vss /vss/tesla_vss.json");
      if negb (status =? 0) then mret false
      else wait_for_kuksa 30
end.

(** lines 188-192 *)
Definition StopKuksa : F unit :=
system ("docker stop " +:+ CONTAINER_NAME +:+ " 2>/dev/null");;
system ("docker rm -f " +:+ CONTAINER_NAME +:+ " 2>/dev/null");;
sleep_ms 500.

(** lines 194-323; the text of the file is not modelled *)
Definition CreateTeslaVSSConfig : F unit :=
call (host_write H "tesla_vss.json") (fun _ => WriteFile "tesla_vss.json").

(** lines 325-327 *)
Definition CleanupVSSConfig : F unit :=
call (host_remove H "tesla_vss.json") (fun _ => RemoveFile "tesla_vss.json").

(** lines 361-371 *)
Definition StopFeeder : F unit :=
st ← read_statics;
if 0 <? feeder_pid st then
  call (host_kill H (feeder_pid st) SIGTERM) (fun _ => Kill (feeder_pid st) SIGTERM);;
  call (host_waitpid H (feeder_pid st)) (fun _ => Waitpid (feeder_pid st));;
  write_statics {| kuksa_address := kuksa_address st; kuksa_started := kuksa_started st;
                   vcan_setup := vcan_setup st;
                   vcan_created_by_test := vcan_created_by_test st;
                   feeder_pid := 0 |}
else mret tt.

(** lines 330-359.  In the child [getcwd] is not checked: when it fails the
  buffer the path is built from holds nothing defined. *)
Definition StartFeeder (dbc_path mapping_path : string) : F (Ending Z) :=
pid ← call (host_fork H) Fork;
if pid =? 0 then
  cwd ← call (host_getcwd H) Getcwd;
  match cwd with
  | None => mret NotDefined
  | Some cwd =>
      st ← read_statics;
      let feeder_exe := cwd +:+ "/can2vss-feeder" in
      let argv := ["can2vss-feeder"; dbc_path; mapping_path; VCAN_INTERFACE;
                   kuksa_address st] in
      replaced ← call (host_execl H feeder_exe argv) (Execl feeder_exe argv);
      if replaced : bool then mret Replaced else mret (ExitsWith 1)
  end
else if 0 <? pid then
  st ← read_statics;
  write_statics {| kuksa_address := kuksa_address st; kuksa_started := kuksa_started st;
                   vcan_setup := vcan_setup st;
                   vcan_created_by_test := vcan_created_by_test st;
                   feeder_pid := pid |};;
  mret (Returns pid)
else mret (Returns (-1)).

(** lines 40-71 *)
Definition SetUpTestSuite : F unit :=
status ← system "docker --version > /dev/null 2>&1";
if negb (status =? 0) then mret tt
else
  vcan_ok ← SetupVCAN;
  if negb vcan_ok then mret tt
  else
    StopKuksa;;
    CreateTeslaVSSConfig;;
    kuksa_ok ← StartKuksa;
    if negb kuksa_ok then mret tt
    else
      st ← read_statics;
      write_statics {| kuksa_address := "localhost:" +:+ KUKSA_PORT;
                       kuksa_started := true;
                       vcan_setup := vcan_setup st;
                       vcan_created_by_test := vcan_created_by_test st;
                       feeder_pid := feeder_pid st |}.

(** lines 73-80 *)
Definition TearDownTestSuite : F unit :=
StopFeeder;;
StopKuksa;;
CleanupVCAN;;
CleanupVSSConfig.

(** lines 82-86: whether [SetUp] lets the test run ([FAIL()] when the broker
  was not started) *)
Definition SetUp : F bool := fun e => (kuksa_started (statics e), e, []).

(** lines 88-90 *)
Definition TearDown : F unit := sleep_ms 200.

End Fixture.

Arguments statics {H} e.
Arguments host {H} e.

(** ** Reading the fixture's trace *)

(** The shell commands run, in order. *)
Definition commands (trace : list Call) : list string :=
  omap (fun c => match c with System command _ => Some command | _ => None end) trace.

(** The sleeps, in order (milliseconds). *)
Definition sleeps (trace : list Call) : list Z :=
  omap (fun c => match c with SleepFor d => Some d | _ => None end) trace.

(** The signals sent, in order, each with the process it goes to. *)
Definition kills (trace : list Call) : list (Z * Z) :=
  omap (fun c => match c with Kill pid signal => Some (pid, signal) | _ => None end) trace.

(** The argument vectors handed to [execl]. *)
Definition exec_vectors (trace : list Call) : list (list string) :=
  omap (fun c => match c with Execl _ argv _ => Some argv | _ => None end) trace.

(** The commands of the fixture, by what they do. *)
Definition show_vcan : string := "ip link show vcan0 > /dev/null 2>&1".
Definition add_vcan : string := "sudo ip link add dev vcan0 type vcan 2>/dev/null".
Definition up_vcan : string := "sudo ip link set up vcan0 2>/dev/null".
Definition delete_vcan : string := "sudo ip link delete vcan0 2>/dev/null".
Definition docker_version : string := "docker --version > /dev/null 2>&1".
Definition docker_ps : string := "docker ps -q -f name=can2vss-test-broker | grep -q .".
Definition docker_logs : string := "docker logs can2vss-test-broker 2>&1".
Definition probe_port : string := "nc -z localhost 55557 2>/dev/null".

(** ** A scripted host *)

(** The host answers [std::system] and [access] from a list of statuses, one
    after the other (0 when the list is used up); the other answers are
    fixed. *)
Definition next_status (w : list Z) : Z * list Z := (hd 0 w, tl w).

Definition scripted_host (cwd : option string) (pid : Z) (replaced : bool) : Host :=
  {| HostState := list Z;
     host_system := fun _ => next_status;
     host_getcwd := fun w => (cwd, w);
     host_access := fun _ => next_status;
     host_sleep := fun _ w => (tt, w);
     host_write := fun _ w => (tt, w);
     host_remove := fun _ w => (tt, w);
     host_fork := fun w => (pid, w);
     host_execl := fun _ _ w => (replaced, w);
     host_kill := fun _ _ w => (tt, w);
     host_waitpid := fun _ w => (tt, w) |}.

(** A build directory in which the parent of a fork sees the child 4711. *)
Definition build_host : Host := scripted_host (Some "/work/build") 4711 true.

(** The same directory, seen from the child of the fork. *)
Definition child_host : Host := scripted_host (Some "/work/build") 0 true.

Definition fresh (statuses : list Z) : Env build_host :=
  {| statics := initial_statics; host := statuses : HostState build_host |}.

(** The command that starts the broker, with the configuration file at
    [vss_path]. *)
Definition docker_run (vss_path : string) : string :=
  "docker run -d --rm --name can2vss-test-broker -p 55557:55555 -v " +:+ vss_path
  +:+ ":/vss/tesla_vss.json:ro ghcr.io/eclipse-kuksa/kuksa-databroker:0.6.0"
  +:+ " --vss /vss/tesla_vss.json".

(** The static members once the suite is set up and the feeder runs as
    process 4711. *)
Definition running_statics : Statics :=
  {| kuksa_address := "localhost:55557"; kuksa_started := true; vcan_setup := true;
     vcan_created_by_test := false; feeder_pid := 4711 |}.

(** lines 415-416 *)
Definition dbc_path : string := "../tests/integration/test_data/Model3CAN.dbc".
Definition mapping_path : string := "../tests/integration/test_data/model3_mappings_dag.yaml".

#[local] Arguments String.append : simpl never.
#[local] Arguments actions : simpl never.

(** ** Running a piece of program *)

Section Running.
Context {C : Collaborators}.
Implicit Types (s : Sys C) (e : Event) (trace : list Event).

Lemma bind_run {A B} (m : M C A) (f : A -> M C B) s :
  (m ≫= f) s =
  let '(a, s1, e1) := m s in let '(b, s2, e2) := f a s1 in (b, s2, e1 ++ e2).
Proof. reflexivity. Qed.

Lemma handle_signals_run (sigs : list Z) s :
  handle_signals C sigs s =
  (tt,
   {| world := world s; g_running := g_running s && negb (existsb is_stop_signal sigs) |},
   ShutdownRequested <$> filter (fun sg => is_stop_signal sg = true) sigs).
Proof.
  revert s. induction sigs as [|sg sigs IH]; intros [w b].
  - cbn. by rewrite andb_true_r.
  - cbn [handle_signals]. rewrite bind_run. unfold signal_handler at 1.
    fold (is_stop_signal sg). cbn [existsb].
    destruct (is_stop_signal sg) eqn:Hsg; rewrite IH.
    + rewrite filter_cons_True by done. cbn. by rewrite andb_false_r.
    + rewrite filter_cons_False by (by rewrite Hsg). done.
Qed.

Lemma outside_run {A} (op : World C -> A * World C) (ev : A -> Event) s :
  outside C op ev s =
  (let a := (op (world s)).1 in
   let sigs := (delivered_signals C (op (world s)).2).1 in
   (a,
    {| world := (delivered_signals C (op (world s)).2).2;
       g_running := g_running s && negb (existsb is_stop_signal sigs) |},
    ev a :: (ShutdownRequested <$> filter (fun sg => is_stop_signal sg = true) sigs))).
Proof.
  unfold outside. destruct (op (world s)) as [a w1]. cbn.
  destruct (delivered_signals C w1) as [sigs w2]. cbn.
  by rewrite handle_signals_run.
Qed.

Lemma actions_app trace1 trace2 : actions (trace1 ++ trace2) = actions trace1 ++ actions trace2.
Proof. apply filter_app. Qed.

Lemma actions_shutdown (sigs : list Z) : actions (ShutdownRequested <$> sigs) = [].
Proof.
  induction sigs as [|sg sigs IH]; [done|].
  rewrite fmap_cons. unfold actions in *. by rewrite filter_cons_False.
Qed.

Lemma actions_outside {A} (op : World C -> A * World C) (ev : A -> Event) s :
  (forall a, is_shutdown (ev a) = false) ->
  actions (outside C op ev s).2 = [ev (outside C op ev s).1.1].
Proof.
  intros Hev. rewrite outside_run. cbn -[actions].
  change (?x :: ?l) with ([x] ++ l). rewrite actions_app, actions_shutdown.
  unfold actions. rewrite filter_cons_True by apply Hev. done.
Qed.

(** *** Properties every event of a piece of program has *)

Lemma always_ret Q {A} (a : A) : always Q (mret a : M C A).
Proof. intros s. constructor. Qed.

Lemma always_bind Q {A B} (m : M C A) (f : A -> M C B) :
  always Q m -> (forall a, always Q (f a)) -> always Q (m ≫= f).
Proof.
  intros Hm Hf s. rewrite bind_run.
  specialize (Hm s). destruct (m s) as [[a s1] e1].
  specialize (Hf a s1). destruct (f a s1) as [[b s2] e2].
  cbn in *. by apply Forall_app.
Qed.

Lemma always_emit Q e : Q e -> always Q (emit C e).
Proof. intros He s. cbn. by repeat constructor. Qed.

Lemma always_log Q sev text : Q (Log sev text) -> always Q (log C sev text).
Proof. apply always_emit. Qed.

Lemma always_outside Q {A} (op : World C -> A * World C) (ev : A -> Event) :
  (forall a, Q (ev a)) -> (forall sg, Q (ShutdownRequested sg)) ->
  always Q (outside C op ev).
Proof.
  intros Hev Hsg s. rewrite outside_run. cbn. constructor; [apply Hev|].
  apply Forall_fmap, Forall_forall. intros sg _. apply Hsg.
Qed.

Lemma always_lift_parser Q {A} (p : Parser A) :
  (forall sev text, Q (Log sev text)) -> always Q (lift_parser C p).
Proof.
  intros HQ s. cbn. apply Forall_fmap, Forall_forall. intros [sev text] _. apply HQ.
Qed.

End Running.

(** ** The events of startup and of the loop *)

Section Alphabet.
Context {C : Collaborators}.
Implicit Types (s : Sys C) (signal_handles : gmap string DynamicSignalHandle).

Ltac always_step :=
  first
    [ apply always_ret
    | apply always_log; try exact I
    | apply always_emit; try exact I
    | apply always_lift_parser; intros; exact I
    | apply always_outside; intros; try exact I
    | apply always_bind; [|intros ?] ].

Lemma always_impl (Q R : Event -> Prop) {A} (m : M C A) :
  (forall e, Q e -> R e) -> always Q m -> always R m.
Proof. intros HQR Hm s. eapply Forall_impl; [apply Hm | exact HQR]. Qed.

Lemma always_publish_to_kuksa signal_handles name handle vss :
  signal_handles !! name = Some handle ->
  always (turn_event signal_handles) (publish_to_kuksa C handle vss).
Proof.
  intros Hh. unfold publish_to_kuksa.
  destruct (is_valid (qualified_value vss)) eqn:Hv; cbn [negb].
  - always_step.
    + always_step. split; eauto.
    + destruct a; repeat always_step.
  - repeat always_step.
Qed.

Lemma always_publish_signals signal_handles vss_signals :
  always (turn_event signal_handles) (publish_signals C signal_handles vss_signals).
Proof.
  induction vss_signals as [|vss rest IH]; cbn [publish_signals]; [always_step|].
  always_step; [|done].
  destruct (signal_handles !! path vss) eqn:Hh; [|always_step].
  always_step; [by eapply always_publish_to_kuksa | always_step].
Qed.

Lemma always_loop_body signal_handles last :
  always (turn_event signal_handles) (loop_body C signal_handles last).
Proof.
  unfold loop_body, now.
  always_step; [always_step|].
  always_step; [always_step|].
  always_step.
  { destruct a0; [always_step|].
    always_step; [always_step | apply always_publish_signals]. }
  always_step; [always_step|].
  always_step.
  { destruct (50 <=? _); [|always_step].
    always_step; [always_step|].
    always_step; [apply always_publish_signals | always_step]. }
  always_step; [always_step|].
  always_step; [|always_step].
  destruct (_ <? _); always_step.
Qed.

Lemma always_driver_loop fuel signal_handles last :
  always (loop_event signal_handles) (driver_loop C fuel signal_handles last).
Proof.
  revert last. induction fuel as [|fuel IH]; intros last; cbn [driver_loop].
  - apply always_ret.
  - always_step; [intros s; constructor|].
    destruct a.
    + always_step; [|apply IH].
      eapply always_impl; [|apply always_loop_body]. by left.
    + always_step; [|always_step].
      apply always_outside; intros; [by right | by left].
Qed.

Lemma always_resolve_handles names signal_handles :
  always startup_event (resolve_handles C names signal_handles).
Proof.
  revert signal_handles. induction names as [|name rest IH]; intros signal_handles;
    cbn [resolve_handles]; [always_step|].
  always_step; [always_step|].
  destruct a; [apply IH|]. always_step; [always_step | apply IH].
Qed.

Lemma always_initialize argv : always startup_event (initialize C argv).
Proof.
  unfold initialize.
  destruct (negb _); [repeat always_step|].
  always_step; [always_step|].
  destruct a as [[dag_mappings|]|e]; [|always_step..].
  always_step; [always_step|].
  destruct a; cbn [negb]; [|repeat always_step].
  always_step; [always_step|].
  destruct a; cbn [negb]; [|repeat always_step].
  always_step; [always_step|].
  destruct a; [|repeat always_step].
  always_step; [always_step|].
  destruct a; [|repeat always_step].
  always_step; [apply always_resolve_handles | always_step].
Qed.

End Alphabet.

(** ** The shape of a turn of the loop *)

Section Shape.
Context {C : Collaborators}.
Implicit Types (s : Sys C) (signal_handles : gmap string DynamicSignalHandle).

Lemma actions_cons_keep e trace :
  is_shutdown e = false -> actions (e :: trace) = e :: actions trace.
Proof. intros He. unfold actions. by rewrite filter_cons_True. Qed.

(** [publish_to_kuksa], run: its value and what it did. *)
Lemma publish_to_kuksa_run handle vss s :
  let qv := qualified_value vss in
  let status := (client_set C handle qv (world s)).1 in
  (publish_to_kuksa C handle vss s).1.1 = is_valid qv && ok status /\
  actions (publish_to_kuksa C handle vss s).2 =
    if is_valid qv then
      SetValue handle qv status ::
      match status with
      | ErrorStatus text =>
          [Log ERROR ("Failed to publish " +:+ path vss +:+ ": " +:+ text)]
      | OkStatus => []
      end
    else [Log (VERBOSE 3) ("Skipping invalid signal " +:+ path vss)].
Proof.
  intros qv status. unfold publish_to_kuksa. fold qv.
  destruct (is_valid qv) eqn:Hv; cbn [negb andb]; [|done].
  rewrite bind_run.
  pose proof (outside_run (client_set C handle qv) (SetValue handle qv) s) as Hrun.
  destruct (outside C _ _ s) as [[st s1] e1]. cbn in Hrun.
  injection Hrun as -> _ ->. fold status.
  destruct status as [|text]; cbn -[actions].
  - rewrite app_nil_r. split; [done|].
    rewrite actions_cons_keep by done. by rewrite actions_shutdown.
  - rewrite bind_run. cbn -[actions]. split; [done|].
    rewrite actions_cons_keep by done. by rewrite actions_app, actions_shutdown.
Qed.

Lemma publish_signals_trace signal_handles vss_signals s :
  publish_trace signal_handles vss_signals
    (actions (publish_signals C signal_handles vss_signals s).2).
Proof.
  revert s. induction vss_signals as [|vss rest IH]; intros s;
    cbn [publish_signals].
  - constructor.
  - rewrite bind_run.
    destruct (signal_handles !! path vss) as [handle|] eqn:Hh.
    + rewrite bind_run.
      destruct (publish_to_kuksa_run handle vss s) as [_ Hact]. cbn zeta in Hact.
      destruct (publish_to_kuksa C handle vss s) as [[b s1] e1]. cbn in Hact.
      cbn [mret M_ret].
      specialize (IH s1). destruct (publish_signals C signal_handles rest s1) as [[[] s2] e2].
      cbn in IH. cbn -[actions]. rewrite app_nil_r, actions_app, Hact.
      destruct (is_valid (qualified_value vss)) eqn:Hv.
      * destruct (client_set C handle (qualified_value vss) (world s)).1.
        -- by eapply publish_ok.
        -- by eapply publish_failed.
      * by eapply publish_invalid.
    + cbn -[actions]. specialize (IH s).
      destruct (publish_signals C signal_handles rest s) as [[[] s2] e2].
      cbn in IH. cbn. rewrite actions_cons_keep by done.
      by apply publish_unresolved.
Qed.

(** The writes of a publishing pass are the emissions with a handle and a
    valid value, in order; the rest of the pass are log lines. *)
Lemma publish_trace_writes signal_handles vss_signals trace :
  publish_trace signal_handles vss_signals trace ->
  set_attempts trace = publishable signal_handles vss_signals.
Proof.
  induction 1 as [|vss rest trace Hh _ IH|vss h rest trace Hh Hv _ IH
                  |vss h rest trace Hh Hv _ IH|vss h text rest trace Hh Hv _ IH];
    cbn; rewrite ?Hh, ?Hv; cbn; try done; f_equal; exact IH.
Qed.

Lemma publish_trace_events signal_handles vss_signals trace e :
  publish_trace signal_handles vss_signals trace -> e ∈ trace ->
  (exists sev text, e = Log sev text) \/
  (exists vss handle status,
      vss ∈ vss_signals /\ signal_handles !! path vss = Some handle /\
      is_valid (qualified_value vss) = true /\
      e = SetValue handle (qualified_value vss) status).
Proof.
  induction 1 as [|vss rest trace Hh _ IH|vss h rest trace Hh Hv _ IH
                  |vss h rest trace Hh Hv _ IH|vss h text rest trace Hh Hv _ IH];
    intros He.
  - by apply elem_of_nil in He.
  - apply elem_of_cons in He as [->|He]; [left; eauto|].
    destruct (IH He) as [?|(v & hd & st & Hin & ?)]; [by left|right].
    exists v, hd, st. split; [by right|done].
  - apply elem_of_cons in He as [->|He]; [left; eauto|].
    destruct (IH He) as [?|(v & hd & st & Hin & ?)]; [by left|right].
    exists v, hd, st. split; [by right|done].
  - apply elem_of_cons in He as [->|He].
    { right. exists vss, h, OkStatus. split; [by left|done]. }
    destruct (IH He) as [?|(v & hd & st & Hin & ?)]; [by left|right].
    exists v, hd, st. split; [by right|done].
  - apply elem_of_cons in He as [->|He].
    { right. exists vss, h, (ErrorStatus text). split; [by left|done]. }
    apply elem_of_cons in He as [->|He]; [left; eauto|].
    destruct (IH He) as [?|(v & hd & st & Hin & ?)]; [by left|right].
    exists v, hd, st. split; [by right|done].
Qed.

End Shape.

Section Turn.
Context {C : Collaborators}.
Implicit Types (s : Sys C) (signal_handles : gmap string DynamicSignalHandle).

Lemma process_and_publish_trace signal_handles batch s :
  tick_trace signal_handles batch
    (actions (process_and_publish signal_handles batch s).2).
Proof.
  unfold process_and_publish. rewrite bind_run.
  pose proof (actions_outside (process_signal_updates C batch) (Process batch) s
                (fun _ => eq_refl)) as H1.
  destruct (outside C _ _ s) as [[vss_signals s1] e1]. cbn in H1.
  pose proof (publish_signals_trace signal_handles vss_signals s1) as H2.
  destruct (publish_signals C signal_handles vss_signals s1) as [[[] s2] e2].
  cbn in *. rewrite actions_app, H1. by constructor.
Qed.

Lemma sleep_actions (t0 t2 : Z) s :
  actions ((if t2 - t0 <? processing_interval then
              outside C (sleep_for C (processing_interval - (t2 - t0)))
                (fun _ => Sleep (processing_interval - (t2 - t0)))
            else mret tt) s).2
  = sleep_trace t0 t2.
Proof.
  unfold sleep_trace. destruct (t2 - t0 <? processing_interval); [|done].
  by rewrite actions_outside.
Qed.

(** One step of a run: the next call to the outside. *)
Ltac run_outside Hrun a s1 e1 Hact :=
  rewrite bind_run in Hrun;
  match type of Hrun with
  | context [outside C ?op ?ev ?s] =>
      pose proof (actions_outside op ev s (fun _ => eq_refl)) as Hact;
      destruct (outside C op ev s) as [[a s1] e1];
      cbn [fst snd] in Hact
  end.

Lemma loop_body_shape signal_handles last s last' s' trace :
  loop_body C signal_handles last s = (last', s', trace) ->
  exists t0 updates on_updates t1 periodic t2,
    actions trace = turn_trace t0 updates on_updates t1 periodic t2 /\
    match updates with
    | [] => on_updates = []
    | _ :: _ => tick_trace signal_handles updates on_updates
    end /\
    if 50 <=? to_milliseconds (t1 - last) then
      tick_trace signal_handles [] periodic /\ last' = t1
    else
      periodic = [] /\ last' = last.
Proof.
  unfold loop_body, now. intros Hrun.
  run_outside Hrun t0 s1 e1 H1.
  run_outside Hrun updates s2 e2 H2.
  rewrite bind_run in Hrun.
  set (on_updates := match updates with [] => mret tt | _ :: _ => _ end) in Hrun.
  assert (match updates with
          | [] => actions (on_updates s2).2 = []
          | _ :: _ => tick_trace signal_handles updates (actions (on_updates s2).2)
          end) as H3.
  { subst on_updates. destruct updates; [done|].
    apply (process_and_publish_trace signal_handles). }
  destruct (on_updates s2) as [[[] s3] e3]. clear on_updates. cbn [snd] in H3.
  run_outside Hrun t1 s4 e4 H4.
  rewrite bind_run in Hrun.
  set (periodic := if 50 <=? _ then _ else _) in Hrun.
  assert (if 50 <=? to_milliseconds (t1 - last) then
            tick_trace signal_handles [] (actions (periodic s4).2)
            /\ (periodic s4).1.1 = t1
          else actions (periodic s4).2 = [] /\ (periodic s4).1.1 = last) as H5.
  { subst periodic. destruct (50 <=? _); [|done].
    rewrite bind_run.
    pose proof (process_and_publish_trace signal_handles [] s4) as Ht.
    unfold process_and_publish in Ht. rewrite bind_run in Ht.
    destruct (outside C _ _ s4) as [[vss_signals s5] e5].
    rewrite bind_run.
    destruct (publish_signals C signal_handles vss_signals s5) as [[[] s6] e6].
    cbn in *. by rewrite app_nil_r. }
  destruct (periodic s4) as [[last0 s5] e5]. clear periodic. cbn [fst snd] in H5.
  run_outside Hrun t2 s6 e6 H6.
  rewrite bind_run in Hrun.
  pose proof (sleep_actions t0 t2 s6) as H7.
  match type of H7 with actions (?m).2 = _ => destruct m as [[[] s7] e7] end.
  cbn in Hrun, H7. injection Hrun as <- _ <-.
  exists t0, updates, (actions e3), t1, (actions e5), t2.
  split; [|split].
  - unfold turn_trace. rewrite !actions_app, H1, H2, H4, H6, H7.
    cbn. by rewrite app_nil_r.
  - by destruct updates.
  - by destruct (50 <=? _).
Qed.

End Turn.

(** ** The loop as a whole *)

Section Loop.
Context {C : Collaborators}.
Implicit Types (s : Sys C) (signal_handles : gmap string DynamicSignalHandle).

Lemma last_app_nonempty {A} (l1 l2 : list A) : l2 <> [] -> last (l1 ++ l2) = last l2.
Proof.
  intros Hne. destruct l2 as [|x l2]; [done|]. by rewrite last_app_cons.
Qed.

Lemma polled_app trace1 trace2 : polled (trace1 ++ trace2) = polled trace1 ++ polled trace2.
Proof. apply omap_app. Qed.

Lemma polled_actions trace : polled (actions trace) = polled trace.
Proof.
  induction trace as [|e trace IH]; [done|].
  destruct (is_shutdown e) eqn:He.
  - unfold actions in *. rewrite filter_cons_False by (by rewrite He).
    rewrite IH. by destruct e.
  - rewrite actions_cons_keep by done.
    unfold polled in *. destruct e; cbn; rewrite ?IH; done.
Qed.

Lemma publish_trace_polled signal_handles vss_signals trace :
  publish_trace signal_handles vss_signals trace -> polled trace = [].
Proof. induction 1; done. Qed.

Lemma tick_trace_polled signal_handles batch trace :
  tick_trace signal_handles batch trace -> polled trace = [].
Proof. destruct 1. cbn. by eapply publish_trace_polled. Qed.

(** A turn polls once. *)
Lemma loop_body_polled signal_handles last s last' s' trace :
  loop_body C signal_handles last s = (last', s', trace) ->
  exists updates, polled trace = [updates].
Proof.
  intros Hrun.
  destruct (loop_body_shape _ _ _ _ _ _ Hrun)
    as (t0 & updates & on_updates & t1 & periodic & t2 & Hshape & Hu & Hp).
  exists updates. rewrite <- polled_actions, Hshape. unfold turn_trace, sleep_trace.
  rewrite !polled_app.
  assert (polled on_updates = []) as ->.
  { destruct updates; [by subst|by eapply tick_trace_polled]. }
  assert (polled periodic = []) as ->.
  { destruct (50 <=? _); destruct Hp as [Hp _]; [by eapply tick_trace_polled|by subst]. }
  by destruct (_ <? _).
Qed.

Lemma after_turns_S n signal_handles (st : Z * Sys C) :
  after_turns (S n) signal_handles st = after_turns n signal_handles (turn signal_handles st).
Proof. unfold after_turns. by rewrite Nat.iter_succ_r. Qed.

(** The loop ends where the flag is first found down: after as many turns,
    with [stop()] and 0. *)
Lemma driver_loop_stops n : forall fuel signal_handles last_check s,
  (forall k, (k < n)%nat ->
             g_running (after_turns k signal_handles (last_check, s)).2 = true) ->
  g_running (after_turns n signal_handles (last_check, s)).2 = false ->
  (n < fuel)%nat ->
  exists s' trace,
    driver_loop C fuel signal_handles last_check s = (Exit 0, s', trace) /\
    g_running s' = false /\
    length (polled trace) = n /\
    last (actions trace) = Some Stop.
Proof.
  induction n as [|n IH]; intros fuel signal_handles lastp s Hup Hdown Hfuel;
    (destruct fuel as [|fuel]; [lia|]); cbn [driver_loop]; rewrite bind_run.
  - cbn in Hdown. rewrite Hdown. rewrite bind_run, outside_run. cbn.
    rewrite Hdown. do 2 eexists. split; [done|]. split; [done|]. split.
    + rewrite app_nil_r.
      induction (filter _ _) as [|sg l IHl]; [done|]. cbn. apply IHl.
    + rewrite app_nil_r. rewrite actions_cons_keep by done. by rewrite actions_shutdown.
  - pose proof (Hup O ltac:(lia)) as H0. cbn in H0. rewrite H0. rewrite bind_run.
    destruct (loop_body C signal_handles lastp s) as [[last' s1] e1] eqn:Hbody.
    destruct (IH fuel signal_handles last' s1) as (s' & trace & Hrun & Hflag & Hpolls & Hlast).
    + intros k Hk. specialize (Hup (S k) ltac:(lia)).
      rewrite after_turns_S in Hup. unfold turn in Hup. cbn in Hup.
      by rewrite Hbody in Hup.
    + rewrite after_turns_S in Hdown. unfold turn in Hdown. cbn in Hdown.
      by rewrite Hbody in Hdown.
    + lia.
    + rewrite Hrun. do 2 eexists. split; [done|]. split; [done|].
      destruct (loop_body_polled _ _ _ _ _ _ Hbody) as [updates Hone].
      cbn. rewrite polled_app, Hone. cbn. split; [by rewrite Hpolls|].
      rewrite actions_app, last_app_nonempty; [done|]. by destruct (actions trace).
Qed.

(** The loop has two ways to end: its budget in this model, or the flag
    found down; then it stops the source and gives 0. *)
Lemma driver_loop_outcome fuel : forall signal_handles last_check s outcome s' trace,
  driver_loop C fuel signal_handles last_check s = (outcome, s', trace) ->
  (outcome = OutOfFuel /\ length (polled trace) = fuel /\ Stop ∉ trace) \/
  (outcome = Exit 0 /\ g_running s' = false /\ last (actions trace) = Some Stop).
Proof.
  induction fuel as [|fuel IH]; intros signal_handles lastp s outcome s' trace;
    cbn [driver_loop].
  - intros [= <- <- <-]. left. split; [done|]. split; [done|]. apply not_elem_of_nil.
  - rewrite bind_run. destruct (g_running s) eqn:Hflag.
    + rewrite bind_run.
      destruct (loop_body C signal_handles lastp s) as [[last' s1] e1] eqn:Hbody.
      destruct (driver_loop C fuel signal_handles last' s1) as [[o s2] e2] eqn:Hrest.
      intros [= <- <- <-].
      destruct (loop_body_polled _ _ _ _ _ _ Hbody) as [updates Hone].
      destruct (IH _ _ _ _ _ _ Hrest) as [(-> & Hn & Hstop)|(-> & Hf & Hl)].
      * left. split; [done|]. cbn. rewrite polled_app, Hone. cbn.
        split; [by rewrite Hn|]. rewrite elem_of_app. intros [Hin|Hin]; [|done].
        pose proof (always_loop_body signal_handles lastp s) as Hturn.
        rewrite Hbody in Hturn. cbn in Hturn. rewrite Forall_forall in Hturn.
        exact (Hturn _ Hin).
      * right. split; [done|]. split; [done|]. cbn. rewrite actions_app.
        rewrite last_app_nonempty; [done|]. by destruct (actions e2).
    + rewrite bind_run, outside_run. cbn. intros [= <- <- <-]. right.
      split; [done|]. rewrite Hflag. split; [done|].
      rewrite app_nil_r, actions_cons_keep by done. by rewrite actions_shutdown.
Qed.

End Loop.

(** ** The run-flag is read at the head of the loop only *)

Section Flag.
Context {C : Collaborators}.
Implicit Types (s : Sys C) (signal_handles : gmap string DynamicSignalHandle).

Lemma with_flag_id s : with_flag (g_running s) s = s.
Proof. by destruct s. Qed.

Lemma flag_blind_ret {A} (a : A) : flag_blind (mret a : M C A).
Proof. intros s b. cbn. by rewrite andb_true_r. Qed.

Lemma flag_blind_emit e : flag_blind (emit C e).
Proof. intros s b. cbn. by rewrite andb_true_r. Qed.

Lemma flag_blind_outside {A} (op : World C -> A * World C) (ev : A -> Event) :
  flag_blind (outside C op ev).
Proof. intros s b. rewrite !outside_run. cbn. done. Qed.

Lemma flag_blind_bind {A B} (m : M C A) (f : A -> M C B) :
  flag_blind m -> (forall a, flag_blind (f a)) -> flag_blind (m ≫= f).
Proof.
  intros Hm Hf s b. rewrite !bind_run, (Hm s b).
  destruct (m (with_flag true s)) as [[a s1] e1].
  rewrite (Hf a s1 (b && g_running s1)).
  rewrite <- (with_flag_id s1) at 2. rewrite (Hf a s1 (g_running s1)).
  destruct (f a (with_flag true s1)) as [[c s2] e2]. cbn.
  by rewrite andb_assoc.
Qed.

Ltac blind_step :=
  first
    [ apply flag_blind_ret
    | apply flag_blind_emit
    | apply flag_blind_outside
    | apply flag_blind_bind; [|intros ?] ].

Lemma flag_blind_publish_signals signal_handles vss_signals :
  flag_blind (publish_signals C signal_handles vss_signals).
Proof.
  induction vss_signals as [|vss rest IH]; cbn [publish_signals]; [blind_step|].
  blind_step; [|done].
  destruct (signal_handles !! path vss); [|apply flag_blind_emit].
  blind_step; [|blind_step].
  unfold publish_to_kuksa. destruct (negb _).
  - blind_step; [apply flag_blind_emit | blind_step].
  - blind_step; [blind_step|]. destruct a; [blind_step|].
    blind_step; [apply flag_blind_emit | blind_step].
Qed.

Lemma flag_blind_loop_body signal_handles last_check :
  flag_blind (loop_body C signal_handles last_check).
Proof.
  unfold loop_body, now.
  blind_step; [blind_step|].
  blind_step; [blind_step|].
  blind_step.
  { destruct a0; [blind_step|].
    blind_step; [blind_step | apply flag_blind_publish_signals]. }
  blind_step; [blind_step|].
  blind_step.
  { destruct (50 <=? _); [|blind_step].
    blind_step; [blind_step|].
    blind_step; [apply flag_blind_publish_signals | blind_step]. }
  blind_step; [blind_step|].
  blind_step; [|blind_step].
  destruct (_ <? _); blind_step.
Qed.

End Flag.

(** ** The shape of startup *)

Section Startup.
Context {C : Collaborators}.
Implicit Types (s : Sys C) (signal_handles : gmap string DynamicSignalHandle).

Ltac run_outside Hrun a s1 e1 Hact :=
  rewrite bind_run in Hrun;
  match type of Hrun with
  | context [outside C ?op ?ev ?s] =>
      pose proof (actions_outside op ev s (fun _ => eq_refl)) as Hact;
      destruct (outside C op ev s) as [[a s1] e1];
      cbn [fst snd] in Hact
  end.

Lemma actions_log_events lines : actions (log_events lines) = log_events lines.
Proof.
  induction lines as [|line lines IH]; [done|].
  unfold log_events in *. rewrite fmap_cons, actions_cons_keep by done. by rewrite IH.
Qed.

Lemma resolve_handles_shape names : forall signal_handles s signal_handles' s' trace,
  resolve_handles C names signal_handles s = (signal_handles', s', trace) ->
  resolve_trace names signal_handles signal_handles' (actions trace).
Proof.
  induction names as [|name rest IH]; intros signal_handles s signal_handles' s' trace;
    cbn [resolve_handles]; intros Hrun.
  - injection Hrun as <- _ <-. constructor.
  - run_outside Hrun r s1 e1 H1. destruct r as [handle|text].
    + destruct (resolve_handles C rest _ s1) as [[h2 s2] e2] eqn:Hrest.
      injection Hrun as <- _ <-. rewrite actions_app, H1.
      apply resolve_found. by eapply IH.
    + rewrite bind_run in Hrun. cbn in Hrun.
      destruct (resolve_handles C rest _ s1) as [[h2 s2] e2] eqn:Hrest.
      injection Hrun as <- _ <-. rewrite actions_app, H1.
      cbn. rewrite actions_cons_keep by done.
      apply resolve_missing. by eapply IH.
Qed.

Lemma initialize_shape argv s started s' trace :
  initialize C argv s = (started, s', trace) ->
  startup_trace C argv started (actions trace).
Proof.
  unfold initialize. intros Hrun.
  destruct (Z.of_nat (length argv) =? 5) eqn:Hargc; cbn [negb] in Hrun.
  2:{ injection Hrun as <- _ <-. apply startup_usage. lia. }
  assert (length argv = 5%nat) as Hlen by lia.
  rewrite bind_run in Hrun. unfold lift_parser at 1 in Hrun.
  destruct (load_mappings C (nth 2 argv "")) as [lines parsed] eqn:Hload.
  cbn [fst snd] in Hrun. fold (log_events lines) in Hrun.
  destruct parsed as [[dag_mappings|]|e].
  3:{ injection Hrun as <- _ <-. rewrite app_nil_r, actions_log_events.
      by apply startup_throw. }
  2:{ injection Hrun as <- _ <-. rewrite app_nil_r, actions_log_events.
      by apply startup_no_mappings. }
  run_outside Hrun accepted s1 e1 H1.
  destruct accepted; cbn [negb] in Hrun.
  2:{ injection Hrun as <- _ <-.
      rewrite !actions_app, actions_log_events, H1. by eapply startup_processor. }
  run_outside Hrun source_up s2 e2 H2.
  destruct source_up; cbn [negb] in Hrun.
  2:{ injection Hrun as <- _ <-.
      rewrite !actions_app, actions_log_events, H1, H2. by eapply startup_source. }
  run_outside Hrun resolver_result s3 e3 H3.
  destruct resolver_result as [|text].
  2:{ injection Hrun as <- _ <-.
      rewrite !actions_app, actions_log_events, H1, H2, H3.
      by eapply startup_resolver. }
  run_outside Hrun client_result s4 e4 H4.
  destruct client_result as [|text].
  2:{ injection Hrun as <- _ <-.
      rewrite !actions_app, actions_log_events, H1, H2, H3, H4.
      by eapply startup_client. }
  rewrite bind_run in Hrun.
  destruct (resolve_handles C _ ∅ s4) as [[signal_handles s5] e5] eqn:Hres.
  injection Hrun as <- _ <-.
  rewrite !actions_app, actions_log_events, H1, H2, H3, H4, app_nil_r.
  eapply startup_ready; [done..|]. by eapply resolve_handles_shape.
Qed.

(** An empty table is walked in no time. *)
Lemma iteration_order_empty : iteration_order C ∅ = [].
Proof.
  apply Permutation_nil_r. by rewrite iteration_order_keys, map_to_list_empty.
Qed.

End Startup.

(** ** The parser *)

Section ParserFacts.
Context {C : Collaborators}.

Lemma parser_bind_ok {A B} (lines : list LogLine) (a : A) (f : A -> Parser B) :
  ((lines, Ok a) : Parser A) ≫= f = (lines ++ (f a).1, (f a).2).
Proof. unfold mbind, Parser_bind. destruct (f a). reflexivity. Qed.

Lemma parser_bind_throw {A B} (lines : list LogLine) e (f : A -> Parser B) :
  ((lines, Throw e) : Parser A) ≫= f = (lines, Throw e).
Proof. done. Qed.

Lemma parser_bind_inv {A B} (m : Parser A) (f : A -> Parser B) lines (b : B) :
  m ≫= f = (lines, Ok b) ->
  exists lines1 a lines2, m = (lines1, Ok a) /\ f a = (lines2, Ok b) /\ lines = lines1 ++ lines2.
Proof.
  destruct m as [lines1 [a|e]]; [|done].
  rewrite parser_bind_ok. destruct (f a) as [lines2 r] eqn:Hf. cbn.
  intros [= <- ->]. by exists lines1, a, lines2.
Qed.

Lemma subscript_map entries key :
  subscript (Some (Map entries)) key = pret (assoc key entries).
Proof. done. Qed.

(** The table after the nodes [nodes1 ++ nodes2]: parse [nodes1], then
    [nodes2] from the table that gave. *)
Lemma parse_mappings_app nodes1 nodes2 (table : gmap string SignalMapping) :
  parse_mappings C (nodes1 ++ nodes2) table =
  (parse_mappings C nodes1 table ≫= parse_mappings C nodes2).
Proof.
  revert table. induction nodes1 as [|node nodes1 IH]; intros table.
  - cbn [app parse_mappings]. unfold pret. rewrite parser_bind_ok.
    by destruct (parse_mappings C nodes2 table).
  - cbn [app parse_mappings].
    destruct (parse_mapping_node C node) as [lines [[[name mapping]|]|e]].
    + rewrite !parser_bind_ok, IH. cbn [fst snd].
      destruct (parse_mappings C nodes1 _) as [lines1 [table1|e1]].
      * rewrite !parser_bind_ok. cbn.
        destruct (parse_mappings C nodes2 table1). cbn. by rewrite app_assoc.
      * done.
    + rewrite !parser_bind_ok, IH. cbn [fst snd].
      destruct (parse_mappings C nodes1 _) as [lines1 [table1|e1]].
      * rewrite !parser_bind_ok. cbn.
        destruct (parse_mappings C nodes2 table1). cbn. by rewrite app_assoc.
      * done.
    + done.
Qed.

(** No check across entries: when every entry parses, the list parses. *)
Lemma parse_mappings_total nodes : forall table : gmap string SignalMapping,
  Forall (fun node => exists lines entry, parse_mapping_node C node = (lines, Ok entry)) nodes ->
  exists lines table', parse_mappings C nodes table = (lines, Ok table').
Proof.
  induction nodes as [|node nodes IH]; intros table Hall; [by do 2 eexists|].
  apply Forall_cons in Hall as [(lines & entry & Hnode) Hall].
  cbn [parse_mappings]. rewrite Hnode, parser_bind_ok.
  destruct entry as [[name mapping]|].
  - destruct (IH (<[name := mapping]> table) Hall) as (lines' & table' & ->). by do 2 eexists.
  - destruct (IH table Hall) as (lines' & table' & ->). by do 2 eexists.
Qed.

(** Entries that do not declare [name] leave its row as it was. *)
Lemma parse_mappings_other name nodes : forall (table table' : gmap string SignalMapping) lines,
  Forall (fun node => forall lines mapping,
            parse_mapping_node C node <> (lines, Ok (Some (name, mapping)))) nodes ->
  parse_mappings C nodes table = (lines, Ok table') ->
  table' !! name = table !! name.
Proof.
  induction nodes as [|node nodes IH]; intros table table' lines Hall Hparse.
  - by injection Hparse as _ <-.
  - apply Forall_cons in Hall as [Hnode Hall]. cbn [parse_mappings] in Hparse.
    destruct (parse_mapping_node C node) as [lines0 [[[name0 mapping]|]|e]] eqn:Hn;
      [| |done].
    + rewrite parser_bind_ok in Hparse.
      destruct (parse_mappings C nodes _) as [lines1 r] eqn:Hrest.
      cbn in Hparse. injection Hparse as _ ->.
      rewrite (IH _ _ _ Hall Hrest). apply lookup_insert_ne.
      intros ->. by eapply Hnode.
    + rewrite parser_bind_ok in Hparse.
      destruct (parse_mappings C nodes _) as [lines1 r] eqn:Hrest.
      cbn in Hparse. injection Hparse as _ ->. by eapply IH.
Qed.

(** The row of [name] is the last entry that declares it. *)
Lemma parse_mappings_last nodes1 node nodes2 name mapping lines0
    (table table' : gmap string SignalMapping) lines :
  parse_mapping_node C node = (lines0, Ok (Some (name, mapping))) ->
  Forall (fun node => forall lines mapping,
            parse_mapping_node C node <> (lines, Ok (Some (name, mapping)))) nodes2 ->
  parse_mappings C (nodes1 ++ node :: nodes2) table = (lines, Ok table') ->
  table' !! name = Some mapping.
Proof.
  intros Hnode Hlater. rewrite parse_mappings_app.
  destruct (parse_mappings C nodes1 table) as [lines1 [table1|e]]; [|done].
  rewrite parser_bind_ok. cbn [parse_mappings]. rewrite Hnode, parser_bind_ok.
  destruct (parse_mappings C nodes2 _) as [lines2 r] eqn:Hrest. cbn.
  intros [= _ ->]. rewrite (parse_mappings_other _ _ _ _ _ Hlater Hrest).
  apply lookup_insert_eq.
Qed.

(** The lines of the list are the lines of its entries, nothing more. *)
Lemma parse_mappings_lines nodes : forall (table table' : gmap string SignalMapping) lines,
  parse_mappings C nodes table = (lines, Ok table') ->
  lines = concat ((fun node => (parse_mapping_node C node).1) <$> nodes).
Proof.
  induction nodes as [|node nodes IH]; intros table table' lines Hparse.
  - by injection Hparse as <- _.
  - cbn [parse_mappings] in Hparse. rewrite fmap_cons. cbn [concat].
    destruct (parse_mapping_node C node) as [lines0 [[[name mapping]|]|e]]; [| |done].
    + rewrite parser_bind_ok in Hparse.
      destruct (parse_mappings C nodes _) as [lines1 r] eqn:Hrest.
      cbn in Hparse. injection Hparse as <- ->. cbn. f_equal. by eapply IH.
    + rewrite parser_bind_ok in Hparse.
      destruct (parse_mappings C nodes _) as [lines1 r] eqn:Hrest.
      cbn in Hparse. injection Hparse as <- ->. cbn. f_equal. by eapply IH.
Qed.

End ParserFacts.

(** ** The whole run *)

Section Run.
Context {C : Collaborators}.
Implicit Types (s : Sys C) (signal_handles : gmap string DynamicSignalHandle).

Lemma main_run fuel argv s :
  main C fuel argv s =
  let '(started, s1, e1) := initialize C argv s in
  match started with
  | inl outcome => (outcome, s1, e1)
  | inr signal_handles =>
      let '(t, s2, e2) := now C LastPeriodicCheck s1 in
      let '(outcome, s3, e3) := driver_loop C fuel signal_handles t s2 in
      (outcome, s3, e1 ++ e2 ++ e3)
  end.
Proof.
  unfold main. rewrite bind_run.
  destruct (initialize C argv s) as [[[outcome|signal_handles] s1] e1].
  - cbn. by rewrite app_nil_r.
  - rewrite bind_run. destruct (now C LastPeriodicCheck s1) as [[t s2] e2].
    by destruct (driver_loop C fuel signal_handles t s2) as [[outcome s3] e3].
Qed.

Lemma now_events use s : exists sigs, (now C use s).2 = Clock use (now C use s).1.1 :: (ShutdownRequested <$> sigs).
Proof. unfold now. rewrite outside_run. cbn. eauto. Qed.

(** Every event of a run is one of startup, the first reading of the
    clock, or one of the loop. *)
Lemma main_events fuel argv s :
  Forall (fun e => startup_event e \/ exists signal_handles, loop_event signal_handles e)
         (main C fuel argv s).2.
Proof.
  rewrite main_run.
  pose proof (always_initialize (C:=C) argv s) as Hinit.
  destruct (initialize C argv s) as [[[outcome|signal_handles] s1] e1]; cbn in Hinit |- *.
  - eapply Forall_impl; [exact Hinit|]. by left.
  - destruct (now_events LastPeriodicCheck s1) as [sigs Hnow].
    destruct (now C LastPeriodicCheck s1) as [[t s2] e2]. cbn in Hnow. subst e2.
    pose proof (always_driver_loop (C:=C) fuel signal_handles t s2) as Hloop.
    destruct (driver_loop C fuel signal_handles t s2) as [[outcome s3] e3]. cbn in Hloop |- *.
    apply Forall_app. split; [eapply Forall_impl; [exact Hinit|]; by left|].
    constructor; [right; exists signal_handles; by left|].
    apply Forall_app. split.
    + apply Forall_fmap, Forall_forall. intros sg _. by left.
    + eapply Forall_impl; [exact Hloop|]. intros e He. right. by exists signal_handles.
Qed.

Lemma resolved_names_app trace1 trace2 :
  resolved_names (trace1 ++ trace2) = resolved_names trace1 ++ resolved_names trace2.
Proof. apply omap_app. Qed.

Lemma resolved_names_actions trace : resolved_names (actions trace) = resolved_names trace.
Proof.
  induction trace as [|e trace IH]; [done|].
  destruct (is_shutdown e) eqn:He.
  - unfold actions in *. rewrite filter_cons_False by (by rewrite He).
    rewrite IH. by destruct e.
  - rewrite actions_cons_keep by done.
    unfold resolved_names in *. destruct e; cbn; rewrite ?IH; done.
Qed.

Lemma set_attempts_actions trace : set_attempts (actions trace) = set_attempts trace.
Proof.
  induction trace as [|e trace IH]; [done|].
  destruct (is_shutdown e) eqn:He.
  - unfold actions in *. rewrite filter_cons_False by (by rewrite He).
    rewrite IH. by destruct e.
  - rewrite actions_cons_keep by done.
    unfold set_attempts in *. destruct e; cbn; rewrite ?IH; done.
Qed.

Lemma resolved_names_loop signal_handles trace :
  Forall (loop_event signal_handles) trace -> resolved_names trace = [].
Proof.
  induction 1 as [|e trace He _ IH]; [done|].
  unfold resolved_names in *. destruct He as [He| ->]; [|done].
  by destruct e; cbn; rewrite ?IH.
Qed.

Lemma resolved_names_shutdown (sigs : list Z) : resolved_names (ShutdownRequested <$> sigs) = [].
Proof. by induction sigs. Qed.

Lemma resolved_names_log_events lines : resolved_names (log_events lines) = [].
Proof. by induction lines. Qed.

(** The resolution loop asks for each name of its list, once and in order. *)
Lemma resolve_trace_names names signal_handles signal_handles' trace :
  resolve_trace names signal_handles signal_handles' trace ->
  resolved_names trace = names.
Proof.
  induction 1 as [|name h rest t t' tr _ IH|name text rest t t' tr _ IH];
    [done|..]; unfold resolved_names in *; cbn; by rewrite IH.
Qed.

(** [duration_cast] truncates, which the comparison with 50 does not see. *)
Lemma elapsed_at_least_50 (d : Z) :
  (50 <=? to_milliseconds d) = true <-> 50 * ticks_per_ms <= d.
Proof.
  unfold to_milliseconds, ticks_per_ms. rewrite Z.leb_le.
  pose proof (Z.quot_rem' d 1000000).
  destruct (Z_le_gt_dec 0 d).
  - pose proof (Z.rem_bound_pos d 1000000 ltac:(lia) ltac:(lia)). lia.
  - pose proof (Z.rem_nonpos d 1000000 ltac:(lia) ltac:(lia)).
    pose proof (Z.rem_bound_abs d 1000000 ltac:(lia)). lia.
Qed.

Lemma in_actions e trace : e ∈ trace -> is_shutdown e = false -> e ∈ actions trace.
Proof. intros He Hs. unfold actions. by apply list_elem_of_filter. Qed.

Lemma actions_in e trace : e ∈ actions trace -> e ∈ trace.
Proof. unfold actions. rewrite list_elem_of_filter. by intros [_ ?]. Qed.

End Run.

(** ** What the parser logs *)

Section Silence.
Context {C : Collaborators}.

Lemma bind_lines {A B} (m : Parser A) (f : A -> Parser B) :
(m ≫= f).1 = m.1 ++ match m.2 with Ok a => (f a).1 | Throw _ => [] end.
Proof.
destruct m as [lines [a|e]]; cbn; [|by rewrite app_nil_r].
by destruct (f a).
Qed.

Lemma silent_bind {A B} (m : Parser A) (f : A -> Parser B) :
silent m -> (forall a, silent (f a)) -> silent (m ≫= f).
Proof.
unfold silent. intros Hm Hf. rewrite bind_lines, Hm.
destruct m.2; [apply Hf|done].
Qed.

Lemma silent_subscript n key : silent (subscript n key).
Proof. by destruct n as [[]|]. Qed.

Lemma silent_as_string null_text n : silent (as_string null_text n).
Proof. by destruct n as [[]|], null_text. Qed.

Ltac silence :=
repeat first
  [ apply silent_subscript
  | apply silent_as_string
  | reflexivity
  | apply silent_bind; [|intros ?]
  | match goal with |- silent (if ?b then _ else _) => destruct b end
  | match goal with |- silent (let '(_, _) := ?x in _) => destruct x end ].

Lemma silent_parse_source node : silent (parse_source C node).
Proof. unfold parse_source. silence. Qed.

Lemma silent_parse_interval_ms node : silent (parse_interval_ms C node).
Proof. unfold parse_interval_ms. silence. Qed.

Lemma silent_parse_struct node dt : silent (parse_struct C node dt).
Proof. unfold parse_struct. silence. Qed.

Lemma silent_push_back_all deps : forall acc, silent (push_back_all C deps acc).
Proof.
induction deps as [|dep deps IH]; intros acc; cbn [push_back_all]; [done|].
apply silent_bind; [apply silent_as_string|]. intros name. apply IH.
Qed.

Lemma silent_parse_depends_on node : silent (parse_depends_on C node).
Proof.
unfold parse_depends_on. apply silent_bind; [apply silent_subscript|].
intros deps. destruct (IsDefined deps); [apply silent_push_back_all|done].
Qed.

Lemma silent_fill_value_map items : forall acc, silent (fill_value_map C items acc).
Proof.
induction items as [|item items IH]; intros acc; cbn [fill_value_map]; [done|].
apply silent_bind; [silence|]. intros from.
apply silent_bind; [silence|]. intros to. apply IH.
Qed.

Lemma silent_parse_transform node : silent (parse_transform C node).
Proof.
unfold parse_transform.
apply silent_bind; [apply silent_subscript|]. intros tr.
destruct (IsDefined tr); [|done].
apply silent_bind; [apply silent_subscript|]. intros code.
destruct (IsDefined code); [silence|].
apply silent_bind; [apply silent_subscript|]. intros math.
destruct (IsDefined math); [silence|].
apply silent_bind; [apply silent_subscript|]. intros mapping.
destruct (IsDefined mapping); [|done].
apply silent_bind; [apply silent_fill_value_map|done].
Qed.

Lemma silent_parse_update_trigger node : silent (parse_update_trigger C node).
Proof. unfold parse_update_trigger. silence. Qed.

(** The datatype of an entry: the one its string names, in silence, or
  UNSPECIFIED with one warning. *)
Lemma parse_datatype_inv node signal_name lines dt :
parse_datatype C node signal_name = (lines, Ok dt) ->
(lines = [] /\
 exists datatype_node datatype_str,
   subscript node "datatype" = ([], Ok (Some datatype_node)) /\
   as_string (null_as_string C) (Some datatype_node) = ([], Ok datatype_str) /\
   value_type_from_string C datatype_str = Some dt) \/
(exists text, lines = [(WARNING, text)] /\ dt = UNSPECIFIED).
Proof.
unfold parse_datatype. intros Hp.
apply parser_bind_inv in Hp as (l0 & datatype_node & l0' & Hsub & Hp & ->).
pose proof (silent_subscript node "datatype") as Hs. unfold silent in Hs.
rewrite Hsub in Hs. cbn in Hs. subst l0.
destruct datatype_node as [datatype_node|]; cbn [IsDefined] in Hp.
- apply parser_bind_inv in Hp as (l1 & datatype_str & l1' & Hstr & Hp & ->).
  pose proof (silent_as_string (null_as_string C) (Some datatype_node)) as Hs.
  unfold silent in Hs. rewrite Hstr in Hs. cbn in Hs. subst l1.
  destruct (value_type_from_string C datatype_str) as [datatype|] eqn:Hv.
  + injection Hp as <- <-. left. split; [done|]. eauto.
  + injection Hp as <- <-. right. eauto.
- injection Hp as <- <-. right. eauto.
Qed.

Lemma parse_datatype_lines node signal_name :
(parse_datatype C node signal_name).1 = [] \/
exists text, (parse_datatype C node signal_name).1 = [(WARNING, text)].
Proof.
unfold parse_datatype. rewrite bind_lines.
pose proof (silent_subscript node "datatype") as Hs. unfold silent in Hs. rewrite Hs.
destruct (subscript node "datatype").2 as [datatype_node|e]; [|by left].
destruct (IsDefined datatype_node); [|right; eauto].
rewrite bind_lines.
pose proof (silent_as_string (null_as_string C) datatype_node) as Hs'.
unfold silent in Hs'. rewrite Hs'.
destruct (as_string _ datatype_node).2 as [datatype_str|e]; [|by left].
destruct (value_type_from_string C datatype_str); [by left|right; eauto].
Qed.

(** The lines of an entry are those of its datatype. *)
Lemma parse_mapping_node_lines node :
(parse_mapping_node C node).1 = [] \/
exists signal_name, (parse_mapping_node C node).1 = (parse_datatype C node signal_name).1.
Proof.
unfold parse_mapping_node. rewrite bind_lines.
pose proof (silent_subscript node "signal") as Hs. unfold silent in Hs. rewrite Hs.
destruct (subscript node "signal").2 as [signal_node|e]; [|by left].
destruct (negb (IsDefined signal_node)); [by left|].
rewrite bind_lines.
pose proof (silent_as_string (null_as_string C) signal_node) as Hs'.
unfold silent in Hs'. rewrite Hs'.
destruct (as_string _ signal_node).2 as [signal_name|e]; [|by left].
cbn [app]. rewrite bind_lines.
pose proof (silent_parse_source node) as H1. unfold silent in H1. rewrite H1.
destruct (parse_source C node).2 as [src|e]; [|by left].
right. exists signal_name. cbn [app]. rewrite bind_lines.
destruct (parse_datatype C node signal_name).2 as [dt|e]; [|by rewrite app_nil_r].
match goal with |- _ ++ (?p).1 = _ => assert (silent p) as Hrest end.
{ apply silent_bind; [apply silent_parse_interval_ms|]. intros interval.
  apply silent_bind; [apply silent_parse_struct|]. intros [is_st st_type].
  apply silent_bind; [apply silent_parse_depends_on|]. intros deps.
  apply silent_bind; [apply silent_parse_transform|]. intros tr.
  apply silent_bind; [apply silent_parse_update_trigger|]. intros trig. done. }
unfold silent in Hrest. by rewrite Hrest, app_nil_r.
Qed.

(** Each field of an entry that parses is what the parser of that field
  gave, and the entry is a map. *)
Lemma parse_mapping_node_inv node lines signal_name mapping :
parse_mapping_node C node = (lines, Ok (Some (signal_name, mapping))) ->
(exists entries, node = Some (Map entries)) /\
(parse_source C node).2 = Ok (source mapping) /\
parse_datatype C node signal_name = (lines, Ok (datatype mapping)) /\
(parse_interval_ms C node).2 = Ok (interval_ms mapping) /\
(parse_struct C node (datatype mapping)).2 = Ok (is_struct mapping, struct_type mapping) /\
(parse_depends_on C node).2 = Ok (depends_on mapping) /\
(parse_transform C node).2 = Ok (transform mapping) /\
(parse_update_trigger C node).2 = Ok (update_trigger mapping).
Proof.
unfold parse_mapping_node. intros Hp.
apply parser_bind_inv in Hp as (l0 & signal_node & l0' & Hsig & Hp & ->).
destruct (negb (IsDefined signal_node)) eqn:Hdef; [done|].
apply parser_bind_inv in Hp as (l1 & name & l1' & Hname & Hp & ->).
apply parser_bind_inv in Hp as (l2 & src & l2' & Hsrc & Hp & ->).
apply parser_bind_inv in Hp as (l3 & dt & l3' & Hdt & Hp & ->).
apply parser_bind_inv in Hp as (l4 & interval & l4' & Hint & Hp & ->).
apply parser_bind_inv in Hp as (l5 & [is_st st_type] & l5' & Hst & Hp & ->).
apply parser_bind_inv in Hp as (l6 & deps & l6' & Hdeps & Hp & ->).
apply parser_bind_inv in Hp as (l7 & tr & l7' & Htr & Hp & ->).
apply parser_bind_inv in Hp as (l8 & trig & l8' & Htrig & Hp & ->).
injection Hp as <- <- <-. cbn.
pose proof (silent_subscript node "signal") as S0.
pose proof (silent_as_string (null_as_string C) signal_node) as S1.
pose proof (silent_parse_source node) as S2.
pose proof (silent_parse_interval_ms node) as S4.
pose proof (silent_parse_struct node dt) as S5.
pose proof (silent_parse_depends_on node) as S6.
pose proof (silent_parse_transform node) as S7.
pose proof (silent_parse_update_trigger node) as S8.
unfold silent in *.
rewrite Hsig in S0. rewrite Hname in S1. rewrite Hsrc in S2. rewrite Hint in S4.
rewrite Hst in S5. rewrite Hdeps in S6. rewrite Htr in S7. rewrite Htrig in S8.
cbn in *. subst. rewrite Hsrc, Hint, Hst, Hdeps, Htr, Htrig. cbn.
rewrite app_nil_r. split_and!; try done.
destruct node as [[]|]; [..|done]; cbn in Hsig; try done;
  injection Hsig as <-; try done. eauto.
Qed.

(** The lines of a list of entries: at most one for each, all warnings. *)
Lemma parse_mappings_warnings nodes : forall table : gmap string SignalMapping,
(length (parse_mappings C nodes table).1 <= length nodes)%nat /\
Forall (fun line : LogLine => line.1 = WARNING) (parse_mappings C nodes table).1.
Proof.
induction nodes as [|node nodes IH]; intros table; cbn [parse_mappings].
- split; [done|constructor].
- rewrite bind_lines.
  assert ((length (parse_mapping_node C node).1 <= 1)%nat /\
          Forall (fun line : LogLine => line.1 = WARNING) (parse_mapping_node C node).1)
    as [Hlen Hsev].
  { destruct (parse_mapping_node_lines node) as [->|[name ->]];
      [split; [cbn; lia|constructor]|].
    destruct (parse_datatype_lines node name) as [->|[text ->]];
      [split; [cbn; lia|constructor]|].
    split; [cbn; lia|]. by repeat constructor. }
  destruct (parse_mapping_node C node).2 as [[[name mapping]|]|e].
  + destruct (IH (<[name := mapping]> table)) as [Hl Hs].
    rewrite length_app, Forall_app. cbn [length]. split; [lia|done].
  + destruct (IH table) as [Hl Hs].
    rewrite length_app, Forall_app. cbn [length]. split; [lia|done].
  + rewrite app_nil_r. cbn [length]. split; [lia|done].
Qed.

End Silence.

(** ** Startup, by the answers it gets *)

Section Answers.
Context {C : Collaborators}.
Implicit Types (s : Sys C).

Lemma actions_call e (sigs : list Z) rest :
  is_shutdown e = false ->
  actions (e :: (ShutdownRequested <$> sigs) ++ rest) = e :: actions rest.
Proof.
  intros He. rewrite actions_cons_keep by done.
  by rewrite actions_app, actions_shutdown.
Qed.

(** Startup by the answers of the four collaborators, each asked with the
    arguments of its call in [main]. *)
Lemma initialize_asks argv s lines dag_mappings started s' trace :
  length argv = 5%nat ->
  load_mappings C (nth 2 argv "") = (lines, Ok (Some dag_mappings)) ->
  initialize C argv s = (started, s', trace) ->
  match
    failed_startup
      (startup_answers C (nth 1 argv "") (nth 3 argv "") (nth 4 argv "") dag_mappings
         (world s))
  with
  | Some calls => started = inl (Exit 1) /\ actions trace = log_events lines ++ calls
  | None =>
      exists signal_handles resolutions,
        started = inr signal_handles /\
        resolve_trace (iteration_order C dag_mappings) ∅ signal_handles resolutions /\
        actions trace
        = log_events lines
          ++ [ProcessorInitialize true; SourceInitialize true;
              ResolverCreate OkStatus; ClientCreate OkStatus]
          ++ resolutions
  end.
Proof.
  intros Hlen Hload Hrun. unfold startup_answers, failed_startup, settled.
  cbn [processor_answer can_source_answer resolver_answer client_answer].
  unfold initialize in Hrun.
  destruct (Z.of_nat (length argv) =? 5) eqn:Hargc; [|lia]. cbn [negb] in Hrun.
  rewrite bind_run in Hrun. unfold lift_parser at 1 in Hrun. rewrite Hload in Hrun.
  cbn [fst snd] in Hrun. fold (log_events lines) in Hrun.
  rewrite bind_run, outside_run in Hrun. cbn [fst snd world] in Hrun.
  destruct (processor_initialize C dag_mappings (world s)) as [accepted w1].
  cbn [fst snd] in *. destruct accepted; cbn [negb] in *.
  2:{ injection Hrun as <- _ <-. split; [done|].
      rewrite actions_app, actions_log_events, actions_call by done. done. }
  rewrite bind_run, outside_run in Hrun. cbn [fst snd world] in Hrun.
  destruct (can_source_initialize C _ _ dag_mappings _) as [source_up w2].
  cbn [fst snd] in *. destruct source_up; cbn [negb] in *.
  2:{ injection Hrun as <- _ <-. split; [done|].
      rewrite actions_app, actions_log_events, !actions_call by done. done. }
  rewrite bind_run, outside_run in Hrun. cbn [fst snd world] in Hrun.
  destruct (Resolver_create C _ _) as [resolver_result w3].
  cbn [fst snd] in *. destruct resolver_result as [|text].
  2:{ injection Hrun as <- _ <-. split; [done|].
      rewrite actions_app, actions_log_events, !actions_call by done. done. }
  rewrite bind_run, outside_run in Hrun. cbn [fst snd world] in Hrun.
  destruct (Client_create C _ _) as [client_result w4].
  cbn [fst snd] in *. destruct client_result as [|text].
  2:{ injection Hrun as <- _ <-. split; [done|].
      rewrite actions_app, actions_log_events, !actions_call by done. done. }
  rewrite bind_run in Hrun.
  destruct (resolve_handles C _ ∅ _) as [[signal_handles s5] e5] eqn:Hres.
  injection Hrun as <- _ <-.
  exists signal_handles, (actions e5). split; [done|].
  split; [by eapply resolve_handles_shape|].
  rewrite actions_app, actions_log_events, !actions_call by done.
  by rewrite app_nil_r.
Qed.

(** The same for the whole run: a startup that fails is the end of it,
    with 1; after one that succeeds the loop ends with 0, if it ends. *)
Lemma main_asks fuel argv s lines dag_mappings outcome s' trace :
  length argv = 5%nat ->
  load_mappings C (nth 2 argv "") = (lines, Ok (Some dag_mappings)) ->
  main C fuel argv s = (outcome, s', trace) ->
  match
    failed_startup
      (startup_answers C (nth 1 argv "") (nth 3 argv "") (nth 4 argv "") dag_mappings
         (world s))
  with
  | Some calls => outcome = Exit 1 /\ actions trace = log_events lines ++ calls
  | None =>
      (outcome = Exit 0 \/ outcome = OutOfFuel) /\
      exists rest,
        actions trace
        = log_events lines
          ++ [ProcessorInitialize true; SourceInitialize true;
              ResolverCreate OkStatus; ClientCreate OkStatus]
          ++ rest
  end.
Proof.
  intros Hlen Hload Hmain. rewrite main_run in Hmain.
  destruct (initialize C argv s) as [[started s1] e1] eqn:Hinit.
  pose proof (initialize_asks _ _ _ _ _ _ _ Hlen Hload Hinit) as Hasks.
  destruct (failed_startup _) as [calls|].
  - destruct Hasks as [-> Hcalls]. by injection Hmain as <- _ <-.
  - destruct Hasks as (signal_handles & resolutions & -> & _ & Hcalls).
    destruct (now C LastPeriodicCheck s1) as [[t s2] e2].
    destruct (driver_loop C fuel signal_handles t s2) as [[o s3] e3] eqn:Hloop.
    injection Hmain as <- _ <-. split.
    + destruct (driver_loop_outcome _ _ _ _ _ _ _ Hloop) as [(-> & _)|(-> & _)]; auto.
    + exists (resolutions ++ actions (e2 ++ e3)).
      rewrite actions_app, Hcalls. by rewrite <- !app_assoc.
Qed.

(** The first call is the processor's, with its answer. *)
Lemma failed_startup_processor a :
  match failed_startup a with
  | Some calls => exists rest, calls = ProcessorInitialize (processor_answer a) :: rest
  | None => processor_answer a = true
  end.
Proof.
  unfold failed_startup. destruct (processor_answer a); cbn [negb]; [|eauto].
  destruct (can_source_answer a); cbn [negb]; [|eauto].
  destruct (resolver_answer a); [|eauto]. destruct (client_answer a); eauto.
Qed.

End Answers.

(** ** An entry, field by field *)

Section Entries.
Context {C : Collaborators}.

Lemma assoc_cons {A} key key' (a : A) l :
  assoc key ((key', a) :: l) = if String.eqb key' key then Some a else assoc key l.
Proof. unfold assoc. cbn. by destruct (String.eqb key' key). Qed.

Lemma assoc_without_ne key key' entries :
  key' <> key -> assoc key' (without key entries) = assoc key' entries.
Proof.
  intros Hne. induction entries as [|[k n] entries IH]; [done|].
  cbn [without List.filter fst]. fold (without key entries).
  destruct (String.eqb k key) eqn:Hk; cbn [negb].
  - apply String.eqb_eq in Hk as ->. rewrite assoc_cons.
    destruct (String.eqb key key') eqn:Hk'; [|exact IH].
    apply String.eqb_eq in Hk'. congruence.
  - rewrite !assoc_cons, IH. done.
Qed.

Lemma assoc_without key entries : assoc key (without key entries) = None.
Proof.
  induction entries as [|[k n] entries IH]; [done|].
  cbn [without List.filter fst]. fold (without key entries).
  destruct (String.eqb k key) eqn:Hk; cbn [negb]; [exact IH|].
  by rewrite assoc_cons, Hk.
Qed.

(** A parser that logs nothing is its result. *)
Lemma silent_result {A} (p : Parser A) : silent p -> p = ([], p.2).
Proof. destruct p as [lines r]. unfold silent. cbn. by intros ->. Qed.

(** Each field is read from its own key. *)
Lemma parse_source_field e1 e2 :
  assoc "source" e1 = assoc "source" e2 ->
  parse_source C (Some (Map e1)) = parse_source C (Some (Map e2)).
Proof. intros H. unfold parse_source. by rewrite !subscript_map, H. Qed.

Lemma parse_datatype_field e1 e2 signal_name :
  assoc "datatype" e1 = assoc "datatype" e2 ->
  parse_datatype C (Some (Map e1)) signal_name = parse_datatype C (Some (Map e2)) signal_name.
Proof. intros H. unfold parse_datatype. by rewrite !subscript_map, H. Qed.

Lemma parse_interval_ms_field e1 e2 :
  assoc "interval_ms" e1 = assoc "interval_ms" e2 ->
  parse_interval_ms C (Some (Map e1)) = parse_interval_ms C (Some (Map e2)).
Proof. intros H. unfold parse_interval_ms. by rewrite !subscript_map, H. Qed.

Lemma parse_struct_field e1 e2 dt :
  assoc "struct_type" e1 = assoc "struct_type" e2 ->
  parse_struct C (Some (Map e1)) dt = parse_struct C (Some (Map e2)) dt.
Proof. intros H. unfold parse_struct. by rewrite !subscript_map, H. Qed.

Lemma parse_depends_on_field e1 e2 :
  assoc "depends_on" e1 = assoc "depends_on" e2 ->
  parse_depends_on C (Some (Map e1)) = parse_depends_on C (Some (Map e2)).
Proof. intros H. unfold parse_depends_on. by rewrite !subscript_map, H. Qed.

Lemma parse_transform_field e1 e2 :
  assoc "transform" e1 = assoc "transform" e2 ->
  parse_transform C (Some (Map e1)) = parse_transform C (Some (Map e2)).
Proof. intros H. unfold parse_transform. by rewrite !subscript_map, H. Qed.

Lemma parse_update_trigger_field e1 e2 :
  assoc "update_trigger" e1 = assoc "update_trigger" e2 ->
  parse_update_trigger C (Some (Map e1)) = parse_update_trigger C (Some (Map e2)).
Proof. intros H. unfold parse_update_trigger. by rewrite !subscript_map, H. Qed.

(** The signal of an entry that is stored. *)
Lemma parse_mapping_node_signal entries lines signal_name mapping :
  parse_mapping_node C (Some (Map entries)) = (lines, Ok (Some (signal_name, mapping))) ->
  exists signal_node,
    assoc "signal" entries = Some signal_node /\
    (as_string (null_as_string C) (Some signal_node)).2 = Ok signal_name.
Proof.
  intros Hp. unfold parse_mapping_node in Hp.
  apply parser_bind_inv in Hp as (l0 & signal_node & l0' & Hsig & Hp & _).
  rewrite subscript_map in Hsig. injection Hsig as _ <-.
  destruct (assoc "signal" entries) as [signal_node|] eqn:Hsig;
    cbn [IsDefined negb] in Hp; [|done].
  exists signal_node. split; [done|].
  apply parser_bind_inv in Hp as (l1 & name & l1' & Hname & Hp & _).
  apply parser_bind_inv in Hp as (l2 & src & l2' & _ & Hp & _).
  apply parser_bind_inv in Hp as (l3 & dt & l3' & _ & Hp & _).
  apply parser_bind_inv in Hp as (l4 & interval & l4' & _ & Hp & _).
  apply parser_bind_inv in Hp as (l5 & [is_st st_type] & l5' & _ & Hp & _).
  apply parser_bind_inv in Hp as (l6 & deps & l6' & _ & Hp & _).
  apply parser_bind_inv in Hp as (l7 & tr & l7' & _ & Hp & _).
  apply parser_bind_inv in Hp as (l8 & trig & l8' & _ & Hp & _).
  injection Hp as _ <- _. by rewrite Hname.
Qed.

(** An entry from its fields: it is stored when each field parses, and
    ends with the exception of the transform when that one throws. *)
Lemma parse_mapping_node_fields_in entries signal_node signal_name src lines dt interval
    is_st st_type deps tr trig :
  let node := Some (Map entries) in
  assoc "signal" entries = Some signal_node ->
  (as_string (null_as_string C) (Some signal_node)).2 = Ok signal_name ->
  (parse_source C node).2 = Ok src ->
  parse_datatype C node signal_name = (lines, Ok dt) ->
  (parse_interval_ms C node).2 = Ok interval ->
  (parse_struct C node dt).2 = Ok (is_st, st_type) ->
  (parse_depends_on C node).2 = Ok deps ->
  (parse_transform C node).2 = tr ->
  (parse_update_trigger C node).2 = Ok trig ->
  parse_mapping_node C node
  = (lines,
     match tr with
     | Ok tr =>
         Ok (Some (signal_name,
                   {| source := src; datatype := dt; interval_ms := interval;
                      is_struct := is_st; struct_type := st_type;
                      depends_on := deps; transform := tr;
                      update_trigger := trig |}))
     | Throw e => Throw e
     end).
Proof.
  intros node Hsig Hname Hsrc Hdt Hint Hst Hdeps Htr Htrig. unfold parse_mapping_node.
  subst node. rewrite subscript_map. unfold pret. rewrite parser_bind_ok, Hsig.
  cbn [IsDefined negb fst snd].
  rewrite (silent_result _ (silent_as_string _ _)), Hname, parser_bind_ok.
  rewrite (silent_result _ (silent_parse_source _)), Hsrc, parser_bind_ok.
  rewrite Hdt, parser_bind_ok.
  rewrite (silent_result _ (silent_parse_interval_ms _)), Hint, parser_bind_ok.
  rewrite (silent_result _ (silent_parse_struct _ _)), Hst, parser_bind_ok.
  rewrite (silent_result _ (silent_parse_depends_on _)), Hdeps, parser_bind_ok.
  rewrite (silent_result _ (silent_parse_transform _)), Htr.
  destruct tr as [tr|e]; [|by rewrite app_nil_r].
  rewrite parser_bind_ok.
  rewrite (silent_result _ (silent_parse_update_trigger _)), Htrig, parser_bind_ok.
  cbn. by rewrite !app_nil_r.
Qed.

End Entries.

(** * The claims *)

(** C1. An emission whose qualified value is not valid is never handed to
    the broker: [publish_to_kuksa] gives [false] and only logs the skip, no
    call of [client->set] is made and the state is as before.  So every
    write of a whole run, whatever the arguments and the world, carries a
    valid value. *)
Theorem invalid_value_is_never_published (C : Collaborators) :
  (forall handle vss (s : Sys C),
      is_valid (qualified_value vss) = false ->
      publish_to_kuksa C handle vss s
      = (false, s, [Log (VERBOSE 3) ("Skipping invalid signal " +:+ path vss)])) /\
  (forall fuel argv (s : Sys C) handle qv status,
      SetValue handle qv status ∈ (main C fuel argv s).2 -> is_valid qv = true).
Proof.
  split.
  - intros handle vss s Hv. unfold publish_to_kuksa. by rewrite Hv.
  - intros fuel argv s handle qv status Hin.
    pose proof (main_events fuel argv s) as Hall.
    rewrite Forall_forall in Hall.
    destruct (Hall _ Hin) as [[]|[signal_handles [[Hvalid _]|[=]]]]. exact Hvalid.
Qed.

Lemma invalid_value_is_never_published_witness :
  let C := scripted (healthy speed_file) in
  publish_to_kuksa C (Handle 1) (speed false) (start quiet (healthy speed_file))
  = (false, start quiet (healthy speed_file),
     [Log (VERBOSE 3) "Skipping invalid signal Vehicle.Speed"]) /\
  set_attempts (main C 3 argv4 (start one_busy_turn (healthy speed_file))).2
  = [(Handle 1, qualified_value (speed true))] /\
  is_valid (qualified_value (speed true)) = true.
Proof.
  intros C. split; [|split].
  - apply (proj1 (invalid_value_is_never_published C)). reflexivity.
  - vm_compute. reflexivity.
  - apply (proj2 (invalid_value_is_never_published C) 3%nat argv4
             (start one_busy_turn (healthy speed_file)) (Handle 1) _ OkStatus).
    vm_compute. repeat first [apply list_elem_of_here | apply list_elem_of_further].
Defined.

(** ** Exit codes *)

Section ExitCodes.
Context {C : Collaborators}.
Implicit Types (s : Sys C) (signal_handles : gmap string DynamicSignalHandle).

Lemma initialize_usage argv s :
  length argv <> 5%nat -> initialize C argv s = (inl (Exit 1), s, [Usage]).
Proof.
  intros Hargc. unfold initialize.
  destruct (Z.of_nat (length argv) =? 5) eqn:Heq; [lia|done].
Qed.

Lemma load_mappings_no_section yaml_file root :
  LoadFile C yaml_file = Ok root ->
  subscript (Some root) "mappings" = pret None ->
  load_mappings C yaml_file
  = ([(ERROR, "No 'mappings' section found in YAML file")], Ok None).
Proof.
  intros Hfile Hnone. unfold load_mappings. rewrite Hfile, parser_bind_ok. cbn [fst snd].
  rewrite Hnone. reflexivity.
Qed.

Lemma elem_of_log_events e lines : e ∈ log_events lines -> exists sev text, e = Log sev text.
Proof.
  unfold log_events. rewrite list_elem_of_fmap. intros ([sev text] & -> & _). eauto.
Qed.

Lemma resolve_trace_events e names signal_handles signal_handles' trace :
  resolve_trace names signal_handles signal_handles' trace -> e ∈ trace ->
  (exists name r, e = Resolve name r) \/ (exists sev text, e = Log sev text).
Proof.
  induction 1 as [|name h rest t t' tr _ IH|name text rest t t' tr _ IH]; intros He.
  - by apply elem_of_nil in He.
  - apply elem_of_cons in He as [->|He]; [left; eauto | auto].
  - apply elem_of_cons in He as [->|He]; [left; eauto|].
    apply elem_of_cons in He as [->|He]; [right; eauto | auto].
Qed.

(** A collaborator that did not start ends startup with 1. *)
Lemma startup_failure argv started trace e :
  startup_trace C argv started trace -> e ∈ trace -> is_failure e ->
  started = inl (Exit 1).
Proof.
  destruct 1 as [?|lines ex ? ?|?|?|?|?|?|lines m h tr ? ? Hres]; try done; intros He Hf.
  - apply elem_of_log_events in He as (? & ? & ->). done.
  - rewrite !elem_of_app in He. destruct He as [He|[He|He]].
    + apply elem_of_log_events in He as (? & ? & ->). done.
    + repeat (apply elem_of_cons in He as [->|He]; [done|]). by apply elem_of_nil in He.
    + destruct (resolve_trace_events _ _ _ _ _ Hres He) as [(? & ? & ->)|(? & ? & ->)]; done.
Qed.

Lemma startup_exit argv outcome trace :
  startup_trace C argv (inl outcome) trace ->
  outcome = Exit 1 \/ exists e, outcome = Terminate e.
Proof. inversion 1; eauto. Qed.

Lemma startup_ready_inv argv signal_handles trace :
  startup_trace C argv (inr signal_handles) trace ->
  length argv = 5%nat /\
  exists lines dag_mappings,
    load_mappings C (nth 2 argv "") = (lines, Ok (Some dag_mappings)) /\
    resolved_names trace = iteration_order C dag_mappings.
Proof.
  inversion 1 as [| | | | | | |lines m h tr Hlen Hload Hres]; subst.
  split; [done|]. exists lines, m. split; [done|].
  rewrite !resolved_names_app, resolved_names_log_events. cbn.
  by eapply resolve_trace_names.
Qed.

(** If the flag is down after some number of turns, the loop comes to its
    end within that many turns, and gives 0. *)
Lemma driver_loop_exits n : forall fuel signal_handles last_check s,
  g_running (after_turns n signal_handles (last_check, s)).2 = false ->
  (n < fuel)%nat ->
  (driver_loop C fuel signal_handles last_check s).1.1 = Exit 0.
Proof.
  induction n as [|n IH]; intros fuel signal_handles last_check s Hdown Hfuel;
    (destruct fuel as [|fuel]; [lia|]); cbn [driver_loop]; rewrite bind_run.
  - cbn in Hdown. rewrite Hdown. rewrite bind_run.
    by destruct (outside C _ _ s) as [[[] s1] e1].
  - destruct (g_running s) eqn:Hflag.
    + rewrite bind_run.
      destruct (loop_body C signal_handles last_check s) as [[last' s1] e1] eqn:Hbody.
      rewrite after_turns_S in Hdown. unfold turn in Hdown. cbn in Hdown.
      rewrite Hbody in Hdown. cbn in Hdown.
      specialize (IH fuel signal_handles last' s1 Hdown ltac:(lia)).
      by destruct (driver_loop C fuel signal_handles last' s1) as [[o s2] e2].
    + rewrite bind_run. by destruct (outside C _ _ s) as [[[] s1] e1].
Qed.

(** An exception of the parser ends startup, and so does a file without
    the section. *)
Lemma initialize_throw argv s lines e :
  length argv = 5%nat ->
  load_mappings C (nth 2 argv "") = (lines, Throw e) ->
  initialize C argv s = (inl (Terminate e), s, log_events lines).
Proof.
  intros Hlen Hload. unfold initialize.
  destruct (Z.of_nat (length argv) =? 5) eqn:Heq; [|lia]. cbn [negb].
  rewrite bind_run. unfold lift_parser at 1. rewrite Hload. cbn.
  by rewrite app_nil_r.
Qed.

Lemma initialize_no_section argv s lines :
  length argv = 5%nat ->
  load_mappings C (nth 2 argv "") = (lines, Ok None) ->
  initialize C argv s = (inl (Exit 1), s, log_events lines).
Proof.
  intros Hlen Hload. unfold initialize.
  destruct (Z.of_nat (length argv) =? 5) eqn:Heq; [|lia]. cbn [negb].
  rewrite bind_run. unfold lift_parser at 1. rewrite Hload. cbn.
  by rewrite app_nil_r.
Qed.

Lemma load_mappings_unreadable yaml_file e :
  LoadFile C yaml_file = Throw e -> load_mappings C yaml_file = ([], Throw e).
Proof. intros Hfile. unfold load_mappings. by rewrite Hfile. Qed.

Lemma load_mappings_scalar_root yaml_file text :
  LoadFile C yaml_file = Ok (Scalar text) ->
  load_mappings C yaml_file = ([], Throw BadSubscript).
Proof. intros Hfile. unfold load_mappings. by rewrite Hfile. Qed.

(** Only the parser ends startup with an exception. *)
Lemma startup_terminate argv e trace :
  startup_trace C argv (inl (Terminate e)) trace ->
  length argv = 5%nat /\
  exists lines, load_mappings C (nth 2 argv "") = (lines, Throw e).
Proof. inversion 1; subst. eauto. Qed.

End ExitCodes.

(** C2, as the code has it.  The process takes four positional arguments:
    the DBC file, the mapping file, the CAN interface and the broker's
    address, in this order.  With any other count it prints the usage and
    returns 1.  The mapping file is the second argument: when it cannot be
    loaded, when its root is a scalar, or when an entry makes the parser
    throw, the process ends with that exception, which nothing catches, and
    not with 1.  It returns 1 when the file has no 'mappings' section, and
    when the processor (given the parsed table), the CAN source (given the
    third and the first argument and the table), the resolver or the client
    (given the fourth argument) does not start, after the calls up to that
    one and its error line.  It returns 0 exactly on the graceful stop:
    whenever [stop()] was called, and only then, with the flag down; and it
    does come to that return when the flag is down after some number of
    turns that the budget covers. *)
Theorem main_exit_codes (C : Collaborators) fuel argv (s : Sys C) outcome s' trace :
  main C fuel argv s = (outcome, s', trace) ->
  (length argv <> 5%nat -> outcome = Exit 1 /\ trace = [Usage]) /\
  (forall lines e,
     length argv = 5%nat ->
     load_mappings C (nth 2 argv "") = (lines, Throw e) ->
     outcome = Terminate e /\ trace = log_events lines) /\
  (forall e,
     length argv = 5%nat ->
     LoadFile C (nth 2 argv "") = Throw e ->
     outcome = Terminate e /\ trace = []) /\
  (forall text,
     length argv = 5%nat ->
     LoadFile C (nth 2 argv "") = Ok (Scalar text) ->
     outcome = Terminate BadSubscript /\ trace = []) /\
  (forall e,
     outcome = Terminate e ->
     length argv = 5%nat /\
     exists lines, load_mappings C (nth 2 argv "") = (lines, Throw e)) /\
  (forall root,
     length argv = 5%nat ->
     LoadFile C (nth 2 argv "") = Ok root ->
     subscript (Some root) "mappings" = pret None ->
     outcome = Exit 1 /\
     trace = [Log ERROR "No 'mappings' section found in YAML file"]) /\
  (forall lines dag_mappings,
     length argv = 5%nat ->
     load_mappings C (nth 2 argv "") = (lines, Ok (Some dag_mappings)) ->
     match
       failed_startup
         (startup_answers C (nth 1 argv "") (nth 3 argv "") (nth 4 argv "") dag_mappings
            (world s))
     with
     | Some calls => outcome = Exit 1 /\ actions trace = log_events lines ++ calls
     | None =>
         (outcome = Exit 0 \/ outcome = OutOfFuel) /\
         exists rest,
           actions trace
           = log_events lines
             ++ [ProcessorInitialize true; SourceInitialize true;
                 ResolverCreate OkStatus; ClientCreate OkStatus]
             ++ rest
     end) /\
  (ProcessorInitialize false ∈ trace -> outcome = Exit 1) /\
  (SourceInitialize false ∈ trace -> outcome = Exit 1) /\
  (forall text, ResolverCreate (ErrorStatus text) ∈ trace -> outcome = Exit 1) /\
  (forall text, ClientCreate (ErrorStatus text) ∈ trace -> outcome = Exit 1) /\
  (Stop ∈ trace -> outcome = Exit 0) /\
  (forall code, outcome = Exit code ->
     code = 1 \/ (code = 0 /\ g_running s' = false /\ last (actions trace) = Some Stop)) /\
  (forall signal_handles s1 e1 t s2 e2 n,
     initialize C argv s = (inr signal_handles, s1, e1) ->
     now C LastPeriodicCheck s1 = (t, s2, e2) ->
     g_running (after_turns n signal_handles (t, s2)).2 = false ->
     (n < fuel)%nat ->
     outcome = Exit 0).
Proof.
  intros Hmain. rewrite main_run in Hmain.
  destruct (initialize C argv s) as [[started s1] e1] eqn:Hinit.
  pose proof (initialize_shape _ _ _ _ _ Hinit) as Hshape.
  pose proof (always_initialize (C:=C) argv s) as Hstartup.
  rewrite Hinit in Hstartup. cbn in Hstartup. rewrite Forall_forall in Hstartup.
  assert (forall e, is_failure e -> is_shutdown e = false) as Hfs by (by intros []).
  destruct started as [o|signal_handles].
  - injection Hmain as <- <- <-.
    assert (forall e, is_failure e -> e ∈ e1 -> o = Exit 1) as Hfail.
    { intros e Hf He.
      assert (inl o = inl (Exit 1) :> Outcome + gmap string DynamicSignalHandle) as [= ->];
        [|done].
      eapply startup_failure; [exact Hshape| |exact Hf]. apply in_actions; auto. }
    assert (forall lines e,
               length argv = 5%nat ->
               load_mappings C (nth 2 argv "") = (lines, Throw e) ->
               o = Terminate e /\ e1 = log_events lines) as Hthrow.
    { intros lines e Hlen Hload. rewrite (initialize_throw _ _ _ _ Hlen Hload) in Hinit.
      by injection Hinit as <- _ <-. }
    split_and!.
    + intros Hargc. rewrite initialize_usage in Hinit by done. by injection Hinit as <- _ <-.
    + exact Hthrow.
    + intros e Hlen Hfile. by apply (Hthrow [] e Hlen), load_mappings_unreadable.
    + intros text Hlen Hfile.
      by apply (Hthrow [] BadSubscript Hlen), (load_mappings_scalar_root _ text).
    + intros e ->. by eapply startup_terminate.
    + intros root Hlen Hfile Hnone.
      rewrite (initialize_no_section _ _ _ Hlen (load_mappings_no_section _ _ Hfile Hnone))
        in Hinit.
      by injection Hinit as <- _ <-.
    + intros lines dag_mappings Hlen Hload.
      pose proof (initialize_asks _ _ _ _ _ _ _ Hlen Hload Hinit) as Hasks.
      destruct (failed_startup _) as [calls|].
      * destruct Hasks as [[= ->] Hcalls]. done.
      * by destruct Hasks as (? & ? & [=] & _).
    + by apply Hfail.
    + by apply Hfail.
    + intros text. by apply Hfail.
    + intros text. by apply Hfail.
    + intros Hstop. by destruct (Hstartup _ Hstop).
    + intros code ->. destruct (startup_exit _ _ _ Hshape) as [[= ->]|[e [=]]]. by left.
    + intros ? ? ? ? ? ? ? [=].
  - destruct (startup_ready_inv _ _ _ Hshape) as (Hlen & lines & dag_mappings & Hload & _).
    destruct (now_events (C:=C) LastPeriodicCheck s1) as [sigs Hnow].
    destruct (now C LastPeriodicCheck s1) as [[t s2] e2] eqn:Hnow2. cbn in Hnow. subst e2.
    destruct (driver_loop C fuel signal_handles t s2) as [[o s3] e3] eqn:Hloop.
    injection Hmain as <- <- <-.
    pose proof (always_driver_loop (C:=C) fuel signal_handles t s2) as Hevents.
    rewrite Hloop in Hevents. cbn in Hevents. rewrite Forall_forall in Hevents.
    assert (forall e, is_failure e ->
              e ∉ e1 ++ (Clock LastPeriodicCheck t :: (ShutdownRequested <$> sigs)) ++ e3)
      as Hnofail.
    { intros e Hf. rewrite !elem_of_app, elem_of_cons, list_elem_of_fmap.
      intros [He|[[->|(sg & -> & _)]|He]]; try done.
      - pose proof (startup_failure _ _ _ _ Hshape (in_actions _ _ He (Hfs _ Hf)) Hf).
        done.
      - destruct (Hevents _ He) as [Ht| ->]; [|done].
        by destruct e as [| | | [] | [] | [] | [] | | | | | | | ]. }
    assert (Stop ∈ e1 ++ (Clock LastPeriodicCheck t :: (ShutdownRequested <$> sigs)) ++ e3
            -> Stop ∈ e3) as Hstop.
    { rewrite !elem_of_app, elem_of_cons, list_elem_of_fmap.
      intros [He|[[?|(sg & ? & _)]|He]]; try done. by destruct (Hstartup _ He). }
    assert (o = Exit 0 \/ o = OutOfFuel) as Hended.
    { destruct (driver_loop_outcome _ _ _ _ _ _ _ Hloop) as [(-> & _)|(-> & _)]; auto. }
    split_and!.
    + intros Hargc. lia.
    + intros lines' e _ Hload'. by rewrite Hload' in Hload.
    + intros e _ Hfile. by rewrite (load_mappings_unreadable _ _ Hfile) in Hload.
    + intros text _ Hfile. by rewrite (load_mappings_scalar_root _ _ Hfile) in Hload.
    + intros e ->. by destruct Hended.
    + intros root _ Hfile Hnone.
      by rewrite (load_mappings_no_section _ _ Hfile Hnone) in Hload.
    + intros lines' dag_mappings' _ Hload'.
      rewrite Hload' in Hload. injection Hload as -> ->.
      pose proof (initialize_asks _ _ _ _ _ _ _ Hlen Hload' Hinit) as Hasks.
      destruct (failed_startup _) as [calls|].
      * by destruct Hasks as [[=] _].
      * destruct Hasks as (signal_handles' & resolutions & _ & _ & Hcalls).
        split; [exact Hended|].
        exists (resolutions
                ++ actions ((Clock LastPeriodicCheck t :: (ShutdownRequested <$> sigs)) ++ e3)).
        rewrite actions_app, Hcalls. by rewrite <- !app_assoc.
    + intros He. by destruct (Hnofail (ProcessorInitialize false) I He).
    + intros He. by destruct (Hnofail (SourceInitialize false) I He).
    + intros text He. by destruct (Hnofail (ResolverCreate (ErrorStatus text)) I He).
    + intros text He. by destruct (Hnofail (ClientCreate (ErrorStatus text)) I He).
    + intros He%Hstop.
      by destruct (driver_loop_outcome _ _ _ _ _ _ _ Hloop) as [(-> & _ & Hnostop)|(-> & _)].
    + intros code ->.
      destruct (driver_loop_outcome _ _ _ _ _ _ _ Hloop) as [([=] & _)|([= <-] & Hflag & Hlast)].
      right. split; [done|]. split; [done|].
      change (e1 ++ ?x :: ?l ++ e3) with ((e1 ++ x :: l) ++ e3) || rewrite app_comm_cons, app_assoc.
      rewrite actions_app, last_app_nonempty; [done|].
      by destruct (actions e3).
    + intros sh s1' e1' t' s2' e2' n [= <- <- <-] Hn Hdown Hfuel.
      rewrite Hnow2 in Hn. injection Hn as <- <- <-.
      pose proof (driver_loop_exits n fuel signal_handles t s2 Hdown Hfuel) as Hexit.
      by rewrite Hloop in Hexit.
Qed.

Lemma main_exit_codes_witness :
  let C := installed (healthy speed_file) ["Vehicle.Speed"] in
  let s := boot one_busy_turn (healthy speed_file) ["Vehicle.Speed"] in
  (main C 3 ["can2vss-feeder"; "vehicle.dbc"] s).1.1 = Exit 1 /\
  (main C 3 argv4 s).1.1 = Exit 0 /\
  (main C 3 argv_missing_file s).1.1 = Terminate BadFile /\
  (main C 3 argv_files_swapped s).1.1 = Terminate BadFile /\
  ((main C 3 argv_other_bus s).1.1 = Exit 1 /\
   actions (main C 3 argv_other_bus s).2
   = [ProcessorInitialize true; SourceInitialize false;
      Log ERROR "Failed to initialize CAN signal source"]) /\
  (main (scripted garbled) 3 argv4 (start quiet garbled)).1.1 = Terminate ParserException /\
  (main (scripted (healthy scalar_file)) 3 argv4 (start quiet (healthy scalar_file))).1.1
    = Terminate BadSubscript /\
  (main (scripted (healthy sourceless_file)) 3 argv4
        (start quiet (healthy sourceless_file))).1.1 = Terminate InvalidNode /\
  (main (scripted (healthy other_file)) 3 argv4 (start quiet (healthy other_file))).1.1
    = Exit 1 /\
  (main (scripted failing_processor) 3 argv4 (start quiet failing_processor)).1.1 = Exit 1 /\
  (main (scripted failing_source) 3 argv4 (start quiet failing_source)).1.1 = Exit 1 /\
  (main (scripted failing_resolver) 3 argv4 (start quiet failing_resolver)).1.1 = Exit 1 /\
  (main (scripted failing_client) 3 argv4 (start quiet failing_client)).1.1 = Exit 1.
Proof.
  intros C s.
  assert (forall (C : Collaborators) fuel argv (s : Sys C),
             main C fuel argv s
             = ((main C fuel argv s).1.1, (main C fuel argv s).1.2, (main C fuel argv s).2))
    as Hrun by (intros; by destruct (main _ _ _ _) as [[? ?] ?]).
  assert ((main C 3 argv_other_bus s).1.1 = Exit 1 /\
          actions (main C 3 argv_other_bus s).2
          = [ProcessorInitialize true; SourceInitialize false;
             Log ERROR "Failed to initialize CAN signal source"]) as Hbus.
  { destruct (main_exit_codes _ _ _ _ _ _ _ (Hrun C 3%nat argv_other_bus s))
      as (_ & _ & _ & _ & _ & _ & Hasks & _).
    specialize (Hasks [] (parsed_mappings C "mappings.yaml") eq_refl
                  ltac:(vm_compute; reflexivity)).
    match type of Hasks with
    | match ?answers with _ => _ end =>
        assert (answers = Some [ProcessorInitialize true; SourceInitialize false;
                                Log ERROR "Failed to initialize CAN signal source"])
          as Hanswers by (vm_compute; reflexivity);
        rewrite Hanswers in Hasks
    end.
    exact Hasks. }
  split_and!.
  - apply (proj1 (main_exit_codes _ _ _ _ _ _ _ (Hrun _ _ _ _))). cbn. lia.
  - destruct (main_exit_codes _ _ _ _ _ _ _ (Hrun C 3%nat argv4 s))
      as (_ & _ & _ & _ & _ & _ & _ & _ & _ & _ & _ & _ & _ & Hgraceful).
    set (init := initialize C argv4 s).
    set (first_reading := now C LastPeriodicCheck init.1.2).
    apply (Hgraceful (match init.1.1 with inr h => h | inl _ => ∅ end) init.1.2 init.2
             first_reading.1.1 first_reading.1.2 first_reading.2 1%nat);
      [vm_compute; reflexivity | vm_compute; reflexivity | vm_compute; reflexivity | lia].
  - destruct (main_exit_codes _ _ _ _ _ _ _ (Hrun C 3%nat argv_missing_file s))
      as (_ & _ & Hunreadable & _).
    by destruct (Hunreadable BadFile eq_refl eq_refl).
  - destruct (main_exit_codes _ _ _ _ _ _ _ (Hrun C 3%nat argv_files_swapped s))
      as (_ & _ & Hunreadable & _).
    by destruct (Hunreadable BadFile eq_refl eq_refl).
  - exact (proj1 Hbus).
  - exact (proj2 Hbus).
  - destruct (main_exit_codes _ _ _ _ _ _ _
                (Hrun (scripted garbled) 3%nat argv4 (start quiet garbled)))
      as (_ & _ & Hunreadable & _).
    by destruct (Hunreadable ParserException eq_refl eq_refl).
  - destruct (main_exit_codes _ _ _ _ _ _ _
                (Hrun (scripted (healthy scalar_file)) 3%nat argv4
                      (start quiet (healthy scalar_file))))
      as (_ & _ & _ & Hscalar & _).
    by destruct (Hscalar "mappings" eq_refl eq_refl).
  - destruct (main_exit_codes _ _ _ _ _ _ _
                (Hrun (scripted (healthy sourceless_file)) 3%nat argv4
                      (start quiet (healthy sourceless_file))))
      as (_ & Hthrow & _).
    by destruct (Hthrow [] InvalidNode eq_refl ltac:(vm_compute; reflexivity)).
  - destruct (main_exit_codes _ _ _ _ _ _ _
                (Hrun (scripted (healthy other_file)) 3%nat argv4
                      (start quiet (healthy other_file))))
      as (_ & _ & _ & _ & _ & Hnone & _).
    by destruct (Hnone other_file eq_refl eq_refl eq_refl).
  - destruct (main_exit_codes _ _ _ _ _ _ _
                (Hrun (scripted failing_processor) 3%nat argv4 (start quiet failing_processor)))
      as (_ & _ & _ & _ & _ & _ & _ & Hfail & _).
    apply Hfail. vm_compute. repeat first [apply list_elem_of_here | apply list_elem_of_further].
  - destruct (main_exit_codes _ _ _ _ _ _ _
                (Hrun (scripted failing_source) 3%nat argv4 (start quiet failing_source)))
      as (_ & _ & _ & _ & _ & _ & _ & _ & Hfail & _).
    apply Hfail. vm_compute. repeat first [apply list_elem_of_here | apply list_elem_of_further].
  - destruct (main_exit_codes _ _ _ _ _ _ _
                (Hrun (scripted failing_resolver) 3%nat argv4 (start quiet failing_resolver)))
      as (_ & _ & _ & _ & _ & _ & _ & _ & _ & Hfail & _).
    apply (Hfail "UNAVAILABLE"). vm_compute.
    repeat first [apply list_elem_of_here | apply list_elem_of_further].
  - destruct (main_exit_codes _ _ _ _ _ _ _
                (Hrun (scripted failing_client) 3%nat argv4 (start quiet failing_client)))
      as (_ & _ & _ & _ & _ & _ & _ & _ & _ & _ & Hfail & _).
    apply (Hfail "UNAVAILABLE"). vm_compute.
    repeat first [apply list_elem_of_here | apply list_elem_of_further].
Defined.

(** C2, as stated, fails: a mapping file that is not there is a failure of
    initialization, and the process does not return 1.  [YAML::LoadFile]
    throws, nothing catches the exception, and the run ends with it before
    anything is logged and before any collaborator is asked. *)
Lemma missing_mapping_file_is_not_exit_1 :
  let C := installed (healthy speed_file) ["Vehicle.Speed"] in
  let s := boot quiet (healthy speed_file) ["Vehicle.Speed"] in
  length argv_missing_file = 5%nat /\
  LoadFile C (nth 2 argv_missing_file "") = Throw BadFile /\
  main C 3 argv_missing_file s = (Terminate BadFile, s, []) /\
  (main C 3 argv_missing_file s).1.1 <> Exit 1.
Proof. intros C s. split_and!; try (vm_compute; reflexivity). vm_compute. discriminate. Qed.

(** ** Configuration errors *)

Section Configuration.
Context {C : Collaborators}.

Lemma parse_datatype_unknown entries signal_name datatype_str :
  assoc "datatype" entries = Some (Scalar datatype_str) ->
  value_type_from_string C datatype_str = None ->
  parse_datatype C (Some (Map entries)) signal_name
  = ([(WARNING, "Unknown datatype '" +:+ datatype_str +:+ "' for signal " +:+ signal_name)],
     Ok UNSPECIFIED).
Proof.
  intros Hd Hv. unfold parse_datatype. rewrite subscript_map. unfold pret.
  rewrite parser_bind_ok, Hd. cbn [IsDefined as_string fst snd]. unfold pret.
  rewrite parser_bind_ok, Hv. reflexivity.
Qed.

Lemma parse_datatype_absent entries signal_name :
  assoc "datatype" entries = None ->
  parse_datatype C (Some (Map entries)) signal_name
  = ([(WARNING, "No datatype specified for signal " +:+ signal_name
                +:+ ", using UNSPECIFIED")],
     Ok UNSPECIFIED).
Proof.
  intros Hd. unfold parse_datatype. rewrite subscript_map. unfold pret.
  rewrite parser_bind_ok, Hd. reflexivity.
Qed.

Lemma parse_update_trigger_unknown entries trigger :
  assoc "update_trigger" entries = Some (Scalar trigger) ->
  trigger <> "periodic" -> trigger <> "both" ->
  parse_update_trigger C (Some (Map entries)) = ([], Ok ON_DEPENDENCY).
Proof.
  intros Ht Hp Hb. unfold parse_update_trigger. rewrite subscript_map. unfold pret.
  rewrite parser_bind_ok, Ht. cbn [IsDefined as_string fst snd]. unfold pret.
  rewrite parser_bind_ok.
  apply String.eqb_neq in Hp, Hb. by rewrite Hp, Hb.
Qed.

Lemma parse_mapping_node_unsigned entries :
  assoc "signal" entries = None ->
  parse_mapping_node C (Some (Map entries)) = ([], Ok None).
Proof.
  intros Hs. unfold parse_mapping_node. rewrite subscript_map. unfold pret.
  by rewrite parser_bind_ok, Hs.
Qed.

(** What an entry that parses carries: the datatype and the trigger that
    the parsers of these two fields gave for it. *)
Lemma parse_mapping_node_fields mapping_node lines signal_name mapping :
  parse_mapping_node C mapping_node = (lines, Ok (Some (signal_name, mapping))) ->
  exists lines_dt lines_trigger,
    parse_datatype C mapping_node signal_name = (lines_dt, Ok (datatype mapping)) /\
    parse_update_trigger C mapping_node = (lines_trigger, Ok (update_trigger mapping)) /\
    (forall line, line ∈ lines_dt -> line ∈ lines).
Proof.
  unfold parse_mapping_node. intros Hp.
  apply parser_bind_inv in Hp as (l0 & signal_node & l0' & _ & Hp & ->).
  destruct (negb (IsDefined signal_node)); [done|].
  apply parser_bind_inv in Hp as (l1 & name & l1' & _ & Hp & ->).
  apply parser_bind_inv in Hp as (l2 & src & l2' & _ & Hp & ->).
  apply parser_bind_inv in Hp as (l3 & dt & l3' & Hdt & Hp & ->).
  apply parser_bind_inv in Hp as (l4 & interval & l4' & _ & Hp & ->).
  apply parser_bind_inv in Hp as (l5 & [is_st st_type] & l5' & _ & Hp & ->).
  apply parser_bind_inv in Hp as (l6 & deps & l6' & _ & Hp & ->).
  apply parser_bind_inv in Hp as (l7 & tr & l7' & _ & Hp & ->).
  apply parser_bind_inv in Hp as (l8 & trig & l8' & Htrig & Hp & ->).
  injection Hp as <- <- <-. cbn.
  exists l3, l8. split; [done|]. split; [done|].
  intros line Hin. rewrite !elem_of_app. auto 10.
Qed.

(** A source without [type], or without [name]: [as<std::string>()] is
    called on an invalid node. *)
Lemma parse_source_incomplete entries source_entries :
  assoc "source" entries = Some (Map source_entries) ->
  assoc "type" source_entries = None \/
  (exists ty, assoc "type" source_entries = Some (Scalar ty)) /\
  assoc "name" source_entries = None ->
  parse_source C (Some (Map entries)) = ([], Throw InvalidNode).
Proof.
  intros Hs Hmissing. unfold parse_source. rewrite subscript_map. unfold pret.
  rewrite parser_bind_ok, Hs. cbn [IsDefined fst snd]. rewrite !subscript_map. unfold pret.
  rewrite !parser_bind_ok. cbn [fst snd].
  destruct Hmissing as [->|[[ty ->] ->]]; reflexivity.
Qed.

(** An exception in one entry is an exception of the whole list. *)
Lemma parse_mappings_throws nodes : forall (table : gmap string SignalMapping) node,
  node ∈ nodes ->
  (exists e, (parse_mapping_node C node).2 = Throw e) ->
  exists e, (parse_mappings C nodes table).2 = Throw e.
Proof.
  induction nodes as [|node0 nodes IH]; intros table node Hin Hthrow.
  - by apply elem_of_nil in Hin.
  - cbn [parse_mappings].
    destruct (parse_mapping_node C node0) as [lines [[[name mapping]|]|e]] eqn:Hnode0.
    + apply elem_of_cons in Hin as [->|Hin].
      { rewrite Hnode0 in Hthrow. by destruct Hthrow. }
      rewrite parser_bind_ok. cbn. eauto.
    + apply elem_of_cons in Hin as [->|Hin].
      { rewrite Hnode0 in Hthrow. by destruct Hthrow. }
      rewrite parser_bind_ok. cbn. eauto.
    + by exists e.
Qed.

(** An exception of the parser is the end of the process. *)
Lemma main_terminates fuel argv (s : Sys C) e :
  length argv = 5%nat ->
  (load_mappings C (nth 2 argv "")).2 = Throw e ->
  (main C fuel argv s).1.1 = Terminate e.
Proof.
  intros Hlen Hthrow. rewrite main_run. unfold initialize.
  destruct (Z.of_nat (length argv) =? 5) eqn:Heq; [|lia]. cbn [negb].
  rewrite bind_run. unfold lift_parser at 1. by rewrite Hthrow.
Qed.

(** A mapping file with an entry that throws is the end of the process. *)
Lemma throwing_entry_terminates entries root nodes fuel argv (s : Sys C) :
  (exists e, (parse_mapping_node C (Some (Map entries))).2 = Throw e) ->
  length argv = 5%nat ->
  LoadFile C (nth 2 argv "") = Ok (Map root) ->
  assoc "mappings" root = Some (Sequence nodes) ->
  Map entries ∈ nodes ->
  exists e, (main C fuel argv s).1.1 = Terminate e.
Proof.
  intros Hthrow Hlen Hfile Hmappings Hin.
  assert (exists e, (load_mappings C (nth 2 argv "")).2 = Throw e) as [e He].
  { unfold load_mappings. rewrite Hfile, parser_bind_ok. cbn [fst snd].
    rewrite subscript_map. unfold pret. rewrite parser_bind_ok, Hmappings.
    cbn [IsDefined negb iterate fst snd].
    destruct (parse_mappings_throws (Some <$> nodes) ∅ (Some (Map entries)))
      as [e He]; [|done|].
    { apply list_elem_of_fmap. eauto. }
    exists e. destruct (parse_mappings C _ ∅) as [l r]. cbn in He. subst r.
    by rewrite parser_bind_throw. }
  exists e. by apply main_terminates.
Qed.

(** A datatype or a trigger that is a scalar, or is not there, never
    throws, whatever the scalar says; nor does such a struct type. *)
Lemma parse_datatype_total entries signal_name :
  scalar_or_absent (assoc "datatype" entries) ->
  exists lines dt, parse_datatype C (Some (Map entries)) signal_name = (lines, Ok dt).
Proof.
  intros Hd. destruct (assoc "datatype" entries) as [[|datatype_str| |]|] eqn:Ha; try done.
  - destruct (value_type_from_string C datatype_str) as [dt|] eqn:Hv.
    + exists [], dt. unfold parse_datatype. rewrite subscript_map. unfold pret.
      rewrite parser_bind_ok, Ha. cbn [IsDefined as_string fst snd]. unfold pret.
      rewrite parser_bind_ok, Hv. reflexivity.
    + rewrite (parse_datatype_unknown _ _ _ Ha Hv). eauto.
  - rewrite (parse_datatype_absent _ _ Ha). eauto.
Qed.

Lemma parse_update_trigger_total entries :
  scalar_or_absent (assoc "update_trigger" entries) ->
  exists trig, (parse_update_trigger C (Some (Map entries))).2 = Ok trig.
Proof.
  intros Ht. unfold parse_update_trigger. rewrite subscript_map. unfold pret.
  rewrite parser_bind_ok.
  destruct (assoc "update_trigger" entries) as [[|trigger| |]|]; try done;
    cbn [IsDefined as_string fst snd]; [|eauto].
  unfold pret. rewrite parser_bind_ok.
  destruct (String.eqb trigger "periodic"); [eauto|].
  destruct (String.eqb trigger "both"); eauto.
Qed.

Lemma parse_struct_total entries dt :
  scalar_or_absent (assoc "struct_type" entries) ->
  exists is_st st_type, (parse_struct C (Some (Map entries)) dt).2 = Ok (is_st, st_type).
Proof.
  intros Hs. unfold parse_struct. destruct (ValueType_eqb dt STRUCT); [|eauto].
  rewrite subscript_map. unfold pret. rewrite parser_bind_ok.
  destruct (assoc "struct_type" entries) as [[|ty| |]|]; try done;
    cbn [IsDefined as_string fst snd]; eauto.
Qed.

(** The datatype and the trigger of an entry do not decide whether it is
    stored: an entry that is stored without the two fields is stored with
    them, whatever strings they hold. *)
Lemma faulty_fields_are_stored entries lines0 signal_name base :
  parse_mapping_node C (Some (Map (without "datatype" (without "update_trigger" entries))))
  = (lines0, Ok (Some (signal_name, base))) ->
  scalar_or_absent (assoc "datatype" entries) ->
  scalar_or_absent (assoc "update_trigger" entries) ->
  scalar_or_absent (assoc "struct_type" entries) ->
  exists lines mapping,
    parse_mapping_node C (Some (Map entries)) = (lines, Ok (Some (signal_name, mapping))) /\
    source mapping = source base /\
    interval_ms mapping = interval_ms base /\
    depends_on mapping = depends_on base /\
    transform mapping = transform base.
Proof.
  intros Hbase Hd Ht Hs.
  destruct (parse_mapping_node_signal _ _ _ _ Hbase) as (signal_node & Hsig & Hname).
  apply parse_mapping_node_inv in Hbase as (_ & Hsrc & _ & Hint & _ & Hdeps & Htr & _).
  assert (forall key, key <> "datatype" -> key <> "update_trigger" ->
            assoc key (without "datatype" (without "update_trigger" entries))
            = assoc key entries) as Hkey.
  { intros key H1 H2. by rewrite !assoc_without_ne. }
  rewrite Hkey in Hsig by done.
  rewrite (parse_source_field _ entries) in Hsrc by (by apply Hkey).
  rewrite (parse_interval_ms_field _ entries) in Hint by (by apply Hkey).
  rewrite (parse_depends_on_field _ entries) in Hdeps by (by apply Hkey).
  rewrite (parse_transform_field _ entries) in Htr by (by apply Hkey).
  destruct (parse_datatype_total entries signal_name Hd) as (lines & dt & Hdt).
  destruct (parse_struct_total entries dt Hs) as (is_st & st_type & Hst).
  destruct (parse_update_trigger_total entries Ht) as (trig & Htrig).
  do 2 eexists. split.
  - exact (parse_mapping_node_fields_in _ _ _ _ _ _ _ _ _ _ _ _
             Hsig Hname Hsrc Hdt Hint Hst Hdeps Htr Htrig).
  - done.
Qed.

(** A file whose entries all parse is not the end of the process: the
    table goes to the processor. *)
Lemma parsed_file_reaches_the_processor root nodes fuel argv (s : Sys C) :
  length argv = 5%nat ->
  LoadFile C (nth 2 argv "") = Ok (Map root) ->
  assoc "mappings" root = Some (Sequence nodes) ->
  Forall (fun node => exists lines entry,
            parse_mapping_node C (Some node) = (lines, Ok entry)) nodes ->
  exists lines table',
    parse_mappings C (Some <$> nodes) ∅ = (lines, Ok table') /\
    (forall e, (main C fuel argv s).1.1 <> Terminate e) /\
    exists rest,
      actions (main C fuel argv s).2
      = log_events lines
        ++ ProcessorInitialize (processor_initialize C table' (world s)).1 :: rest.
Proof.
  intros Hlen Hfile Hmappings Hall.
  destruct (parse_mappings_total (C:=C) (Some <$> nodes) ∅) as (lines & table' & Hparse).
  { by apply Forall_fmap. }
  exists lines, table'. split; [exact Hparse|].
  assert (load_mappings C (nth 2 argv "") = (lines, Ok (Some table'))) as Hload.
  { unfold load_mappings. rewrite Hfile, parser_bind_ok. cbn [fst snd].
    rewrite subscript_map. unfold pret. rewrite parser_bind_ok, Hmappings.
    cbn [IsDefined negb iterate fst snd]. rewrite Hparse, parser_bind_ok. cbn.
    by rewrite app_nil_r. }
  destruct (main C fuel argv s) as [[outcome s'] trace] eqn:Hmain. cbn [fst snd].
  pose proof (main_asks _ _ _ _ _ _ _ _ Hlen Hload Hmain) as Hasks.
  pose proof (failed_startup_processor
                (startup_answers C (nth 1 argv "") (nth 3 argv "") (nth 4 argv "") table'
                   (world s))) as Hfirst.
  destruct (failed_startup _) as [calls|].
  - destruct Hasks as [-> ->]. destruct Hfirst as [rest ->]. split; [done|].
    by exists rest.
  - destruct Hasks as [Hended [rest ->]]. split.
    + intros e ->. by destruct Hended.
    + cbn in Hfirst. rewrite Hfirst. eauto.
Qed.

Lemma tolerated_parses node :
  tolerated C node ->
  exists lines entry, parse_mapping_node C (Some node) = (lines, Ok entry).
Proof.
  intros (fields & -> & [Hnone|((lines0 & name & base & Hbase) & Hd & Ht & Hs)]).
  - rewrite parse_mapping_node_unsigned by done. eauto.
  - destruct (faulty_fields_are_stored _ _ _ _ Hbase Hd Ht Hs)
      as (lines & mapping & -> & _).
    eauto.
Qed.

End Configuration.

(** C3, as the code has it.  An unknown datatype string and an absent
    datatype are warnings: the mapping goes on with datatype UNSPECIFIED.  An
    unknown update_trigger string goes on as ON_DEPENDENCY.  An entry without
    a signal field is skipped.  None of them throws: an entry that is stored
    without its datatype and update_trigger is stored with them, whatever
    strings they hold (its struct_type, which a datatype that names a struct
    makes the parser read, being a scalar or absent); and a mapping file
    whose entries all parse, so one whose entries have no other fault than
    these ([tolerated]), does not end the process: its table, with these
    mappings in it, is what the processor is given.  What ends the process is a missing field inside
    [source] (no [type], or no [name]): the exception is not caught. *)
Theorem configuration_errors_mostly_tolerated (C : Collaborators) entries :
  (forall signal_name datatype_str,
      assoc "datatype" entries = Some (Scalar datatype_str) ->
      value_type_from_string C datatype_str = None ->
      parse_datatype C (Some (Map entries)) signal_name
      = ([(WARNING,
           "Unknown datatype '" +:+ datatype_str +:+ "' for signal " +:+ signal_name)],
         Ok UNSPECIFIED)) /\
  (forall signal_name,
      assoc "datatype" entries = None ->
      parse_datatype C (Some (Map entries)) signal_name
      = ([(WARNING,
           "No datatype specified for signal " +:+ signal_name +:+ ", using UNSPECIFIED")],
         Ok UNSPECIFIED)) /\
  (forall trigger,
      assoc "update_trigger" entries = Some (Scalar trigger) ->
      trigger <> "periodic" -> trigger <> "both" ->
      parse_update_trigger C (Some (Map entries)) = ([], Ok ON_DEPENDENCY)) /\
  (assoc "signal" entries = None ->
   forall rest table,
     parse_mappings C (Some (Map entries) :: rest) table = parse_mappings C rest table) /\
  (forall lines signal_name mapping before rest table lines' table',
      parse_mapping_node C (Some (Map entries)) = (lines, Ok (Some (signal_name, mapping))) ->
      Forall (fun node => forall lines mapping,
                parse_mapping_node C node <> (lines, Ok (Some (signal_name, mapping)))) rest ->
      parse_mappings C (before ++ Some (Map entries) :: rest) table = (lines', Ok table') ->
      table' !! signal_name = Some mapping /\
      (forall datatype_str,
          assoc "datatype" entries = Some (Scalar datatype_str) ->
          value_type_from_string C datatype_str = None ->
          datatype mapping = UNSPECIFIED) /\
      (assoc "datatype" entries = None -> datatype mapping = UNSPECIFIED) /\
      (forall trigger,
          assoc "update_trigger" entries = Some (Scalar trigger) ->
          trigger <> "periodic" -> trigger <> "both" ->
          update_trigger mapping = ON_DEPENDENCY)) /\
  (forall lines0 signal_name base,
      parse_mapping_node C (Some (Map (without "datatype" (without "update_trigger" entries))))
      = (lines0, Ok (Some (signal_name, base))) ->
      scalar_or_absent (assoc "datatype" entries) ->
      scalar_or_absent (assoc "update_trigger" entries) ->
      scalar_or_absent (assoc "struct_type" entries) ->
      exists lines mapping,
        parse_mapping_node C (Some (Map entries))
        = (lines, Ok (Some (signal_name, mapping))) /\
        source mapping = source base /\
        interval_ms mapping = interval_ms base /\
        depends_on mapping = depends_on base /\
        transform mapping = transform base) /\
  (forall root nodes fuel argv (s : Sys C),
      length argv = 5%nat ->
      LoadFile C (nth 2 argv "") = Ok (Map root) ->
      assoc "mappings" root = Some (Sequence nodes) ->
      Forall (fun node => exists lines entry,
                parse_mapping_node C (Some node) = (lines, Ok entry)) nodes ->
      exists lines table',
        parse_mappings C (Some <$> nodes) ∅ = (lines, Ok table') /\
        (forall e, (main C fuel argv s).1.1 <> Terminate e) /\
        exists rest,
          actions (main C fuel argv s).2
          = log_events lines
            ++ ProcessorInitialize (processor_initialize C table' (world s)).1 :: rest) /\
  (forall root nodes fuel argv (s : Sys C),
      length argv = 5%nat ->
      LoadFile C (nth 2 argv "") = Ok (Map root) ->
      assoc "mappings" root = Some (Sequence nodes) ->
      Forall (tolerated C) nodes ->
      exists lines table',
        parse_mappings C (Some <$> nodes) ∅ = (lines, Ok table') /\
        (forall e, (main C fuel argv s).1.1 <> Terminate e) /\
        exists rest,
          actions (main C fuel argv s).2
          = log_events lines
            ++ ProcessorInitialize (processor_initialize C table' (world s)).1 :: rest) /\
  (forall signal_name source_entries root nodes fuel argv (s : Sys C),
      assoc "signal" entries = Some (Scalar signal_name) ->
      assoc "source" entries = Some (Map source_entries) ->
      assoc "type" source_entries = None \/
      (exists ty, assoc "type" source_entries = Some (Scalar ty)) /\
      assoc "name" source_entries = None ->
      length argv = 5%nat ->
      LoadFile C (nth 2 argv "") = Ok (Map root) ->
      assoc "mappings" root = Some (Sequence nodes) ->
      Map entries ∈ nodes ->
      exists e, (main C fuel argv s).1.1 = Terminate e).
Proof.
  split_and!.
  - intros. by apply parse_datatype_unknown.
  - intros. by apply parse_datatype_absent.
  - intros. by eapply parse_update_trigger_unknown.
  - intros Hs rest table. cbn [parse_mappings].
    rewrite parse_mapping_node_unsigned by done. unfold pret. rewrite parser_bind_ok.
    by destruct (parse_mappings C rest table).
  - intros lines signal_name mapping before rest table lines' table' Hnode Hrest Hparse.
    split; [by eapply parse_mappings_last|].
    destruct (parse_mapping_node_fields _ _ _ _ Hnode) as (ldt & ltr & Hdt & Htrig & _).
    split_and!.
    + intros datatype_str Hd Hv.
      rewrite (parse_datatype_unknown _ _ _ Hd Hv) in Hdt. by injection Hdt as _ <-.
    + intros Hd. rewrite (parse_datatype_absent _ _ Hd) in Hdt. by injection Hdt as _ <-.
    + intros trigger Ht Hp Hb.
      rewrite (parse_update_trigger_unknown _ _ Ht Hp Hb) in Htrig. by injection Htrig as <-.
  - intros. by eapply faulty_fields_are_stored.
  - intros root nodes fuel argv s Hlen Hfile Hmappings Hall.
    exact (parsed_file_reaches_the_processor root nodes fuel argv s Hlen Hfile Hmappings Hall).
  - intros root nodes fuel argv s Hlen Hfile Hmappings Hall.
    apply (parsed_file_reaches_the_processor root nodes fuel argv s Hlen Hfile Hmappings).
    eapply Forall_impl; [exact Hall|]. apply tolerated_parses.
  - intros signal_name source_entries root nodes fuel argv s Hsig Hsrc Hmissing Hlen Hfile
           Hmappings Hin.
    assert (exists e, (parse_mapping_node C (Some (Map entries))).2 = Throw e) as Hthrow.
    { exists InvalidNode. unfold parse_mapping_node. rewrite subscript_map. unfold pret.
      rewrite parser_bind_ok, Hsig. cbn [IsDefined negb as_string fst snd]. unfold pret.
      rewrite parser_bind_ok. cbn [fst snd].
      by rewrite (parse_source_incomplete _ _ Hsrc Hmissing). }
    assert (exists e, (load_mappings C (nth 2 argv "")).2 = Throw e) as [e He].
    { unfold load_mappings. rewrite Hfile, parser_bind_ok. cbn [fst snd].
      rewrite subscript_map. unfold pret. rewrite parser_bind_ok, Hmappings.
      cbn [IsDefined negb iterate fst snd].
      destruct (parse_mappings_throws (C:=C) (Some <$> nodes) ∅ (Some (Map entries)))
        as [e He]; [|done|].
      { apply list_elem_of_fmap. eauto. }
      exists e. destruct (parse_mappings C _ ∅) as [l r]. cbn in He. subst r.
      by rewrite parser_bind_throw. }
    exists e. by apply main_terminates.
Qed.

Lemma configuration_errors_mostly_tolerated_witness :
  let C := scripted (healthy sloppy_file) in
  let C' := installed (healthy sloppy_file) sloppy_names in
  let s := boot quiet (healthy sloppy_file) sloppy_names in
  parse_datatype C (Some (Map flaot_entry)) "Vehicle.Speed"
  = ([(WARNING, "Unknown datatype 'flaot' for signal Vehicle.Speed")], Ok UNSPECIFIED) /\
  parse_update_trigger C (Some (Map sometimes_entry)) = ([], Ok ON_DEPENDENCY) /\
  parse_mappings C [Some (Map unsigned_entry)] ∅ = ([], Ok ∅) /\
  (exists lines mapping,
      parse_mapping_node C (Some (Map sometimes_entry))
      = (lines, Ok (Some ("Vehicle.Chassis.YawRate", mapping)))) /\
  (forall e, (main C' 3 argv4 s).1.1 <> Terminate e) /\
  (exists rest,
      actions (main C' 3 argv4 s).2
      = [Log WARNING "Unknown datatype 'flaot' for signal Vehicle.Speed";
         Log WARNING
           "No datatype specified for signal Vehicle.Acceleration.Longitudinal, using UNSPECIFIED";
         ProcessorInitialize true]
        ++ rest) /\
  exists e,
    (main (scripted (healthy sourceless_file)) 3 argv4
          (start quiet (healthy sourceless_file))).1.1 = Terminate e.
Proof.
  intros C C' s.
  destruct (configuration_errors_mostly_tolerated C' [])
    as (_ & _ & _ & _ & _ & _ & _ & Hrun & _).
  destruct (Hrun [("mappings",
                   Sequence [Map flaot_entry; Map sometimes_entry; Map untyped_entry;
                             Map unsigned_entry])]
                 [Map flaot_entry; Map sometimes_entry; Map untyped_entry; Map unsigned_entry]
                 3%nat argv4 s eq_refl eq_refl eq_refl)
    as (lines & table' & Hparse & Halive & rest & Hact).
  { repeat constructor; eexists; (split; [reflexivity|]).
    - right. split_and!; [|exact I..]. do 3 eexists. vm_compute. reflexivity.
    - right. split_and!; [|exact I..]. do 3 eexists. vm_compute. reflexivity.
    - right. split_and!; [|exact I..]. do 3 eexists. vm_compute. reflexivity.
    - by left. }
  assert (parse_mappings C'
            (Some <$> [Map flaot_entry; Map sometimes_entry; Map untyped_entry;
                       Map unsigned_entry]) ∅
          = ([(WARNING, "Unknown datatype 'flaot' for signal Vehicle.Speed");
              (WARNING,
               "No datatype specified for signal Vehicle.Acceleration.Longitudinal, using UNSPECIFIED")],
             Ok (parsed_mappings C' "mappings.yaml"))) as Hconcrete
    by (vm_compute; reflexivity).
  rewrite Hconcrete in Hparse. injection Hparse as <- <-.
  split_and!.
  - apply (proj1 (configuration_errors_mostly_tolerated C flaot_entry)
             "Vehicle.Speed" "flaot"); reflexivity.
  - apply (proj1 (proj2 (proj2 (configuration_errors_mostly_tolerated C sometimes_entry)))
             "sometimes"); [reflexivity|discriminate..].
  - apply (proj1 (proj2 (proj2 (proj2
             (configuration_errors_mostly_tolerated C unsigned_entry)))) eq_refl [] ∅).
  - destruct (configuration_errors_mostly_tolerated C sometimes_entry)
      as (_ & _ & _ & _ & _ & Hstored & _).
    destruct (Hstored
                [(WARNING,
                  "No datatype specified for signal Vehicle.Chassis.YawRate, using UNSPECIFIED")]
                "Vehicle.Chassis.YawRate" empty_mapping)
      as (lines & mapping & Hentry & _); [vm_compute; reflexivity|exact I..|].
    by exists lines, mapping.
  - exact Halive.
  - exists rest. rewrite Hact. vm_compute. reflexivity.
  - apply (proj2 (proj2 (proj2 (proj2 (proj2 (proj2 (proj2 (proj2
             (configuration_errors_mostly_tolerated (scripted (healthy sourceless_file))
                sourceless_entry))))))))
             "Vehicle.Speed" [("name", Scalar "DI_vehicleSpeed")]
             [("mappings", Sequence [speed_entry; Map sourceless_entry])]
             [speed_entry; Map sourceless_entry]);
      try reflexivity.
    + by left.
    + apply list_elem_of_further, list_elem_of_here.
Defined.

(** C3, as stated, fails: a mapping file with a misspelt datatype, an
    unknown trigger, an entry without datatype and an entry without signal
    gives two warnings and a table of three mappings, and startup goes all the
    way to the loop. *)
Lemma sloppy_file_reaches_the_loop :
  let C := scripted (healthy sloppy_file) in
  (load_mappings C "mappings.yaml").1
  = [(WARNING, "Unknown datatype 'flaot' for signal Vehicle.Speed");
     (WARNING, "No datatype specified for signal Vehicle.Acceleration.Longitudinal, using UNSPECIFIED")] /\
  datatype <$> parsed_mappings C "mappings.yaml" !! "Vehicle.Speed" = Some UNSPECIFIED /\
  update_trigger <$> parsed_mappings C "mappings.yaml" !! "Vehicle.Chassis.YawRate"
  = Some ON_DEPENDENCY /\
  size (parsed_mappings C "mappings.yaml") = 3%nat /\
  (initialize C argv4 (start quiet (healthy sloppy_file))).1.1
  = inr {[ "Vehicle.Speed" := Handle 1 ]}.
Proof. intros C. split_and!; vm_compute; reflexivity. Qed.

(** C4. A write the client reports as failed is logged as an error and
    [publish_to_kuksa] gives [false]; nothing else happens.  The publishing
    pass hands every emission that has a handle and a valid value to the
    client, whatever the client answered before; and the loop, whatever the
    client answers, ends in one way only: the flag found down, after as many
    turns as the flag was found up (or, in this model, its budget used up with
    every turn run). *)
Theorem publish_failure_is_logged_and_survived (C : Collaborators) :
  (forall handle vss (s : Sys C) text,
      is_valid (qualified_value vss) = true ->
      (client_set C handle (qualified_value vss) (world s)).1 = ErrorStatus text ->
      (publish_to_kuksa C handle vss s).1.1 = false /\
      actions (publish_to_kuksa C handle vss s).2
      = [SetValue handle (qualified_value vss) (ErrorStatus text);
         Log ERROR ("Failed to publish " +:+ path vss +:+ ": " +:+ text)]) /\
  (forall signal_handles vss_signals (s : Sys C),
      set_attempts (publish_signals C signal_handles vss_signals s).2
      = publishable signal_handles vss_signals) /\
  (forall fuel signal_handles last_check (s : Sys C) outcome s' trace,
      driver_loop C fuel signal_handles last_check s = (outcome, s', trace) ->
      (outcome = OutOfFuel /\ length (polled trace) = fuel) \/
      (outcome = Exit 0 /\ g_running s' = false)) /\
  (forall n fuel signal_handles last_check (s : Sys C),
      (forall k, (k < n)%nat ->
                 g_running (after_turns k signal_handles (last_check, s)).2 = true) ->
      g_running (after_turns n signal_handles (last_check, s)).2 = false ->
      (n < fuel)%nat ->
      (driver_loop C fuel signal_handles last_check s).1.1 = Exit 0 /\
      length (polled (driver_loop C fuel signal_handles last_check s).2) = n).
Proof.
  split_and!.
  - intros handle vss s text Hv Hset.
    destruct (publish_to_kuksa_run handle vss s) as [Hvalue Hact]. cbn zeta in *.
    rewrite Hv, Hset in *. done.
  - intros signal_handles vss_signals s.
    rewrite <- set_attempts_actions. eapply publish_trace_writes, publish_signals_trace.
  - intros fuel signal_handles last_check s outcome s' trace Hrun.
    destruct (driver_loop_outcome _ _ _ _ _ _ _ Hrun) as [(? & ? & _)|(? & ? & _)]; auto.
  - intros n fuel signal_handles last_check s Hup Hdown Hfuel.
    destruct (driver_loop_stops n fuel signal_handles last_check s Hup Hdown Hfuel)
      as (s' & trace & -> & _ & Hn & _). done.
Qed.

Lemma publish_failure_is_logged_and_survived_witness :
  let C := scripted (healthy speed_file) in
  let s := start one_failing_write (healthy speed_file) in
  (publish_to_kuksa C (Handle 1) (speed true) s).1.1 = false /\
  actions (publish_to_kuksa C (Handle 1) (speed true) s).2
  = [SetValue (Handle 1) (qualified_value (speed true)) (ErrorStatus "UNAVAILABLE");
     Log ERROR "Failed to publish Vehicle.Speed: UNAVAILABLE"] /\
  set_attempts (main C 3 argv4 s).2
  = [(Handle 1, qualified_value (speed true)); (Handle 1, qualified_value (speed true))] /\
  (main C 3 argv4 s).1.1 = Exit 0.
Proof.
  intros C s.
  destruct (proj1 (publish_failure_is_logged_and_survived C) (Handle 1) (speed true) s
              "UNAVAILABLE" eq_refl eq_refl) as [Hfalse Hlogged].
  split; [exact Hfalse|]. split; [exact Hlogged|].
  split; vm_compute; reflexivity.
Defined.

(** ** Resolution *)

Section Resolution.
Context {C : Collaborators}.
Implicit Types (s : Sys C) (signal_handles : gmap string DynamicSignalHandle).

Lemma resolved_names_elem name r trace :
  Resolve name r ∈ trace -> name ∈ resolved_names trace.
Proof.
  induction trace as [|e trace IH]; intros Hin; [by apply elem_of_nil in Hin|].
  apply elem_of_cons in Hin as [<-|Hin].
  - apply list_elem_of_here.
  - specialize (IH Hin). unfold resolved_names in *.
    destruct e; cbn; try done. by apply list_elem_of_further.
Qed.

(** Names that are not asked for keep their row. *)
Lemma resolve_trace_frame names signal_handles signal_handles' trace name :
  resolve_trace names signal_handles signal_handles' trace ->
  name ∉ names -> signal_handles' !! name = signal_handles !! name.
Proof.
  induction 1 as [|name0 h rest t t' tr _ IH|name0 text rest t t' tr _ IH]; intros Hnot.
  - done.
  - apply not_elem_of_cons in Hnot as [Hne Hnot].
    rewrite (IH Hnot). by apply lookup_insert_ne.
  - apply not_elem_of_cons in Hnot as [Hne Hnot]. by apply IH.
Qed.

(** A name whose resolution failed has no handle. *)
Lemma resolve_trace_missing names signal_handles signal_handles' trace name text :
  resolve_trace names signal_handles signal_handles' trace ->
  NoDup names -> signal_handles !! name = None ->
  Resolve name (NotOk text) ∈ trace ->
  signal_handles' !! name = None.
Proof.
  induction 1 as [|name0 h rest t t' tr Hrest IH|name0 text0 rest t t' tr Hrest IH];
    intros Hnodup Hnone Hin.
  - by apply elem_of_nil in Hin.
  - apply NoDup_cons in Hnodup as [Hfresh Hnodup].
    apply elem_of_cons in Hin as [[=]|Hin].
    apply IH; [done| |done].
    rewrite lookup_insert_ne; [done|]. intros ->.
    apply resolved_names_elem in Hin. by rewrite (resolve_trace_names _ _ _ _ Hrest) in Hin.
  - apply NoDup_cons in Hnodup as [Hfresh Hnodup].
    apply elem_of_cons in Hin as [[= -> _]|Hin].
    + by rewrite (resolve_trace_frame _ _ _ _ _ Hrest Hfresh).
    + apply elem_of_cons in Hin as [[=]|Hin]. by apply IH.
Qed.

(** Every handle of the table was given by a resolution. *)
Lemma resolve_trace_found names signal_handles signal_handles' trace name handle :
  resolve_trace names signal_handles signal_handles' trace ->
  signal_handles' !! name = Some handle ->
  signal_handles !! name = Some handle \/ Resolve name (OkValue handle) ∈ trace.
Proof.
  induction 1 as [|name0 h rest t t' tr _ IH|name0 text rest t t' tr _ IH]; intros Hh.
  - by left.
  - destruct (IH Hh) as [Hin|Hin].
    + destruct (decide (name0 = name)) as [->|Hne].
      * rewrite lookup_insert_eq in Hin. injection Hin as ->. right. apply list_elem_of_here.
      * rewrite lookup_insert_ne in Hin by done. by left.
    + right. by apply list_elem_of_further.
  - destruct (IH Hh) as [Hin|Hin]; [by left|].
    right. by do 2 apply list_elem_of_further.
Qed.

End Resolution.

(** C5. The resolutions of a run are those of startup, the loop makes none.
    When startup gets to the loop, each name of the mapping table was asked
    for once, and no other name, in the order in which the library walks the
    table (some arrangement of its keys, whichever); the table of handles
    holds what these resolutions gave, and a name whose resolution failed has
    no handle.  An
    emission whose path has no handle is skipped with a log line, and every
    write of the loop goes through a handle of the table. *)
Theorem resolution_happens_once_at_startup (C : Collaborators) fuel argv (s : Sys C) :
  let startup := initialize C argv s in
  let table := parsed_mappings C (nth 2 argv "") in
  resolved_names (main C fuel argv s).2 = resolved_names startup.2 /\
  (forall outcome, startup.1.1 = inl outcome -> resolved_names startup.2 = []) /\
  (forall signal_handles,
      startup.1.1 = inr signal_handles ->
      resolved_names startup.2 = iteration_order C table /\
      resolved_names startup.2 ≡ₚ (map_to_list table).*1 /\
      NoDup (resolved_names startup.2) /\
      (forall name, name ∈ resolved_names startup.2 <-> is_Some (table !! name)) /\
      (forall name handle,
          signal_handles !! name = Some handle ->
          Resolve name (OkValue handle) ∈ startup.2) /\
      (forall name text,
          Resolve name (NotOk text) ∈ startup.2 -> signal_handles !! name = None)) /\
  (forall signal_handles vss rest (s' : Sys C),
      signal_handles !! path vss = None ->
      publish_signals C signal_handles (vss :: rest) s'
      = let '(u, s'', trace) := publish_signals C signal_handles rest s' in
        (u, s'',
         Log (VERBOSE 1) ("Skipping signal " +:+ path vss +:+ " (not in KUKSA VSS tree)")
         :: trace)) /\
  (forall fuel' signal_handles last_check (s' : Sys C),
      let trace := (driver_loop C fuel' signal_handles last_check s').2 in
      resolved_names trace = [] /\
      forall handle qv status,
        SetValue handle qv status ∈ trace ->
        exists name, signal_handles !! name = Some handle).
Proof.
  intros startup table.
  assert (forall fuel' signal_handles last_check (s' : Sys C),
             Forall (loop_event signal_handles)
                    (driver_loop C fuel' signal_handles last_check s').2) as Hloop
    by (intros; apply always_driver_loop).
  split_and!.
  - rewrite main_run. subst startup.
    destruct (initialize C argv s) as [[[outcome|signal_handles] s1] e1]; [done|].
    destruct (now_events (C:=C) LastPeriodicCheck s1) as [sigs Hnow].
    destruct (now C LastPeriodicCheck s1) as [[t s2] e2]. cbn in Hnow. subst e2.
    specialize (Hloop fuel signal_handles t s2).
    destruct (driver_loop C fuel signal_handles t s2) as [[o s3] e3]. cbn in *.
    rewrite resolved_names_app. change (?x :: ?l ++ e3) with ((x :: l) ++ e3).
    rewrite resolved_names_app, (resolved_names_loop _ _ Hloop).
    change (Clock LastPeriodicCheck t :: ?l) with ([Clock LastPeriodicCheck t] ++ l).
    rewrite resolved_names_app, resolved_names_shutdown. cbn. by rewrite !app_nil_r.
  - intros outcome Hout. subst startup.
    destruct (initialize C argv s) as [[started s1] e1] eqn:Hinit.
    cbn [fst snd] in *. subst started.
    pose proof (initialize_shape _ _ _ _ _ Hinit) as Hshape.
    rewrite <- resolved_names_actions.
    inversion Hshape; subst; rewrite ?resolved_names_app, ?resolved_names_log_events; done.
  - intros signal_handles Hready. subst startup.
    destruct (initialize C argv s) as [[started s1] e1] eqn:Hinit.
    cbn [fst snd] in *. subst started.
    pose proof (initialize_shape _ _ _ _ _ Hinit) as Hshape.
    inversion Hshape as [| | | | | | |lines m h tr Hlen Hload Hres Heq1 Heq2]; subst.
    assert (table = m) as -> by (subst table; unfold parsed_mappings; by rewrite Hload).
    assert (resolved_names e1 = iteration_order C m) as Hnames.
    { rewrite <- resolved_names_actions, <- Heq2.
      rewrite !resolved_names_app, resolved_names_log_events. cbn.
      by eapply resolve_trace_names. }
    pose proof (iteration_order_keys C m) as Hperm.
    assert (NoDup (iteration_order C m)) as Hnodup
      by (rewrite Hperm; apply NoDup_fst_map_to_list).
    assert (forall e, e ∈ tr -> e ∈ e1) as Hsub.
    { intros e He. apply actions_in. rewrite <- Heq2, elem_of_app. right.
      by repeat apply list_elem_of_further. }
    assert (forall name r, Resolve name r ∈ e1 -> Resolve name r ∈ tr) as Hsup.
    { intros name r He. apply in_actions in He; [|done]. rewrite <- Heq2 in He.
      rewrite elem_of_app in He. destruct He as [He|He].
      - apply elem_of_log_events in He as (? & ? & [=]).
      - by repeat (apply elem_of_cons in He as [[=]|He]). }
    split_and!.
    + done.
    + by rewrite Hnames.
    + by rewrite Hnames.
    + intros name. rewrite Hnames, Hperm, list_elem_of_fmap. split.
      * intros ([name' mapping] & -> & Hin). apply elem_of_map_to_list in Hin. eauto.
      * intros [mapping Hin]. exists (name, mapping). split; [done|].
        by apply elem_of_map_to_list.
    + intros name handle Hh. apply Hsub.
      by destruct (resolve_trace_found _ _ _ _ _ _ Hres Hh).
    + intros name text He. apply Hsup in He.
      eapply resolve_trace_missing; [exact Hres|exact Hnodup|done|exact He].
  - intros signal_handles vss rest s' Hnone. cbn [publish_signals].
    rewrite Hnone, bind_run. cbn.
    by destruct (publish_signals C signal_handles rest s') as [[[] s''] trace].
  - intros fuel' signal_handles last_check s' trace. subst trace.
    specialize (Hloop fuel' signal_handles last_check s').
    split; [by eapply resolved_names_loop|].
    intros handle qv status Hin. rewrite Forall_forall in Hloop.
    by destruct (Hloop _ Hin) as [[_ ?]|[=]].
Qed.

Lemma resolution_happens_once_at_startup_witness :
  let C := scripted (healthy sloppy_file) in
  let s := start stop_while_asleep (healthy sloppy_file) in
  resolved_names (main C 5 argv4 s).2
  = ["Vehicle.Acceleration.Longitudinal"; "Vehicle.Chassis.YawRate"; "Vehicle.Speed"] /\
  resolved_names (initialize C argv4 s).2
  ≡ₚ (map_to_list (parsed_mappings C "mappings.yaml")).*1 /\
  NoDup (resolved_names (initialize C argv4 s).2) /\
  Resolve "Vehicle.Speed" (OkValue (Handle 1)) ∈ (initialize C argv4 s).2 /\
  speed_handles !! "Vehicle.Chassis.YawRate" = None.
Proof.
  intros C s.
  destruct (resolution_happens_once_at_startup C 5 argv4 s) as (Hsame & _ & Hready & _).
  destruct (Hready speed_handles) as (Hnames & Hperm & Hnodup & _ & Hfound & Hmissing).
  { vm_compute. reflexivity. }
  split_and!.
  - rewrite Hsame, Hnames. vm_compute. reflexivity.
  - exact Hperm.
  - exact Hnodup.
  - apply Hfound. reflexivity.
  - apply (Hmissing _ "NOT_FOUND"). vm_compute.
    repeat first [apply list_elem_of_here | apply list_elem_of_further].
Defined.

(** ** Turns *)

Section Turns.
Context {C : Collaborators}.
Implicit Types (s : Sys C) (signal_handles : gmap string DynamicSignalHandle).

Lemma processed_app trace1 trace2 :
  processed (trace1 ++ trace2) = processed trace1 ++ processed trace2.
Proof. apply omap_app. Qed.

Lemma processed_actions trace : processed (actions trace) = processed trace.
Proof.
  induction trace as [|e trace IH]; [done|].
  destruct (is_shutdown e) eqn:He.
  - unfold actions in *. rewrite filter_cons_False by (by rewrite He).
    rewrite IH. by destruct e.
  - rewrite actions_cons_keep by done.
    unfold processed in *. destruct e; cbn; rewrite ?IH; done.
Qed.

Lemma publish_trace_processed signal_handles vss_signals trace :
  publish_trace signal_handles vss_signals trace -> processed trace = [].
Proof. induction 1; done. Qed.

Lemma tick_trace_processed signal_handles batch trace :
  tick_trace signal_handles batch trace -> processed trace = [batch].
Proof.
  destruct 1 as [vss_signals trace Hp]. unfold processed. cbn.
  f_equal. by eapply publish_trace_processed.
Qed.

(** A write of a tick publishes an emission of that tick's processor call. *)
Lemma tick_trace_write signal_handles batch trace handle qv status :
  tick_trace signal_handles batch trace ->
  SetValue handle qv status ∈ trace ->
  exists vss_signals vss,
    Process batch vss_signals ∈ trace /\ vss ∈ vss_signals /\
    signal_handles !! path vss = Some handle /\ qualified_value vss = qv.
Proof.
  destruct 1 as [vss_signals trace Hp]. intros Hin.
  apply elem_of_cons in Hin as [[=]|Hin].
  destruct (publish_trace_events _ _ _ _ Hp Hin)
    as [(? & ? & [=])|(vss & h & st & Hvss & Hh & _ & [= -> -> ->])].
  exists vss_signals, vss. split; [apply list_elem_of_here|done].
Qed.

Lemma elem_of_turn_trace e t0 updates on_updates t1 periodic t2 :
  e ∈ turn_trace t0 updates on_updates t1 periodic t2 <->
  e = Clock LoopStart t0 \/ e = Poll updates \/ e ∈ on_updates \/
  e = Clock PeriodicNow t1 \/ e ∈ periodic \/ e = Clock LoopEnd t2 \/
  e ∈ sleep_trace t0 t2.
Proof.
  unfold turn_trace. rewrite !elem_of_app, !elem_of_cons, !elem_of_nil. tauto.
Qed.

End Turns.

(** C6, as the code has it.  A turn of the loop polls first.  When the
    polled batch is not empty the processor is called on it and what it gives
    is published; when the batch is empty the processor is not called on it.
    Then, if the periodic check says so, the processor is called on an empty
    batch and what it gives is published.  Every write of the turn publishes
    an emission of one of these two calls. *)
Theorem turn_phases_in_order (C : Collaborators) signal_handles last_check (s : Sys C)
    last_check' s' trace :
  loop_body C signal_handles last_check s = (last_check', s', trace) ->
  exists t0 updates on_updates t1 periodic t2,
    actions trace = turn_trace t0 updates on_updates t1 periodic t2 /\
    (updates = [] -> on_updates = []) /\
    (updates <> [] -> tick_trace signal_handles updates on_updates) /\
    (periodic = [] \/ tick_trace signal_handles [] periodic) /\
    (forall handle qv status,
        SetValue handle qv status ∈ trace ->
        exists batch vss_signals vss,
          (batch = updates /\ updates <> [] \/ batch = []) /\
          Process batch vss_signals ∈ trace /\ vss ∈ vss_signals /\
          signal_handles !! path vss = Some handle /\ qualified_value vss = qv).
Proof.
  intros Hrun.
  destruct (loop_body_shape _ _ _ _ _ _ Hrun)
    as (t0 & updates & on_updates & t1 & periodic & t2 & Hshape & Hu & Hp).
  exists t0, updates, on_updates, t1, periodic, t2.
  assert (periodic = [] \/ tick_trace signal_handles [] periodic) as Hperiodic.
  { destruct (50 <=? _); destruct Hp; auto. }
  split_and!; try done.
  - intros ->. done.
  - intros Hne. by destruct updates.
  - intros handle qv status Hin.
    apply in_actions in Hin; [|done]. rewrite Hshape in Hin.
    apply elem_of_turn_trace in Hin as [[=]|[[=]|[Hin|[[=]|[Hin|[[=]|Hin]]]]]].
    + destruct updates as [|u updates]; [subst; by apply elem_of_nil in Hin|].
      destruct (tick_trace_write _ _ _ _ _ _ Hu Hin) as (vss_signals & vss & Hpr & Hrest).
      exists (u :: updates), vss_signals, vss. split; [by left|]. split; [|done].
      apply actions_in. rewrite Hshape. apply elem_of_turn_trace. auto.
    + destruct Hperiodic as [->|Ht]; [by apply elem_of_nil in Hin|].
      destruct (tick_trace_write _ _ _ _ _ _ Ht Hin) as (vss_signals & vss & Hpr & Hrest).
      exists [], vss_signals, vss. split; [by right|]. split; [|done].
      apply actions_in. rewrite Hshape. apply elem_of_turn_trace. auto 10.
    + unfold sleep_trace in Hin. destruct (_ <? _).
      * by apply elem_of_cons in Hin as [[=]|?%elem_of_nil].
      * by apply elem_of_nil in Hin.
Qed.

Lemma turn_phases_in_order_witness :
  let C := scripted (healthy speed_file) in
  let s := start one_busy_turn (healthy speed_file) in
  exists t0 on_updates t1 periodic t2,
    actions (loop_body C speed_handles 0 s).2
    = turn_trace t0 [speed_update] on_updates t1 periodic t2 /\
    tick_trace speed_handles [speed_update] on_updates.
Proof.
  intros C s.
  destruct (turn_phases_in_order C speed_handles 0 s
              (loop_body C speed_handles 0 s).1.1 (loop_body C speed_handles 0 s).1.2
              (loop_body C speed_handles 0 s).2)
    as (t0 & updates & on_updates & t1 & periodic & t2 & Hshape & _ & Htick & _).
  { by destruct (loop_body C speed_handles 0 s) as [[? ?] ?]. }
  assert (updates = [speed_update]) as ->.
  { assert (polled (actions (loop_body C speed_handles 0 s).2) = [[speed_update]]) as Hp
      by (vm_compute; reflexivity).
    rewrite Hshape in Hp. by injection Hp as ->. }
  exists t0, on_updates, t1, periodic, t2. split; [exact Hshape|]. by apply Htick.
Defined.

(** C6, as stated, fails: a turn in which the poll gives nothing and less
    than 50 ms have passed makes no processor call at all; it polls, reads
    the clock and sleeps. *)
Lemma quiet_turn_calls_no_processor :
  let C := scripted (healthy speed_file) in
  let trace := (loop_body C speed_handles 0 (start quiet (healthy speed_file))).2 in
  trace = [Clock LoopStart 0; Poll []; Clock PeriodicNow 0; Clock LoopEnd 0; Sleep 10000000] /\
  polled trace = [[]] /\
  processed trace = [].
Proof. intros C trace. split_and!; vm_compute; reflexivity. Qed.

(** C7, as the code has it.  In every turn the clock is read for the
    periodic check; when at least 50 ms have passed since the last periodic
    tick (or since the loop was entered) the processor is called on an empty
    batch, what it gives is published by the same publishing pass as any other,
    and the instant is kept as the new reference; otherwise there is no such
    call in the turn and the reference stays.  A turn that took less than
    10 ms ends with a sleep for what is left of the 10 ms; a turn that took
    10 ms or more ends without sleep.  With a clock that does not go back every
    sleep is more than 0 and at most 10 ms long. *)
Theorem periodic_tick_and_sleep (C : Collaborators) signal_handles last_check (s : Sys C)
    last_check' s' trace :
  loop_body C signal_handles last_check s = (last_check', s', trace) ->
  exists t0 updates on_updates t1 periodic t2,
    actions trace = turn_trace t0 updates on_updates t1 periodic t2 /\
    (50 * ticks_per_ms <= t1 - last_check ->
     tick_trace signal_handles [] periodic /\ last_check' = t1) /\
    (t1 - last_check < 50 * ticks_per_ms -> periodic = [] /\ last_check' = last_check) /\
    ([] ∈ processed trace <-> 50 * ticks_per_ms <= t1 - last_check) /\
    (t2 - t0 < processing_interval ->
     sleep_trace t0 t2 = [Sleep (processing_interval - (t2 - t0))]) /\
    (processing_interval <= t2 - t0 -> sleep_trace t0 t2 = []) /\
    (t0 <= t2 -> forall d, Sleep d ∈ trace -> 0 < d <= processing_interval).
Proof.
  intros Hrun.
  destruct (loop_body_shape _ _ _ _ _ _ Hrun)
    as (t0 & updates & on_updates & t1 & periodic & t2 & Hshape & Hu & Hp).
  exists t0, updates, on_updates, t1, periodic, t2.
  assert (processed on_updates = match updates with [] => [] | _ :: _ => [updates] end)
    as Hpu.
  { destruct updates; [by subst|]. by eapply tick_trace_processed. }
  split_and!.
  - done.
  - intros Hlate. apply elapsed_at_least_50 in Hlate. by rewrite Hlate in Hp.
  - intros Hearly. destruct (50 <=? _) eqn:Hc; [|done].
    apply elapsed_at_least_50 in Hc. lia.
  - rewrite <- processed_actions, Hshape. unfold turn_trace, sleep_trace.
    rewrite !processed_app, Hpu. cbn.
    destruct (50 <=? _) eqn:Hc.
    + destruct Hp as [Ht _]. rewrite (tick_trace_processed _ _ _ Ht).
      split; [intros _; by apply elapsed_at_least_50|]. intros _.
      rewrite elem_of_app. right. apply list_elem_of_here.
    + destruct Hp as [-> _]. cbn.
      assert (processed (if t2 - t0 <? processing_interval
                         then [Sleep (processing_interval - (t2 - t0))] else []) = [])
        as -> by (by destruct (_ <? _)).
      rewrite app_nil_r. split.
      * destruct updates; [by intros ?%elem_of_nil|].
        intros Hin. by apply elem_of_cons in Hin as [[=]|?%elem_of_nil].
      * intros Hlate. apply elapsed_at_least_50 in Hlate. congruence.
  - intros Hshort. unfold sleep_trace. apply Z.ltb_lt in Hshort. by rewrite Hshort.
  - intros Hlong. unfold sleep_trace. apply Z.ltb_ge in Hlong. by rewrite Hlong.
  - intros Hmono d Hin. apply in_actions in Hin; [|done]. rewrite Hshape in Hin.
    apply elem_of_turn_trace in Hin as [[=]|[[=]|[Hin|[[=]|[Hin|[[=]|Hin]]]]]].
    + destruct updates; [subst; by apply elem_of_nil in Hin|].
      destruct Hu as [vss_signals tr Hpub].
      apply elem_of_cons in Hin as [[=]|Hin].
      by destruct (publish_trace_events _ _ _ _ Hpub Hin)
        as [(? & ? & [=])|(? & ? & ? & _ & _ & _ & [=])].
    + destruct (50 <=? _); destruct Hp as [Hp _]; [|subst; by apply elem_of_nil in Hin].
      destruct Hp as [vss_signals tr Hpub].
      apply elem_of_cons in Hin as [[=]|Hin].
      by destruct (publish_trace_events _ _ _ _ Hpub Hin)
        as [(? & ? & [=])|(? & ? & ? & _ & _ & _ & [=])].
    + unfold sleep_trace in Hin. destruct (_ <? _) eqn:Hc; [|by apply elem_of_nil in Hin].
      apply elem_of_cons in Hin as [[= ->]|?%elem_of_nil]; [|done].
      apply Z.ltb_lt in Hc. lia.
Qed.

Lemma periodic_tick_and_sleep_witness :
  let C := scripted (healthy speed_file) in
  let s := start one_slow_turn (healthy speed_file) in
  let run := loop_body C speed_handles (-60 * ticks_per_ms) s in
  exists t0 updates on_updates t1 periodic t2,
    actions run.2 = turn_trace t0 updates on_updates t1 periodic t2 /\
    tick_trace speed_handles [] periodic /\
    run.1.1 = t1.
Proof.
  intros C s run.
  destruct (periodic_tick_and_sleep C speed_handles (-60 * ticks_per_ms) s
              run.1.1 run.1.2 run.2)
    as (t0 & updates & on_updates & t1 & periodic & t2 & Hshape & Hlate & _ & Hiff & _).
  { subst run. by destruct (loop_body C speed_handles _ s) as [[? ?] ?]. }
  exists t0, updates, on_updates, t1, periodic, t2. split; [exact Hshape|].
  apply Hlate, Hiff. vm_compute. apply list_elem_of_here.
Defined.

(** C7, as stated, fails: a turn that takes 30 ms is followed by the next
    turn without sleep, 30 ms after it began, not within 10 ms. *)
Lemma slow_turns_are_further_apart :
  let C := scripted (healthy speed_file) in
  let trace := (main C 5 argv4 (start one_slow_turn (healthy speed_file))).2 in
  loop_starts trace = [0; 30 * ticks_per_ms] /\
  processing_interval < 30 * ticks_per_ms - 0 /\
  actions trace
  = [ProcessorInitialize true; SourceInitialize true; ResolverCreate OkStatus;
     ClientCreate OkStatus; Resolve "Vehicle.Speed" (OkValue (Handle 1));
     Clock LastPeriodicCheck 0;
     Clock LoopStart 0; Poll []; Clock PeriodicNow 30000000; Clock LoopEnd 30000000;
     Clock LoopStart 30000000; Poll []; Clock PeriodicNow 30000000;
     Clock LoopEnd 30000000; Sleep 10000000;
     Stop].
Proof. intros C trace. split_and!; vm_compute; reflexivity. Qed.

(** C8, as the code has it.  An interrupt or terminate signal clears the
    run-flag, and nothing else does anything to it.  The flag is read at the
    head of the loop only: a turn does the same, and leaves the same world,
    with the flag up or down, so no tick is cut short.  When the flag is
    found down, after as many turns as it was found up, no further turn is
    started: the source is stopped and the process returns 0.  How much of a
    turn follows the signal depends on when it comes: the rest of the turn in
    progress, which may hold no tick at all. *)
Theorem stop_is_graceful (C : Collaborators) :
  (forall signal (s : Sys C),
      signal = SIGINT \/ signal = SIGTERM ->
      signal_handler C signal s = (tt, with_flag false s, [ShutdownRequested signal])) /\
  (forall signal (s : Sys C),
      signal <> SIGINT -> signal <> SIGTERM -> signal_handler C signal s = (tt, s, [])) /\
  (forall signal_handles last_check (s : Sys C) b,
      loop_body C signal_handles last_check (with_flag b s)
      = let '(last_check', s', trace) :=
          loop_body C signal_handles last_check (with_flag true s) in
        (last_check', with_flag (b && g_running s') s', trace)) /\
  (forall n fuel signal_handles last_check (s : Sys C),
      (forall k, (k < n)%nat ->
                 g_running (after_turns k signal_handles (last_check, s)).2 = true) ->
      g_running (after_turns n signal_handles (last_check, s)).2 = false ->
      (n < fuel)%nat ->
      exists s' trace,
        driver_loop C fuel signal_handles last_check s = (Exit 0, s', trace) /\
        g_running s' = false /\
        length (polled trace) = n /\
        last (actions trace) = Some Stop).
Proof.
  split_and!.
  - intros signal s Hsig. unfold signal_handler.
    assert ((signal =? SIGINT) || (signal =? SIGTERM) = true) as ->; [|done].
    destruct Hsig as [-> | ->]; done.
  - intros signal s Hint Hterm. unfold signal_handler.
    apply Z.eqb_neq in Hint, Hterm. by rewrite Hint, Hterm.
  - intros signal_handles last_check s b. apply flag_blind_loop_body.
  - intros n fuel signal_handles last_check s. apply driver_loop_stops.
Qed.

Lemma stop_is_graceful_witness :
  let C := scripted (healthy speed_file) in
  let s := start asleep_in_first_turn (healthy speed_file) in
  g_running (signal_handler C 15 s).1.2 = false /\
  exists s' trace,
    driver_loop C 3 speed_handles 0 s = (Exit 0, s', trace) /\
    g_running s' = false /\
    length (polled trace) = 1%nat /\
    last (actions trace) = Some Stop.
Proof.
  intros C s. split.
  - by rewrite (proj1 (stop_is_graceful C) 15 s (or_intror eq_refl)).
  - apply (proj2 (proj2 (proj2 (stop_is_graceful C))) 1%nat 3%nat speed_handles 0 s).
    + intros k Hk. assert (k = 0%nat) as -> by lia. reflexivity.
    + vm_compute. reflexivity.
    + lia.
Defined.

(** C8, as stated, fails: when the signal comes while the process sleeps at
    the end of a turn, the flag is found down at the next head of the loop and
    no tick follows the clearing of the flag: the source is stopped at once. *)
Lemma signal_during_sleep_is_followed_by_no_tick :
  let C := scripted (healthy speed_file) in
  let run := main C 5 argv4 (start stop_while_asleep (healthy speed_file)) in
  run.1.1 = Exit 0 /\
  run.2
  = [ProcessorInitialize true; SourceInitialize true; ResolverCreate OkStatus;
     ClientCreate OkStatus; Resolve "Vehicle.Speed" (OkValue (Handle 1));
     Clock LastPeriodicCheck 0;
     Clock LoopStart 0; Poll []; Clock PeriodicNow 0; Clock LoopEnd 0; Sleep 10000000;
     ShutdownRequested 15;
     Stop] /\
  after_shutdown run.2 = [Stop] /\
  processed (after_shutdown run.2) = [] /\
  polled (after_shutdown run.2) = [].
Proof. intros C run. split_and!; vm_compute; reflexivity. Qed.

(** ** Transforms *)

Section Transforms.
Context {C : Collaborators}.

Lemma fill_value_map_pairs items : forall pairs (acc : gmap string string),
  Forall2 from_to_item items pairs ->
  fill_value_map C (Some <$> items) acc
  = ([], Ok (foldl (fun m pair => <[pair.1 := pair.2]> m) acc pairs)).
Proof.
  induction items as [|item items IH]; intros pairs acc Hall.
  - by apply Forall2_nil_inv_l in Hall as ->.
  - apply Forall2_cons_inv_l in Hall as ([from to] & pairs' & Hitem & Hall & ->).
    destruct Hitem as (entries & -> & Hfrom & Hto). cbn in Hfrom, Hto.
    rewrite fmap_cons. cbn [fill_value_map]. rewrite !subscript_map. unfold pret.
    rewrite Hfrom, Hto. unfold mbind, Parser_bind. cbn [as_string pret].
    by rewrite (IH pairs' _ Hall).
Qed.

(** Inserting the pairs one after the other: a later pair overwrites an
    earlier one with the same [from]. *)
Lemma foldl_insert_list_to_map (pairs : list (string * string)) :
  foldl (fun m pair => <[pair.1 := pair.2]> m) (∅ : gmap string string) pairs
  = list_to_map (reverse pairs).
Proof.
  induction pairs as [|[from to] pairs IH] using rev_ind; [done|].
  rewrite foldl_app, reverse_app. cbn. by rewrite IH.
Qed.

(** The parser of the field, by cases. *)
Lemma parse_transform_by_cases entries :
  parse_transform C (Some (Map entries)) = ([], transform_of C (assoc "transform" entries)).
Proof.
  unfold parse_transform, transform_of. rewrite subscript_map. unfold pret.
  rewrite parser_bind_ok. cbn [fst snd app].
  destruct (assoc "transform" entries) as [[|text|items|keys]|]; cbn [IsDefined]; try done.
  rewrite !subscript_map. unfold pret. rewrite parser_bind_ok. cbn [fst snd app].
  destruct (assoc "code" keys) as [code|]; cbn [IsDefined].
  { unfold code_of. rewrite (silent_result _ (silent_as_string _ _)).
    by destruct (as_string _ _).2. }
  rewrite parser_bind_ok. cbn [fst snd app].
  destruct (assoc "math" keys) as [math|]; cbn [IsDefined].
  { unfold code_of. rewrite (silent_result _ (silent_as_string _ _)).
    by destruct (as_string _ _).2. }
  rewrite parser_bind_ok. cbn [fst snd app].
  destruct (assoc "mapping" keys) as [mapping|]; cbn [IsDefined]; [|done].
  unfold value_map_of. rewrite (silent_result _ (silent_fill_value_map _ _)).
  by destruct (fill_value_map _ _ _).2.
Qed.

End Transforms.

(** C9, as the code has it.  The transform of an entry is chosen by the
    keys of its [transform] node, in this order: [code] gives a code
    transform; else [math] gives a code transform as well; else [mapping]
    gives the value map of its from/to items (a later item replaces an
    earlier one with the same [from]); the transform is direct when there is
    no [transform] at all, and when the node is a map without the three keys,
    null or a sequence.  A [transform] that is a scalar is no direct mapping:
    asking it for [code] throws.  This is what the parser of the field gives
    ([transform_of]), what every stored mapping carries, and all the field
    changes: an entry that is stored without its [transform] field is stored
    with it as the same mapping with that transform, or ends with the
    exception of the field.  The string of [code] or [math] is that of a
    scalar, a list or a map has none; an item of [mapping] without [from] or
    [to] throws, and so does a [mapping] that is itself a map with entries.
    An entry that throws is the end of the process. *)
Theorem transform_of_an_entry (C : Collaborators) entries :
  parse_transform C (Some (Map entries)) = ([], transform_of C (assoc "transform" entries)) /\
  (forall node lines signal_name mapping,
      parse_mapping_node C node = (lines, Ok (Some (signal_name, mapping))) ->
      exists fields,
        node = Some (Map fields) /\
        transform_of C (assoc "transform" fields) = Ok (transform mapping)) /\
  (forall lines signal_name base,
      parse_mapping_node C (Some (Map (without "transform" entries)))
      = (lines, Ok (Some (signal_name, base))) ->
      transform base = DirectMapping /\
      parse_mapping_node C (Some (Map entries))
      = (lines,
         match transform_of C (assoc "transform" entries) with
         | Ok tr => Ok (Some (signal_name, with_transform tr base))
         | Throw e => Throw e
         end)) /\
  (forall expr, code_of C (Scalar expr) = Ok (CodeTransform expr)) /\
  (forall items, code_of C (Sequence items) = Throw TypedBadConversion) /\
  (forall keys, code_of C (Map keys) = Throw TypedBadConversion) /\
  (forall items pairs,
      Forall2 from_to_item items pairs ->
      value_map_of C (Sequence items)
      = Ok (ValueMap {| mappings := list_to_map (reverse pairs) |})) /\
  (forall fields rest,
      assoc "from" fields = None \/
      (exists from, assoc "from" fields = Some (Scalar from)) /\ assoc "to" fields = None ->
      value_map_of C (Sequence (Map fields :: rest)) = Throw InvalidNode) /\
  (forall field rest, value_map_of C (Map (field :: rest)) = Throw InvalidNode) /\
  (forall text, value_map_of C (Scalar text) = Ok (ValueMap {| mappings := ∅ |})) /\
  (forall root nodes fuel argv (s : Sys C),
      (exists e, (parse_mapping_node C (Some (Map entries))).2 = Throw e) ->
      length argv = 5%nat ->
      LoadFile C (nth 2 argv "") = Ok (Map root) ->
      assoc "mappings" root = Some (Sequence nodes) ->
      Map entries ∈ nodes ->
      exists e, (main C fuel argv s).1.1 = Terminate e).
Proof.
  split_and!.
  - apply parse_transform_by_cases.
  - intros node lines signal_name mapping Hp.
    apply parse_mapping_node_inv in Hp as ([fields ->] & _ & _ & _ & _ & _ & Htr & _).
    exists fields. split; [done|]. by rewrite parse_transform_by_cases in Htr.
  - intros lines signal_name base Hbase.
    destruct (parse_mapping_node_signal _ _ _ _ Hbase) as (signal_node & Hsig & Hname).
    apply parse_mapping_node_inv in Hbase
      as (_ & Hsrc & Hdt & Hint & Hst & Hdeps & Htr & Htrig).
    rewrite parse_transform_by_cases, assoc_without in Htr. cbn in Htr.
    injection Htr as Htr. split; [done|].
    rewrite assoc_without_ne in Hsig by done.
    rewrite (parse_source_field _ entries) in Hsrc by (by apply assoc_without_ne).
    rewrite (parse_datatype_field _ entries) in Hdt by (by apply assoc_without_ne).
    rewrite (parse_interval_ms_field _ entries) in Hint by (by apply assoc_without_ne).
    rewrite (parse_struct_field _ entries) in Hst by (by apply assoc_without_ne).
    rewrite (parse_depends_on_field _ entries) in Hdeps by (by apply assoc_without_ne).
    rewrite (parse_update_trigger_field _ entries) in Htrig by (by apply assoc_without_ne).
    rewrite (parse_mapping_node_fields_in _ _ _ _ _ _ _ _ _ _ _ _
               Hsig Hname Hsrc Hdt Hint Hst Hdeps eq_refl Htrig).
    by rewrite parse_transform_by_cases.
  - done.
  - done.
  - done.
  - intros items pairs Hitems. unfold value_map_of. cbn [iterate].
    by rewrite (fill_value_map_pairs _ _ _ Hitems), foldl_insert_list_to_map.
  - intros fields rest Hmissing. unfold value_map_of. cbn [iterate].
    rewrite fmap_cons. cbn [fill_value_map]. rewrite !subscript_map. unfold pret.
    rewrite !parser_bind_ok. cbn [fst snd app].
    by destruct Hmissing as [->|[[from ->] ->]].
  - done.
  - done.
  - intros root nodes fuel argv s. apply throwing_entry_terminates.
Qed.

Lemma transform_of_an_entry_witness :
  let C := scripted (healthy speed_file) in
  let stored entries :=
    match (parse_mapping_node C (Some (Map entries))).2 with
    | Ok (Some (_, mapping)) => Ok (transform mapping)
    | Ok None => Ok DirectMapping
    | Throw e => Throw e
    end in
  stored typed_code_entry = Ok (CodeTransform "x * 3.6") /\
  stored math_entry = Ok (CodeTransform "x * 3.6") /\
  stored gear_entry = Ok (ValueMap {| mappings := {[ "0" := "PARK"; "1" := "R" ]} |}) /\
  stored odd_entry = Ok DirectMapping /\
  stored speed_as_float = Ok DirectMapping /\
  stored direct_entry = Throw BadSubscript /\
  stored listed_code_entry = Throw TypedBadConversion.
Proof.
  intros C stored.
  assert (forall entries,
             match (parse_mapping_node C (Some (Map (without "transform" entries)))).2 with
             | Ok (Some _) => True
             | _ => False
             end ->
             stored entries = transform_of C (assoc "transform" entries)) as Hstored.
  { intros entries Hbase. subst stored. cbn beta.
    destruct (parse_mapping_node C (Some (Map (without "transform" entries))))
      as [lines [[[signal_name base]|]|e]] eqn:Hparse; try done.
    destruct (transform_of_an_entry C entries) as (_ & _ & Hwith & _).
    destruct (Hwith _ _ _ Hparse) as [_ ->]. cbn [snd].
    by destruct (transform_of C (assoc "transform" entries)). }
  split_and!; (rewrite Hstored; [|by vm_compute]); vm_compute; reflexivity.
Defined.

(** C9, as stated, fails: a transform that is written as a word is not one
    the parser recognises, and the entry does not get the direct mapping.
    Asking the scalar for [code] throws; the entry is not stored, and a
    mapping file that holds it ends the process with the exception. *)
Lemma transform_written_as_a_word_throws :
  let C := scripted (healthy direct_file) in
  let s := start quiet (healthy direct_file) in
  assoc "transform" direct_entry = Some (Scalar "direct") /\
  parse_transform C (Some (Map direct_entry)) = ([], Throw BadSubscript) /\
  parse_mapping_node C (Some (Map direct_entry)) = ([], Throw BadSubscript) /\
  main C 3 argv4 s = (Terminate BadSubscript, s, []).
Proof. intros C s. split_and!; vm_compute; reflexivity. Qed.

(** C10. Two entries that declare the same signal name: the table keeps
    the later one, the earlier is overwritten without a word (the lines logged
    for the list are those of its entries).  Nothing at parse time looks
    across entries: when each entry parses, the list does. *)
Theorem later_entry_replaces_earlier (C : Collaborators)
    before earlier between later after table lines1 lines2 signal_name mapping1 mapping2 :
  parse_mapping_node C earlier = (lines1, Ok (Some (signal_name, mapping1))) ->
  parse_mapping_node C later = (lines2, Ok (Some (signal_name, mapping2))) ->
  Forall (fun node => exists lines entry, parse_mapping_node C node = (lines, Ok entry))
         (before ++ between ++ after) ->
  Forall (fun node => forall lines mapping,
            parse_mapping_node C node <> (lines, Ok (Some (signal_name, mapping)))) after ->
  exists lines table',
    parse_mappings C (before ++ earlier :: between ++ later :: after) table
    = (lines, Ok table') /\
    table' !! signal_name = Some mapping2 /\
    lines = concat ((fun node => (parse_mapping_node C node).1)
                      <$> before ++ earlier :: between ++ later :: after).
Proof.
  intros Hearlier Hlater Hall Hafter.
  apply Forall_app in Hall as [Hbefore Hall]. apply Forall_app in Hall as [Hbetween Hall].
  destruct (parse_mappings_total (C:=C) (before ++ earlier :: between ++ later :: after) table)
    as (lines & table' & Hparse).
  { apply Forall_app. split; [done|]. constructor; [eauto|].
    apply Forall_app. split; [done|]. constructor; [eauto|done]. }
  exists lines, table'. split; [done|]. split; [|by eapply parse_mappings_lines].
  change (before ++ earlier :: between ++ later :: after)
    with (before ++ (earlier :: between) ++ later :: after) in Hparse.
  rewrite app_assoc in Hparse.
  by eapply parse_mappings_last.
Qed.

Lemma later_entry_replaces_earlier_witness :
  let C := scripted (healthy speed_file) in
  exists lines table',
    parse_mappings C [Some (Map speed_as_float); Some (Map speed_as_double)] ∅
    = (lines, Ok table') /\
    table' !! "Vehicle.Speed"
    = Some {| source := {| src_type := ""; src_name := "" |};
              datatype := DOUBLE; interval_ms := 0;
              is_struct := false; struct_type := "";
              depends_on := []; transform := DirectMapping;
              update_trigger := ON_DEPENDENCY |} /\
    lines = [].
Proof.
  intros C.
  refine (_ : exists lines table', _ /\ _ /\
     lines = concat ((fun node => (parse_mapping_node C node).1)
               <$> [] ++ Some (Map speed_as_float) :: [] ++ [Some (Map speed_as_double)])).
  apply (later_entry_replaces_earlier C [] (Some (Map speed_as_float)) []
           (Some (Map speed_as_double)) [] ∅ [] [] "Vehicle.Speed"
           {| source := {| src_type := ""; src_name := "" |};
              datatype := FLOAT; interval_ms := 0;
              is_struct := false; struct_type := "";
              depends_on := []; transform := DirectMapping;
              update_trigger := ON_DEPENDENCY |}); try reflexivity; constructor.
Defined.
(** * Further properties of the code *)

(** X1. The parser of the mapping file logs nothing but datatype warnings:
    an entry gives no line or one warning; an entry that was stored without a
    line has the datatype that [value_type_from_string] gave for the string
    of its [datatype] field, one that was stored with a line has the datatype
    UNSPECIFIED; and a list of entries gives at most one line for each, all
    of them warnings, also when the parse ends in an exception. *)
Theorem parser_logs_only_datatype_warnings (C : Collaborators) :
  (forall node,
      (parse_mapping_node C node).1 = [] \/
      exists text, (parse_mapping_node C node).1 = [(WARNING, text)]) /\
  (forall node lines signal_name mapping,
      parse_mapping_node C node = (lines, Ok (Some (signal_name, mapping))) ->
      (lines = [] /\
       exists datatype_node datatype_str,
         subscript node "datatype" = ([], Ok (Some datatype_node)) /\
         as_string (null_as_string C) (Some datatype_node) = ([], Ok datatype_str) /\
         value_type_from_string C datatype_str = Some (datatype mapping)) \/
      (exists text, lines = [(WARNING, text)] /\ datatype mapping = UNSPECIFIED)) /\
  (forall nodes table,
      (length (parse_mappings C nodes table).1 <= length nodes)%nat /\
      Forall (fun line : LogLine => line.1 = WARNING) (parse_mappings C nodes table).1).
Proof.
  split_and!.
  - intros node.
    destruct (parse_mapping_node_lines (C:=C) node) as [->|[name ->]]; [by left|].
    apply parse_datatype_lines.
  - intros node lines signal_name mapping Hp.
    apply parse_mapping_node_inv in Hp as (_ & _ & Hdt & _).
    by apply parse_datatype_inv in Hdt.
  - intros nodes table. apply parse_mappings_warnings.
Qed.

(** ** The fields of an entry *)

Section Fields.
Context {C : Collaborators}.

(** Line 149 on a map: the number the field holds, or 0; it does not throw. *)
Lemma parse_interval_ms_map entries :
parse_interval_ms C (Some (Map entries))
= ([], Ok match assoc "interval_ms" entries with
          | Some (Scalar text) => default 0 (decode_int C text)
          | _ => 0
          end).
Proof.
unfold parse_interval_ms. rewrite subscript_map. unfold pret. rewrite parser_bind_ok.
by destruct (assoc "interval_ms" entries) as [[]|].
Qed.

(** The items pushed back are the strings of the items, in their order. *)
Lemma push_back_all_inv deps : forall acc lines names,
push_back_all C deps acc = (lines, Ok names) ->
exists added,
  Forall2 (fun dep name => as_string (null_as_string C) dep = ([], Ok name)) deps added /\
  names = acc ++ added.
Proof.
induction deps as [|dep deps IH]; intros acc lines names; cbn [push_back_all].
- intros [= <- <-]. exists []. split; [constructor|by rewrite app_nil_r].
- intros Hp. apply parser_bind_inv in Hp as (l1 & name & l2 & Hname & Hp & ->).
  pose proof (silent_as_string (null_as_string C) dep) as Hs. unfold silent in Hs.
  rewrite Hname in Hs. cbn in Hs. subst l1.
  apply IH in Hp as (added & Hall & ->).
  exists (name :: added). split; [by constructor|by rewrite <- app_assoc].
Qed.

Lemma Forall2_fmap_Some (P : NodeRef -> string -> Prop) items names :
Forall2 P (Some <$> items) names -> Forall2 (fun item name => P (Some item) name) items names.
Proof. by rewrite Forall2_fmap_l. Qed.

End Fields.

(** X2. The interval of an entry (line 149) is read with a fallback: the
    stored mapping has the number its [interval_ms] field holds, and 0 when
    the field is absent, is no scalar, or is a scalar that is no integer.  The
    field cannot make the parse fail, whatever it holds. *)
Theorem interval_ms_falls_back_to_zero (C : Collaborators) node lines signal_name mapping :
  parse_mapping_node C node = (lines, Ok (Some (signal_name, mapping))) ->
  (exists entries,
      node = Some (Map entries) /\
      interval_ms mapping =
        match assoc "interval_ms" entries with
        | Some (Scalar text) => default 0 (decode_int C text)
        | _ => 0
        end) /\
  (forall entries, exists n, parse_interval_ms C (Some (Map entries)) = ([], Ok n)).
Proof.
  intros Hp. split.
  - apply parse_mapping_node_inv in Hp as ([entries ->] & _ & _ & Hint & _).
    exists entries. split; [done|].
    rewrite parse_interval_ms_map in Hint. cbn in Hint. by injection Hint as <-.
  - intros entries. rewrite parse_interval_ms_map. eauto.
Qed.

Lemma interval_ms_falls_back_to_zero_witness :
  parse_mapping_node reads_100 (Some (Map pose_entry))
  = ([], Ok (Some ("Vehicle.Pose", pose_mapping))) /\
  parse_mapping_node reads_100 (Some (Map loose_entry))
  = ([], Ok (Some ("Vehicle.Speed", loose_mapping))) /\
  interval_ms pose_mapping = default 0 (decode_int reads_100 "100") /\
  interval_ms loose_mapping = default 0 (decode_int reads_100 "fast").
Proof.
  assert (parse_mapping_node reads_100 (Some (Map pose_entry))
          = ([], Ok (Some ("Vehicle.Pose", pose_mapping)))) as Hpose
    by (vm_compute; reflexivity).
  assert (parse_mapping_node reads_100 (Some (Map loose_entry))
          = ([], Ok (Some ("Vehicle.Speed", loose_mapping)))) as Hloose
    by (vm_compute; reflexivity).
  split_and!; [exact Hpose | exact Hloose | |].
  - destruct (interval_ms_falls_back_to_zero _ _ _ _ _ Hpose) as [(entries & Heq & ->) _].
    by injection Heq as <-.
  - destruct (interval_ms_falls_back_to_zero _ _ _ _ _ Hloose) as [(entries & Heq & ->) _].
    by injection Heq as <-.
Defined.

(** X3. The struct fields of an entry (lines 151-157): a mapping whose
    datatype is STRUCT is marked as a struct and has the type its
    [struct_type] field names, when there is one; for every other datatype
    the [struct_type] field is not read at all, whatever it holds, and both
    members stay as the default mapping has them. *)
Theorem struct_type_is_read_only_for_structs (C : Collaborators)
    node lines signal_name mapping :
  parse_mapping_node C node = (lines, Ok (Some (signal_name, mapping))) ->
  exists entries,
    node = Some (Map entries) /\
    (datatype mapping = STRUCT ->
     is_struct mapping = true /\
     match assoc "struct_type" entries with
     | Some struct_node =>
         as_string (null_as_string C) (Some struct_node) = ([], Ok (struct_type mapping))
     | None => struct_type mapping = struct_type (SignalMapping_default C)
     end) /\
    (datatype mapping <> STRUCT ->
     is_struct mapping = is_struct (SignalMapping_default C) /\
     struct_type mapping = struct_type (SignalMapping_default C)).
Proof.
  intros Hp.
  apply parse_mapping_node_inv in Hp as ([entries ->] & _ & _ & _ & Hst & _).
  exists entries. split; [done|]. unfold parse_struct in Hst.
  destruct (datatype mapping); cbn [ValueType_eqb] in Hst;
    (split; [intros Hdt; try discriminate Hdt | intros Hdt; try (by destruct Hdt)]);
    try (cbn in Hst; by injection Hst as <- <-).
  rewrite subscript_map in Hst. unfold pret in Hst. rewrite parser_bind_ok in Hst.
  cbn [fst snd app] in Hst.
  destruct (assoc "struct_type" entries) as [struct_node|]; cbn [IsDefined] in Hst.
  - pose proof (silent_as_string (null_as_string C) (Some struct_node)) as Hs.
    unfold silent in Hs.
    destruct (as_string (null_as_string C) (Some struct_node)) as [l [ty|e]];
      cbn in Hs, Hst; subst l; [|done].
    by injection Hst as <- <-.
  - cbn in Hst. by injection Hst as <- <-.
Qed.

Lemma struct_type_is_read_only_for_structs_witness :
  parse_mapping_node reads_100 (Some (Map pose_entry))
  = ([], Ok (Some ("Vehicle.Pose", pose_mapping))) /\
  parse_mapping_node reads_100 (Some (Map loose_entry))
  = ([], Ok (Some ("Vehicle.Speed", loose_mapping))) /\
  (is_struct pose_mapping = true /\
   as_string (Some "null") (Some (Scalar "Types.Pose")) = ([], Ok (struct_type pose_mapping))) /\
  (assoc "struct_type" loose_entry = Some (Sequence []) /\
   is_struct loose_mapping = false /\ struct_type loose_mapping = "").
Proof.
  assert (parse_mapping_node reads_100 (Some (Map pose_entry))
          = ([], Ok (Some ("Vehicle.Pose", pose_mapping)))) as Hpose
    by (vm_compute; reflexivity).
  assert (parse_mapping_node reads_100 (Some (Map loose_entry))
          = ([], Ok (Some ("Vehicle.Speed", loose_mapping)))) as Hloose
    by (vm_compute; reflexivity).
  split_and!; [exact Hpose | exact Hloose | ..].
  - destruct (struct_type_is_read_only_for_structs _ _ _ _ _ Hpose)
      as (entries & Heq & Hstruct & _).
    by destruct (Hstruct eq_refl).
  - destruct (struct_type_is_read_only_for_structs _ _ _ _ _ Hpose)
      as (entries & Heq & Hstruct & _).
    injection Heq as <-. destruct (Hstruct eq_refl) as [_ Hty]. exact Hty.
  - reflexivity.
  - destruct (struct_type_is_read_only_for_structs _ _ _ _ _ Hloose)
      as (entries & Heq & _ & Hother).
    by destruct (Hother ltac:(discriminate)).
  - destruct (struct_type_is_read_only_for_structs _ _ _ _ _ Hloose)
      as (entries & Heq & _ & Hother).
    by destruct (Hother ltac:(discriminate)).
Defined.

(** X4. The dependencies of an entry (lines 159-164) are pushed back in the
    order of the document, nothing is dropped, merged or checked against the
    other entries: a [depends_on] sequence gives the strings of its items after
    what the default mapping holds; an absent field gives what the default
    mapping holds, and so does a field that is a scalar, null, or an empty map,
    over which the loop does not turn (a map with entries cannot be read). *)
Theorem depends_on_keeps_document_order (C : Collaborators)
    node lines signal_name mapping :
  parse_mapping_node C node = (lines, Ok (Some (signal_name, mapping))) ->
  exists entries,
    node = Some (Map entries) /\
    match assoc "depends_on" entries with
    | Some (Sequence items) =>
        exists names,
          Forall2 (fun item name =>
                     as_string (null_as_string C) (Some item) = ([], Ok name)) items names /\
          depends_on mapping = depends_on (SignalMapping_default C) ++ names
    | Some (Map keys) =>
        keys = [] /\ depends_on mapping = depends_on (SignalMapping_default C)
    | Some (Scalar _) | Some Null | None =>
        depends_on mapping = depends_on (SignalMapping_default C)
    end.
Proof.
  intros Hp.
  apply parse_mapping_node_inv in Hp as ([entries ->] & _ & _ & _ & _ & Hdeps & _).
  exists entries. split; [done|]. unfold parse_depends_on in Hdeps.
  rewrite subscript_map in Hdeps. unfold pret in Hdeps. rewrite parser_bind_ok in Hdeps.
  cbn [fst snd app] in Hdeps.
  destruct (assoc "depends_on" entries) as [[| |items|keys]|];
    cbn [IsDefined iterate] in Hdeps; try (cbn in Hdeps; by injection Hdeps as <-).
  - destruct (push_back_all C (Some <$> items) _) as [l r] eqn:Hpush.
    cbn in Hdeps. subst r.
    apply push_back_all_inv in Hpush as (names & Hall & ->).
    exists names. split; [|done]. by apply Forall2_fmap_Some in Hall.
  - destruct keys as [|key keys]; [cbn in Hdeps; by injection Hdeps as <-|].
    by cbn in Hdeps.
Qed.

Lemma depends_on_keeps_document_order_witness :
  parse_mapping_node reads_100 (Some (Map pose_entry))
  = ([], Ok (Some ("Vehicle.Pose", pose_mapping))) /\
  parse_mapping_node reads_100 (Some (Map loose_entry))
  = ([], Ok (Some ("Vehicle.Speed", loose_mapping))) /\
  (exists names,
      Forall2 (fun item name => as_string (Some "null") (Some item) = ([], Ok name))
              [Scalar "Vehicle.Speed"; Scalar "Vehicle.Chassis.YawRate"] names /\
      depends_on pose_mapping = [] ++ names) /\
  depends_on loose_mapping = [].
Proof.
  assert (parse_mapping_node reads_100 (Some (Map pose_entry))
          = ([], Ok (Some ("Vehicle.Pose", pose_mapping)))) as Hpose
    by (vm_compute; reflexivity).
  assert (parse_mapping_node reads_100 (Some (Map loose_entry))
          = ([], Ok (Some ("Vehicle.Speed", loose_mapping)))) as Hloose
    by (vm_compute; reflexivity).
  split_and!; [exact Hpose | exact Hloose | |].
  - destruct (depends_on_keeps_document_order _ _ _ _ _ Hpose) as (entries & Heq & Hdeps).
    injection Heq as <-. exact Hdeps.
  - destruct (depends_on_keeps_document_order _ _ _ _ _ Hloose) as (entries & Heq & Hdeps).
    injection Heq as <-. exact Hdeps.
Defined.

(** X5. The source of an entry (lines 129-134) is read as a whole or not at
    all: without a [source] field the mapping keeps the source of the default
    mapping; with one, the field is a map that has both [type] and [name], and
    the mapping has the strings of the two.  No stored mapping has a source
    that is half filled. *)
Theorem source_is_whole_or_default (C : Collaborators) node lines signal_name mapping :
  parse_mapping_node C node = (lines, Ok (Some (signal_name, mapping))) ->
  exists entries,
    node = Some (Map entries) /\
    match assoc "source" entries with
    | None => source mapping = source (SignalMapping_default C)
    | Some source_node =>
        exists source_entries type_node name_node,
          source_node = Map source_entries /\
          assoc "type" source_entries = Some type_node /\
          assoc "name" source_entries = Some name_node /\
          as_string (null_as_string C) (Some type_node)
          = ([], Ok (src_type (source mapping))) /\
          as_string (null_as_string C) (Some name_node)
          = ([], Ok (src_name (source mapping)))
    end.
Proof.
  intros Hp.
  apply parse_mapping_node_inv in Hp as ([entries ->] & Hsrc & _).
  exists entries. split; [done|]. unfold parse_source in Hsrc.
  rewrite subscript_map in Hsrc. unfold pret in Hsrc. rewrite parser_bind_ok in Hsrc.
  cbn [fst snd app] in Hsrc.
  destruct (assoc "source" entries) as [source_node|]; cbn [IsDefined] in Hsrc.
  2:{ cbn in Hsrc. by injection Hsrc as <-. }
  destruct source_node as [| |items|source_entries]; try done.
  rewrite !subscript_map in Hsrc. unfold pret in Hsrc. rewrite !parser_bind_ok in Hsrc.
  cbn [fst snd app] in Hsrc.
  destruct (assoc "type" source_entries) as [type_node|] eqn:Htype; [|done].
  pose proof (silent_as_string (null_as_string C) (Some type_node)) as Hs1.
  unfold silent in Hs1.
  destruct (as_string (null_as_string C) (Some type_node)) as [l1 [ty|e]] eqn:Hty;
    cbn [fst snd] in Hs1, Hsrc; subst l1; [|done].
  rewrite parser_bind_ok in Hsrc. cbn [fst snd app] in Hsrc.
  destruct (assoc "name" source_entries) as [name_node|] eqn:Hnm; [|done].
  pose proof (silent_as_string (null_as_string C) (Some name_node)) as Hs2.
  unfold silent in Hs2.
  destruct (as_string (null_as_string C) (Some name_node)) as [l2 [name|e]] eqn:Hname;
    cbn [fst snd] in Hs2, Hsrc; subst l2; [|done].
  cbn in Hsrc. injection Hsrc as <-.
  exists source_entries, type_node, name_node. cbn [source src_type src_name].
  split_and!; done.
Qed.

Lemma source_is_whole_or_default_witness :
  parse_mapping_node reads_100 (Some (Map pose_entry))
  = ([], Ok (Some ("Vehicle.Pose", pose_mapping))) /\
  parse_mapping_node reads_100 (Some (Map loose_entry))
  = ([], Ok (Some ("Vehicle.Speed", loose_mapping))) /\
  (exists source_entries type_node name_node,
      Map [("type", Scalar "can"); ("name", Scalar "DI_pose")] = Map source_entries /\
      assoc "type" source_entries = Some type_node /\
      assoc "name" source_entries = Some name_node /\
      as_string (Some "null") (Some type_node) = ([], Ok "can") /\
      as_string (Some "null") (Some name_node) = ([], Ok "DI_pose")) /\
  source loose_mapping = {| src_type := ""; src_name := "" |}.
Proof.
  assert (parse_mapping_node reads_100 (Some (Map pose_entry))
          = ([], Ok (Some ("Vehicle.Pose", pose_mapping)))) as Hpose
    by (vm_compute; reflexivity).
  assert (parse_mapping_node reads_100 (Some (Map loose_entry))
          = ([], Ok (Some ("Vehicle.Speed", loose_mapping)))) as Hloose
    by (vm_compute; reflexivity).
  split_and!; [exact Hpose | exact Hloose | |].
  - destruct (source_is_whole_or_default _ _ _ _ _ Hpose) as (entries & Heq & Hsrc).
    injection Heq as <-. exact Hsrc.
  - destruct (source_is_whole_or_default _ _ _ _ _ Hloose) as (entries & Heq & Hsrc).
    injection Heq as <-. exact Hsrc.
Defined.

(** X6. The trigger of an entry (lines 189-199) is matched letter for
    letter: the stored mapping is PERIODIC for the string "periodic", BOTH for
    "both", ON_DEPENDENCY for every other string (also for one that differs in
    case only), and keeps the trigger of the default mapping when the field
    is absent. *)
Theorem update_trigger_is_matched_exactly (C : Collaborators)
    node lines signal_name mapping :
  parse_mapping_node C node = (lines, Ok (Some (signal_name, mapping))) ->
  exists entries,
    node = Some (Map entries) /\
    match assoc "update_trigger" entries with
    | None => update_trigger mapping = update_trigger (SignalMapping_default C)
    | Some trigger_node =>
        exists trigger,
          as_string (null_as_string C) (Some trigger_node) = ([], Ok trigger) /\
          update_trigger mapping =
            if String.eqb trigger "periodic" then PERIODIC
            else if String.eqb trigger "both" then BOTH
            else ON_DEPENDENCY
    end.
Proof.
  intros Hp.
  apply parse_mapping_node_inv in Hp as ([entries ->] & _ & _ & _ & _ & _ & _ & Htrig).
  exists entries. split; [done|]. unfold parse_update_trigger in Htrig.
  rewrite subscript_map in Htrig. unfold pret in Htrig. rewrite parser_bind_ok in Htrig.
  cbn [fst snd app] in Htrig.
  destruct (assoc "update_trigger" entries) as [trigger_node|]; cbn [IsDefined] in Htrig.
  2:{ cbn in Htrig. by injection Htrig as <-. }
  pose proof (silent_as_string (null_as_string C) (Some trigger_node)) as Hs.
  unfold silent in Hs.
  destruct (as_string (null_as_string C) (Some trigger_node)) as [l [trigger|e]];
    cbn [fst snd] in Hs, Htrig; subst l; [|done].
  exists trigger. split; [done|].
  rewrite parser_bind_ok in Htrig. cbn [fst snd app] in Htrig.
  destruct (String.eqb trigger "periodic"); [by injection Htrig as <-|].
  destruct (String.eqb trigger "both"); by injection Htrig as <-.
Qed.

Lemma update_trigger_is_matched_exactly_witness :
  parse_mapping_node reads_100 (Some (Map pose_entry))
  = ([], Ok (Some ("Vehicle.Pose", pose_mapping))) /\
  update_trigger pose_mapping = PERIODIC /\
  (exists mapping,
      parse_mapping_node reads_100 (Some (Map shouting_entry))
      = ([], Ok (Some ("Vehicle.Speed", mapping))) /\
      update_trigger mapping = ON_DEPENDENCY).
Proof.
  assert (parse_mapping_node reads_100 (Some (Map pose_entry))
          = ([], Ok (Some ("Vehicle.Pose", pose_mapping)))) as Hpose
    by (vm_compute; reflexivity).
  split_and!; [exact Hpose| |].
  - destruct (update_trigger_is_matched_exactly _ _ _ _ _ Hpose) as (entries & Heq & Htrig).
    injection Heq as <-. destruct Htrig as (trigger & Hstr & ->).
    by injection Hstr as <-.
  - destruct (parse_mapping_node reads_100 (Some (Map shouting_entry)))
      as [lines [[[name mapping]|]|e]] eqn:Hshout; try (by vm_compute in Hshout).
    assert (lines = [] /\ name = "Vehicle.Speed") as [-> ->].
    { vm_compute in Hshout. by injection Hshout as <- <- _. }
    exists mapping. split; [done|].
    destruct (update_trigger_is_matched_exactly _ _ _ _ _ Hshout) as (entries & Heq & Htrig).
    injection Heq as <-. destruct Htrig as (trigger & Hstr & ->).
    by injection Hstr as <-.
Defined.

(** X7. A row of the table is kept under the string of the entry's
    [signal] field (line 125), and only a scalar (or null) can be read as one:
    while an entry without [signal] is skipped, an entry whose [signal] is a
    sequence or a map is not; reading it throws, and a mapping file that holds
    such an entry ends the process with the exception, whatever else it
    holds. *)
Theorem entry_is_stored_under_the_string_of_its_signal (C : Collaborators) :
  (forall node lines signal_name mapping,
      parse_mapping_node C node = (lines, Ok (Some (signal_name, mapping))) ->
      exists entries signal_node,
        node = Some (Map entries) /\
        assoc "signal" entries = Some signal_node /\
        as_string (null_as_string C) (Some signal_node) = ([], Ok signal_name)) /\
  (forall entries signal_node,
      assoc "signal" entries = Some signal_node ->
      (exists items, signal_node = Sequence items) \/ (exists keys, signal_node = Map keys) ->
      parse_mapping_node C (Some (Map entries)) = ([], Throw TypedBadConversion) /\
      forall root nodes fuel argv (s : Sys C),
        length argv = 5%nat ->
        LoadFile C (nth 2 argv "") = Ok (Map root) ->
        assoc "mappings" root = Some (Sequence nodes) ->
        Map entries ∈ nodes ->
        exists e, (main C fuel argv s).1.1 = Terminate e).
Proof.
  split.
  - intros node lines signal_name mapping Hp.
    destruct (parse_mapping_node_inv _ _ _ _ Hp) as ([entries ->] & _).
    unfold parse_mapping_node in Hp.
    apply parser_bind_inv in Hp as (l0 & signal_node & l0' & Hsig & Hp & _).
    rewrite subscript_map in Hsig. injection Hsig as _ <-.
    destruct (assoc "signal" entries) as [signal_node|] eqn:Hsig;
      cbn [IsDefined negb] in Hp; [|done].
    exists entries, signal_node. split; [done|]. split; [done|].
    apply parser_bind_inv in Hp as (l1 & name & l1' & Hname & Hp & _).
    pose proof (silent_as_string (null_as_string C) (Some signal_node)) as Hs.
    unfold silent in Hs. rewrite Hname in Hs. cbn in Hs. subst l1.
    apply parser_bind_inv in Hp as (l2 & src & l2' & _ & Hp & _).
    apply parser_bind_inv in Hp as (l3 & dt & l3' & _ & Hp & _).
    apply parser_bind_inv in Hp as (l4 & interval & l4' & _ & Hp & _).
    apply parser_bind_inv in Hp as (l5 & [is_st st_type] & l5' & _ & Hp & _).
    apply parser_bind_inv in Hp as (l6 & deps & l6' & _ & Hp & _).
    apply parser_bind_inv in Hp as (l7 & tr & l7' & _ & Hp & _).
    apply parser_bind_inv in Hp as (l8 & trig & l8' & _ & Hp & _).
    injection Hp as _ <- _. exact Hname.
  - intros entries signal_node Hsig Hshape.
    assert (parse_mapping_node C (Some (Map entries)) = ([], Throw TypedBadConversion))
      as Hthrow.
    { unfold parse_mapping_node. rewrite subscript_map. unfold pret.
      rewrite parser_bind_ok, Hsig. cbn [IsDefined negb fst snd app].
      by destruct Hshape as [[items ->]|[keys ->]]. }
    split; [exact Hthrow|].
    intros root nodes fuel argv s Hlen Hfile Hmappings Hin.
    assert (exists e, (load_mappings C (nth 2 argv "")).2 = Throw e) as [e He].
    { unfold load_mappings. rewrite Hfile, parser_bind_ok. cbn [fst snd].
      rewrite subscript_map. unfold pret. rewrite parser_bind_ok, Hmappings.
      cbn [IsDefined negb iterate fst snd].
      destruct (parse_mappings_throws (C:=C) (Some <$> nodes) ∅ (Some (Map entries)))
        as [e He].
      { apply list_elem_of_fmap. eauto. }
      { rewrite Hthrow. eauto. }
      exists e. destruct (parse_mappings C _ ∅) as [l r]. cbn in He. subst r.
      by rewrite parser_bind_throw. }
    exists e. by apply main_terminates.
Qed.

Lemma entry_is_stored_under_the_string_of_its_signal_witness :
  let C := scripted (healthy listed_file) in
  parse_mapping_node C (Some (Map listed_entry)) = ([], Throw TypedBadConversion) /\
  (exists e, (main C 3 argv4 (start quiet (healthy listed_file))).1.1 = Terminate e) /\
  (exists entries signal_node,
      Some speed_entry = Some (Map entries) /\
      assoc "signal" entries = Some signal_node /\
      as_string (Some "null") (Some signal_node) = ([], Ok "Vehicle.Speed")).
Proof.
  intros C.
  destruct (proj2 (entry_is_stored_under_the_string_of_its_signal C) listed_entry
              (Sequence [Scalar "Vehicle.Speed"; Scalar "Vehicle.Chassis.YawRate"])
              eq_refl ltac:(left; eauto)) as [Hthrow Hmain].
  split_and!.
  - exact Hthrow.
  - apply (Hmain [("mappings", Sequence [speed_entry; Map listed_entry])]
             [speed_entry; Map listed_entry]); try reflexivity.
    apply list_elem_of_further, list_elem_of_here.
  - apply (proj1 (entry_is_stored_under_the_string_of_its_signal C) (Some speed_entry) []
             "Vehicle.Speed"
             {| source := {| src_type := "can"; src_name := "DI_vehicleSpeed" |};
                datatype := FLOAT; interval_ms := 0;
                is_struct := false; struct_type := "";
                depends_on := []; transform := DirectMapping;
                update_trigger := ON_DEPENDENCY |}).
    vm_compute. reflexivity.
Defined.

(** X8. The mapping table holds what the entries gave and nothing besides:
    after the loop of lines 120-203 every row of the table is a row it had
    before or the name and mapping some entry of the list parsed to; a row is
    never removed, only replaced; every entry that parses with a name has a
    row; and the table grows by at most one row for each entry. *)
Theorem table_holds_only_parsed_entries (C : Collaborators) nodes table lines table' :
  parse_mappings C nodes table = (lines, Ok table') ->
  (forall name mapping,
      table' !! name = Some mapping ->
      table !! name = Some mapping \/
      exists node lines0,
        node ∈ nodes /\
        parse_mapping_node C node = (lines0, Ok (Some (name, mapping)))) /\
  (forall name, is_Some (table !! name) -> is_Some (table' !! name)) /\
  (forall node lines0 name mapping,
      node ∈ nodes ->
      parse_mapping_node C node = (lines0, Ok (Some (name, mapping))) ->
      is_Some (table' !! name)) /\
  (size table' <= size table + length nodes)%nat.
Proof.
  revert table lines table'.
  induction nodes as [|node nodes IH]; intros table lines table' Hparse.
  - injection Hparse as <- <-. split_and!.
    + intros name mapping Hrow. by left.
    + done.
    + intros node lines0 name mapping Hin. by apply elem_of_nil in Hin.
    + cbn. lia.
  - cbn [parse_mappings] in Hparse.
    destruct (parse_mapping_node C node) as [lines0 [[[name0 mapping0]|]|e]] eqn:Hnode;
      [| |done]; rewrite parser_bind_ok in Hparse;
      destruct (parse_mappings C nodes _) as [lines1 r] eqn:Hrest;
      cbn in Hparse; injection Hparse as <- ->;
      destruct (IH _ _ _ Hrest) as (Hfrom & Hkept & Hin & Hsize); split_and!.
    + intros name mapping Hrow. destruct (Hfrom _ _ Hrow) as [Hold|(n & l & Hn & Hp)].
      * destruct (decide (name = name0)) as [->|Hne].
        -- rewrite lookup_insert_eq in Hold. injection Hold as <-.
           right. exists node, lines0. split; [apply list_elem_of_here|done].
        -- rewrite lookup_insert_ne in Hold by done. by left.
      * right. exists n, l. split; [by apply list_elem_of_further|done].
    + intros name Hsome. apply Hkept.
      destruct (decide (name = name0)) as [->|Hne].
      * rewrite lookup_insert_eq. eauto.
      * by rewrite lookup_insert_ne.
    + intros n l name mapping Hn Hp. apply elem_of_cons in Hn as [->|Hn].
      * rewrite Hnode in Hp. injection Hp as _ <- _.
        apply Hkept. rewrite lookup_insert_eq. eauto.
      * by eapply Hin.
    + pose proof (map_size_insert name0 mapping0 table) as Hins.
      destruct (table !! name0); cbn in Hins; cbn [length]; lia.
    + intros name mapping Hrow. destruct (Hfrom _ _ Hrow) as [Hold|(n & l & Hn & Hp)].
      * by left.
      * right. exists n, l. split; [by apply list_elem_of_further|done].
    + done.
    + intros n l name mapping Hn Hp. apply elem_of_cons in Hn as [->|Hn].
      * rewrite Hnode in Hp. done.
      * by eapply Hin.
    + cbn [length]. lia.
Qed.

Lemma table_holds_only_parsed_entries_witness :
  let nodes := [Some (Map pose_entry); Some (Map unsigned_entry); Some (Map loose_entry)] in
  let table' : gmap string SignalMapping :=
    {[ "Vehicle.Pose" := pose_mapping; "Vehicle.Speed" := loose_mapping ]} in
  parse_mappings reads_100 nodes ∅ = ([], Ok table') /\
  (forall name mapping,
      table' !! name = Some mapping ->
      exists node lines0,
        node ∈ nodes /\
        parse_mapping_node reads_100 node = (lines0, Ok (Some (name, mapping)))) /\
  is_Some (table' !! "Vehicle.Pose") /\
  (size table' <= 3)%nat.
Proof.
  intros nodes table'.
  assert (parse_mappings reads_100 nodes ∅ = ([], Ok table')) as Hparse
    by (vm_compute; reflexivity).
  split; [exact Hparse|].
  destruct (table_holds_only_parsed_entries _ _ _ _ _ Hparse)
    as (Hfrom & _ & Hin & Hsize).
  split_and!.
  - intros name mapping Hrow. destruct (Hfrom _ _ Hrow) as [Hold|Hnew]; [|done].
    by rewrite lookup_empty in Hold.
  - apply (Hin (Some (Map pose_entry)) [] "Vehicle.Pose" pose_mapping).
    + apply list_elem_of_here.
    + vm_compute; reflexivity.
  - rewrite map_size_empty in Hsize. exact Hsize.
Defined.

(** ** Runs, taken apart *)

Section Parts.
Context {C : Collaborators}.
Implicit Types (s : Sys C) (signal_handles : gmap string DynamicSignalHandle).

(** A run is startup alone, or startup, the first reading of the clock and
  the loop. *)
Lemma main_inv fuel argv s outcome s' trace :
main C fuel argv s = (outcome, s', trace) ->
initialize C argv s = (inl outcome, s', trace) \/
exists signal_handles s1 e1 t s2 sigs e3,
  initialize C argv s = (inr signal_handles, s1, e1) /\
  now C LastPeriodicCheck s1
  = (t, s2, Clock LastPeriodicCheck t :: (ShutdownRequested <$> sigs)) /\
  driver_loop C fuel signal_handles t s2 = (outcome, s', e3) /\
  trace = e1 ++ (Clock LastPeriodicCheck t :: (ShutdownRequested <$> sigs)) ++ e3.
Proof.
rewrite main_run.
destruct (initialize C argv s) as [[[o|signal_handles] s1] e1] eqn:Hinit;
  [left; congruence|].
destruct (now_events (C:=C) LastPeriodicCheck s1) as [sigs Hnow].
destruct (now C LastPeriodicCheck s1) as [[t s2] e2] eqn:Hclock. cbn in Hnow. subst e2.
destruct (driver_loop C fuel signal_handles t s2) as [[o s3] e3] eqn:Hloop.
intros [= <- <- <-]. right. by exists signal_handles, s1, e1, t, s2, sigs, e3.
Qed.

Lemma set_attempts_app trace1 trace2 :
set_attempts (trace1 ++ trace2) = set_attempts trace1 ++ set_attempts trace2.
Proof. apply omap_app. Qed.

Lemma set_attempts_shutdown (sigs : list Z) : set_attempts (ShutdownRequested <$> sigs) = [].
Proof. by induction sigs. Qed.

(** Startup writes nothing. *)
Lemma set_attempts_startup trace : Forall startup_event trace -> set_attempts trace = [].
Proof.
induction 1 as [|e trace He _ IH]; [done|].
unfold set_attempts in *. by destruct e; cbn; rewrite ?IH.
Qed.

(** A loop without handles writes nothing. *)
Lemma set_attempts_no_handles trace :
Forall (loop_event ∅) trace -> set_attempts trace = [].
Proof.
induction 1 as [|e trace He _ IH]; [done|].
unfold set_attempts in *. destruct He as [He| ->]; [|done].
destruct e; cbn; rewrite ?IH; try done.
destruct He as [_ [name Hname]]. by rewrite lookup_empty in Hname.
Qed.

Lemma resolved_names_startup_failure argv outcome trace :
startup_trace C argv (inl outcome) trace -> resolved_names trace = [].
Proof.
intros Hshape.
inversion Hshape; subst; rewrite ?resolved_names_app, ?resolved_names_log_events; done.
Qed.

End Parts.

(** X9. A 'mappings' section that holds no entry is accepted (lines
    112-120): when the section is null, an empty sequence, an empty map or a
    scalar, the loop over it does not turn, the table is empty and nothing is
    logged; the process then starts its collaborators as with any other file,
    resolves no name, ends with no exception of the parser, and writes nothing
    to the broker for as long as it runs.  A section written as a map with
    entries cannot be read: the first turn of the loop throws. *)
Theorem empty_mappings_section_is_accepted (C : Collaborators)
    yaml_file root_entries section :
  LoadFile C yaml_file = Ok (Map root_entries) ->
  assoc "mappings" root_entries = Some section ->
  (section = Null \/ section = Sequence [] \/ section = Map [] \/
   (exists text, section = Scalar text) ->
   load_mappings C yaml_file = ([], Ok (Some ∅)) /\
   forall fuel argv (s : Sys C),
     nth 2 argv "" = yaml_file ->
     (forall e, (main C fuel argv s).1.1 <> Terminate e) /\
     resolved_names (main C fuel argv s).2 = [] /\
     set_attempts (main C fuel argv s).2 = [] /\
     (forall signal_handles,
         (initialize C argv s).1.1 = inr signal_handles -> signal_handles = ∅)) /\
  (forall key value rest,
      section = Map ((key, value) :: rest) ->
      load_mappings C yaml_file = ([], Throw InvalidNode)).
Proof.
  intros Hfile Hsection.
  assert (forall nodes,
             iterate (Some section) = nodes ->
             load_mappings C yaml_file
             = (let '(lines, r) := parse_mappings C nodes ∅ in
                (lines, match r with Ok table => Ok (Some table) | Throw e => Throw e end)))
    as Hload.
  { intros nodes <-. unfold load_mappings. rewrite Hfile.
    rewrite parser_bind_ok. cbn [fst snd app]. rewrite subscript_map. unfold pret.
    rewrite parser_bind_ok, Hsection. cbn [fst snd app IsDefined negb].
    destruct (parse_mappings C (iterate (Some section)) ∅) as [lines [table|e]]; [|done].
    rewrite parser_bind_ok. cbn. by rewrite app_nil_r. }
  split.
  2:{ intros key value rest ->. by rewrite (Hload _ eq_refl). }
  intros Hempty.
  assert (load_mappings C yaml_file = ([], Ok (Some ∅))) as Hnone.
  { rewrite (Hload []); [done|].
    by destruct Hempty as [->|[->|[->|[text ->]]]]. }
  split; [exact Hnone|].
  intros fuel argv s Hargv.
  assert (forall started s1 e1,
             initialize C argv s = (started, s1, e1) ->
             resolved_names e1 = [] /\
             match started with
             | inl outcome => outcome = Exit 1
             | inr signal_handles => signal_handles = ∅
             end) as Hstart.
  { intros started s1 e1 Hinit.
    pose proof (initialize_shape _ _ _ _ _ Hinit) as Hshape.
    rewrite <- resolved_names_actions.
    inversion Hshape as [| | | | | | |lines m h tr Hlen Hl Hres Heq1 Heq2]; subst;
      rewrite ?resolved_names_app, ?resolved_names_log_events; try done;
      try (rewrite Hnone in *; done).
    rewrite Hnone in Hl. injection Hl as <- <-.
    rewrite iteration_order_empty in Hres. inversion Hres; subst. done. }
  destruct (main C fuel argv s) as [[outcome s'] trace] eqn:Hmain. cbn [fst snd].
  pose proof (always_initialize (C:=C) argv s) as Halpha.
  apply main_inv in Hmain
    as [Hinit|(signal_handles & s1 & e1 & t & s2 & sigs & e3 & Hinit & _ & Hloop & ->)].
  - destruct (Hstart _ _ _ Hinit) as [Hnames ->]. rewrite Hinit in Halpha |- *.
    cbn [fst snd] in *. split_and!; try done. by apply set_attempts_startup.
  - destruct (Hstart _ _ _ Hinit) as [Hnames ->]. rewrite Hinit in Halpha |- *.
    cbn [fst snd] in *.
    pose proof (always_driver_loop (C:=C) fuel ∅ t s2) as Hevents.
    rewrite Hloop in Hevents. cbn in Hevents.
    split_and!.
    + intros e ->.
      by destruct (driver_loop_outcome _ _ _ _ _ _ _ Hloop) as [[? _]|[? _]].
    + rewrite resolved_names_app, Hnames.
      change (?x :: ?l ++ e3) with ((x :: l) ++ e3).
      rewrite resolved_names_app, (resolved_names_loop _ _ Hevents).
      change (Clock LastPeriodicCheck t :: ?l) with ([Clock LastPeriodicCheck t] ++ l).
      by rewrite resolved_names_app, resolved_names_shutdown.
    + rewrite set_attempts_app, (set_attempts_startup _ Halpha).
      change (?x :: ?l ++ e3) with ((x :: l) ++ e3).
      rewrite set_attempts_app, (set_attempts_no_handles _ Hevents).
      change (Clock LastPeriodicCheck t :: ?l) with ([Clock LastPeriodicCheck t] ++ l).
      by rewrite set_attempts_app, set_attempts_shutdown.
    + by intros h [= <-].
Qed.

Lemma empty_mappings_section_is_accepted_witness :
  let C := scripted (healthy idle_file) in
  load_mappings C "mappings.yaml" = ([], Ok (Some ∅)) /\
  set_attempts (main C 5 argv4 (start one_busy_turn (healthy idle_file))).2 = [] /\
  (forall signal_handles,
      (initialize C argv4 (start quiet (healthy idle_file))).1.1 = inr signal_handles ->
      signal_handles = ∅) /\
  load_mappings (scripted (healthy keyed_file)) "mappings.yaml" = ([], Throw InvalidNode).
Proof.
  intros C.
  destruct (empty_mappings_section_is_accepted C "mappings.yaml" [("mappings", Null)] Null
              eq_refl eq_refl) as [Hempty _].
  destruct (Hempty (or_introl eq_refl)) as [Hload Hrun].
  split_and!.
  - exact Hload.
  - by destruct (Hrun 5%nat argv4 (start one_busy_turn (healthy idle_file)) eq_refl)
      as (_ & _ & Hwrites & _).
  - by destruct (Hrun 5%nat argv4 (start quiet (healthy idle_file)) eq_refl)
      as (_ & _ & _ & Hhandles).
  - apply (proj2 (empty_mappings_section_is_accepted (scripted (healthy keyed_file))
                    "mappings.yaml" [("mappings", Map [("Vehicle.Speed", Map speed_as_float)])]
                    (Map [("Vehicle.Speed", Map speed_as_float)]) eq_refl eq_refl)
             "Vehicle.Speed" (Map speed_as_float) []).
    reflexivity.
Defined.

(** ** The order of a run *)

Section Order.
Context {C : Collaborators}.
Implicit Types (s : Sys C) (signal_handles : gmap string DynamicSignalHandle).

Lemma protocol_app stage trace1 trace2 :
protocol stage (trace1 ++ trace2) = protocol stage trace1 ≫= fun st => protocol st trace2.
Proof.
revert stage. induction trace1 as [|e trace1 IH]; intros stage; [done|].
cbn. destruct (protocol_step stage e) as [stage'|]; [apply IH|done].
Qed.

Lemma protocol_shutdown stage (sigs : list Z) :
protocol stage (ShutdownRequested <$> sigs) = Some stage.
Proof. induction sigs as [|sg sigs IH]; [done|]. cbn. by destruct stage. Qed.

Lemma protocol_log_events stage lines : protocol stage (log_events lines) = Some stage.
Proof. induction lines as [|line lines IH]; [done|]. cbn. by destruct stage. Qed.

(** The handler's lines have no say in the order. *)
Lemma protocol_actions trace : forall stage, protocol stage (actions trace) = protocol stage trace.
Proof.
induction trace as [|e trace IH]; intros stage; [done|].
destruct (is_shutdown e) eqn:He.
- unfold actions in *. rewrite filter_cons_False by (by rewrite He).
  rewrite IH. destruct e; try done; by destruct stage.
- rewrite actions_cons_keep by done. cbn.
  destruct (protocol_step stage e); [apply IH|done].
Qed.

Lemma protocol_resolve names signal_handles signal_handles' trace :
resolve_trace names signal_handles signal_handles' trace ->
protocol Connected trace = Some Connected.
Proof. induction 1; done. Qed.

Lemma protocol_turn signal_handles trace :
Forall (turn_event signal_handles) trace -> protocol Looping trace = Some Looping.
Proof.
induction 1 as [|e trace He _ IH]; [done|].
destruct e; try done; try destruct use; cbn; exact IH.
Qed.

(** The loop: turns, then the stop, if the loop comes to it. *)
Lemma protocol_driver_loop fuel : forall signal_handles last_check s outcome s' trace,
driver_loop C fuel signal_handles last_check s = (outcome, s', trace) ->
(outcome = OutOfFuel /\ protocol Looping trace = Some Looping) \/
(outcome = Exit 0 /\ protocol Looping trace = Some Stopped).
Proof.
induction fuel as [|fuel IH]; intros signal_handles lastp s outcome s' trace;
  cbn [driver_loop].
- intros [= <- <- <-]. by left.
- rewrite bind_run. destruct (g_running s) eqn:Hflag.
  + rewrite bind_run.
    pose proof (always_loop_body (C:=C) signal_handles lastp s) as Hturn.
    destruct (loop_body C signal_handles lastp s) as [[last' s1] e1].
    destruct (driver_loop C fuel signal_handles last' s1) as [[o s2] e2] eqn:Hrest.
    intros [= <- <- <-]. cbn in Hturn |- *.
    rewrite protocol_app, (protocol_turn _ _ Hturn). cbn.
    by apply IH in Hrest.
  + rewrite bind_run, outside_run. cbn -[protocol]. intros [= <- <- <-]. right.
    split; [done|]. rewrite app_nil_r.
    change (Stop :: ?l) with ([Stop] ++ l). rewrite protocol_app.
    change (protocol Looping [Stop]) with (Some Stopped). apply protocol_shutdown.
Qed.

(** Startup: where it leaves the run. *)
Lemma protocol_startup argv started trace :
startup_trace C argv started trace ->
match started with
| inr _ => protocol Fresh trace = Some Connected
| inl (Exit code) =>
    code = 1 /\ (protocol Fresh trace = Some Failed \/ protocol Fresh trace = Some Fresh)
| inl (Terminate e) =>
    protocol Fresh trace = Some Fresh /\
    trace = log_events (load_mappings C (nth 2 argv "")).1
| inl OutOfFuel => False
end.
Proof.
assert (forall lines rest,
           protocol Fresh (log_events lines ++ rest) = protocol Fresh rest) as Hlines.
{ intros lines rest. by rewrite protocol_app, protocol_log_events. }
destruct 1 as [Hlen|lines e Hlen Hload|lines Hlen Hload|lines m Hlen Hload
               |lines m Hlen Hload|lines m text Hlen Hload|lines m text Hlen Hload
               |lines m h tr Hlen Hload Hres];
  rewrite ?Hlines; try (split; [done|by left]).
- rewrite Hload. split; [apply protocol_log_events|done].
- split; [done|]. right. apply protocol_log_events.
- change (?a :: ?b :: ?c :: ?d :: tr) with ([a; b; c; d] ++ tr).
  rewrite protocol_app. cbn. by eapply protocol_resolve.
Qed.

End Order.

(** X10. Every run of [main] keeps the order in which the program is
    written: the processor is initialised first, then the CAN source, then the
    resolver and the client are created, each only after the one before it
    came up; names are resolved only once all four are up; the clock, the
    source, the processor and the client are used only after that, and nothing
    is resolved any more; after the first collaborator that does not come up
    the run makes no further call; and after [stop()] it makes none.  The
    stage a run ends in goes with the way the process ends: 0 after the stop,
    1 after a failed start (or with no collaborator touched, for a file
    without 'mappings'); an exception of the parser leaves every collaborator
    untouched, the run has logged the parser's lines and nothing else. *)
Theorem run_keeps_the_startup_order (C : Collaborators) fuel argv (s : Sys C) :
  exists final,
    protocol Fresh (main C fuel argv s).2 = Some final /\
    match final with
    | Stopped => (main C fuel argv s).1.1 = Exit 0
    | Looping => (main C fuel argv s).1.1 = OutOfFuel
    | Failed => (main C fuel argv s).1.1 = Exit 1
    | Fresh =>
        (main C fuel argv s).1.1 = Exit 1 \/
        exists e,
          (main C fuel argv s).1.1 = Terminate e /\
          actions (main C fuel argv s).2
          = log_events (load_mappings C (nth 2 argv "")).1
    | ProcessorUp | SourceUp | ResolverUp | Connected => False
    end.
Proof.
  destruct (main C fuel argv s) as [[outcome s'] trace] eqn:Hmain. cbn [fst snd].
  apply main_inv in Hmain
    as [Hinit|(signal_handles & s1 & e1 & t & s2 & sigs & e3 & Hinit & _ & Hloop & ->)];
    pose proof (initialize_shape _ _ _ _ _ Hinit) as Hshape;
    pose proof (protocol_startup _ _ _ Hshape) as Hstage; cbn in Hstage;
    rewrite protocol_actions in Hstage.
  - destruct outcome as [code|e|]; [| |done].
    + destruct Hstage as [-> [Hstage|Hstage]]; rewrite Hstage;
        [exists Failed|exists Fresh]; split; try done. by left.
    + destruct Hstage as [Hstage Htrace]. rewrite Hstage. exists Fresh.
      split; [done|]. right. by exists e.
  - rewrite protocol_app, Hstage. cbn [mbind option_bind].
    change (Clock LastPeriodicCheck t :: ?l) with ([Clock LastPeriodicCheck t] ++ l).
    rewrite !protocol_app.
    change (protocol Connected [Clock LastPeriodicCheck t]) with (Some Looping).
    cbn [mbind option_bind]. rewrite protocol_shutdown. cbn [mbind option_bind].
    destruct (protocol_driver_loop _ _ _ _ _ _ _ Hloop) as [[-> ->]|[-> ->]];
      [exists Looping|exists Stopped]; done.
Qed.

(** ** The run-flag and the stop signals *)

Section Signals.
Context {C : Collaborators}.
Implicit Types (s : Sys C) (signal_handles : gmap string DynamicSignalHandle).

Lemma shutdown_requests_app trace1 trace2 :
shutdown_requests (trace1 ++ trace2) = shutdown_requests trace1 ++ shutdown_requests trace2.
Proof. apply omap_app. Qed.

Lemma shutdown_requests_fmap (sigs : list Z) :
shutdown_requests (ShutdownRequested <$> sigs) = sigs.
Proof.
induction sigs as [|sg sigs IH]; [done|].
rewrite fmap_cons. change (sg :: shutdown_requests (ShutdownRequested <$> sigs) = sg :: sigs).
by rewrite IH.
Qed.

Lemma follows_ret {A} (a : A) : flag_follows_signals (mret a : M C A).
Proof. intros s. cbn. by rewrite andb_true_r. Qed.

Lemma follows_emit e : is_shutdown e = false -> flag_follows_signals (emit C e).
Proof. intros He s. destruct e; try done; cbn; by rewrite andb_true_r. Qed.

Lemma follows_lift_parser {A} (p : Parser A) : flag_follows_signals (lift_parser C p).
Proof.
intros s. unfold lift_parser. cbn [fst snd].
fold (log_events p.1).
assert (shutdown_requests (log_events p.1) = []) as -> by (by induction p.1).
cbn. by rewrite andb_true_r.
Qed.

Lemma follows_outside {A} (op : World C -> A * World C) (ev : A -> Event) :
(forall a, is_shutdown (ev a) = false) -> flag_follows_signals (outside C op ev).
Proof.
intros Hev s. rewrite outside_run. cbn zeta. cbn [fst snd].
set (sigs := (delivered_signals C (op (world s)).2).1).
change (?x :: ?l) with ([x] ++ l).
rewrite shutdown_requests_app, shutdown_requests_fmap.
assert (shutdown_requests [ev (op (world s)).1] = []) as ->.
{ specialize (Hev (op (world s)).1). by destruct (ev _). }
cbn [app g_running]. split.
- f_equal. induction sigs as [|sg sigs IH]; [done|]. cbn [existsb].
  destruct (is_stop_signal sg) eqn:Hsg.
  + by rewrite filter_cons_True.
  + rewrite filter_cons_False by (by rewrite Hsg). exact IH.
- apply Forall_forall. intros sg Hin. by apply list_elem_of_filter in Hin as [? _].
Qed.

Lemma follows_bind {A B} (m : M C A) (f : A -> M C B) :
flag_follows_signals m -> (forall a, flag_follows_signals (f a)) ->
flag_follows_signals (m ≫= f).
Proof.
intros Hm Hf s. rewrite bind_run.
destruct (Hm s) as [Hflag1 Hsig1]. destruct (m s) as [[a s1] e1].
destruct (Hf a s1) as [Hflag2 Hsig2]. destruct (f a s1) as [[b s2] e2].
cbn [fst snd] in *. rewrite shutdown_requests_app. split.
- rewrite Hflag2, Hflag1, <- andb_assoc. f_equal.
  destruct (shutdown_requests e1), (shutdown_requests e2); done.
- by apply Forall_app.
Qed.

Ltac follow_step :=
first
  [ apply follows_ret
  | apply follows_emit; reflexivity
  | apply follows_lift_parser
  | apply follows_outside; intros; reflexivity
  | apply follows_bind; [|intros ?] ].

Lemma follows_publish_signals signal_handles vss_signals :
flag_follows_signals (publish_signals C signal_handles vss_signals).
Proof.
induction vss_signals as [|vss rest IH]; cbn [publish_signals]; [follow_step|].
follow_step; [|done].
destruct (signal_handles !! path vss); [|follow_step].
follow_step; [|follow_step].
unfold publish_to_kuksa, log. destruct (negb _).
- repeat follow_step.
- follow_step; [follow_step|]. destruct a; repeat follow_step.
Qed.

Lemma follows_loop_body signal_handles last_check :
flag_follows_signals (loop_body C signal_handles last_check).
Proof.
unfold loop_body, now.
follow_step; [follow_step|].
follow_step; [follow_step|].
follow_step.
{ destruct a0; [follow_step|].
  follow_step; [follow_step | apply follows_publish_signals]. }
follow_step; [follow_step|].
follow_step.
{ destruct (50 <=? _); [|follow_step].
  follow_step; [follow_step|].
  follow_step; [apply follows_publish_signals | follow_step]. }
follow_step; [follow_step|].
follow_step; [|follow_step].
destruct (_ <? _); follow_step.
Qed.

Lemma follows_driver_loop fuel : forall signal_handles last_check,
flag_follows_signals (driver_loop C fuel signal_handles last_check).
Proof.
induction fuel as [|fuel IH]; intros signal_handles last_check; cbn [driver_loop].
- follow_step.
- follow_step.
  + intros s. cbn. by rewrite andb_true_r.
  + destruct a.
    * follow_step; [apply follows_loop_body | apply IH].
    * repeat follow_step.
Qed.

Lemma follows_resolve_handles names : forall signal_handles,
flag_follows_signals (resolve_handles C names signal_handles).
Proof.
induction names as [|name rest IH]; intros signal_handles; cbn [resolve_handles];
  [follow_step|].
follow_step; [follow_step|].
destruct a; [apply IH|]. unfold log. follow_step; [follow_step | apply IH].
Qed.

Lemma follows_initialize argv : flag_follows_signals (initialize C argv).
Proof.
unfold initialize, log.
destruct (negb _); [repeat follow_step|].
follow_step; [follow_step|].
destruct a as [[dag_mappings|]|e]; [|follow_step..].
follow_step; [follow_step|].
destruct a; cbn [negb]; [|repeat follow_step].
follow_step; [follow_step|].
destruct a; cbn [negb]; [|repeat follow_step].
follow_step; [follow_step|].
destruct a; [|repeat follow_step].
follow_step; [follow_step|].
destruct a; [|repeat follow_step].
follow_step; [apply follows_resolve_handles | follow_step].
Qed.

Lemma follows_main fuel argv : flag_follows_signals (main C fuel argv).
Proof.
unfold main, now.
follow_step; [apply follows_initialize|].
destruct a; [follow_step|].
follow_step; [follow_step | apply follows_driver_loop].
Qed.

End Signals.

(** X11. The run-flag follows the stop signals, and nothing else: at the
    end of any run the flag is up exactly when it was up at the start and the
    handler has acted on no signal; the handler acts on SIGINT and SIGTERM
    only; nothing sets the flag again once it is down; and a run that was
    started with the flag up (line 35) returns 0 only if a stop signal has
    come. *)
Theorem run_flag_follows_stop_signals (C : Collaborators) fuel argv (s : Sys C) :
  let run := main C fuel argv s in
  (g_running run.1.2 = true <->
   g_running s = true /\ shutdown_requests run.2 = []) /\
  Forall (fun signal => signal = SIGINT \/ signal = SIGTERM) (shutdown_requests run.2) /\
  (g_running s = false -> g_running run.1.2 = false) /\
  (g_running s = true -> run.1.1 = Exit 0 -> shutdown_requests run.2 <> []).
Proof.
  intros run. subst run.
  destruct (follows_main (C:=C) fuel argv s) as [Hflag Hsigs].
  assert (g_running (main C fuel argv s).1.2 = true <->
          g_running s = true /\ shutdown_requests (main C fuel argv s).2 = []) as Hiff.
  { rewrite Hflag, andb_true_iff, bool_decide_eq_true. done. }
  split_and!.
  - exact Hiff.
  - eapply Forall_impl; [exact Hsigs|]. intros sg Hsg. unfold is_stop_signal in Hsg.
    apply orb_true_iff in Hsg as [Hsg|Hsg]; apply Z.eqb_eq in Hsg; auto.
  - intros Hdown. rewrite Hflag, Hdown. done.
  - intros Hup Hexit Hnone.
    assert (g_running (main C fuel argv s).1.2 = true) as Hend by (by apply Hiff).
    destruct (main C fuel argv s) as [[outcome s'] trace] eqn:Hmain. cbn [fst snd] in *.
    subst outcome.
    apply main_inv in Hmain
      as [Hinit|(signal_handles & s1 & e1 & t & s2 & sigs & e3 & Hinit & _ & Hloop & ->)].
    + apply initialize_shape in Hinit. by destruct (startup_exit _ _ _ Hinit) as [|[]].
    + destruct (driver_loop_outcome _ _ _ _ _ _ _ Hloop) as [[? _]|(_ & Hdown & _)]; [done|].
      by rewrite Hdown in Hend.
Qed.

(** ** Startup and the run-flag *)

Section StartupFlag.
Context {C : Collaborators}.
Implicit Types (s : Sys C) (signal_handles : gmap string DynamicSignalHandle).

Lemma flag_blind_lift_parser {A} (p : Parser A) : flag_blind (lift_parser C p).
Proof. intros s b. cbn. by rewrite andb_true_r. Qed.

Ltac blind_step :=
first
  [ apply flag_blind_ret
  | apply flag_blind_emit
  | apply flag_blind_lift_parser
  | apply flag_blind_outside
  | apply flag_blind_bind; [|intros ?] ].

Lemma flag_blind_resolve_handles names : forall signal_handles,
flag_blind (resolve_handles C names signal_handles).
Proof.
induction names as [|name rest IH]; intros signal_handles; cbn [resolve_handles];
  [blind_step|].
blind_step; [blind_step|].
destruct a; [apply IH|]. unfold log. blind_step; [blind_step | apply IH].
Qed.

Lemma flag_blind_initialize argv : flag_blind (initialize C argv).
Proof.
unfold initialize, log.
destruct (negb _); [repeat blind_step|].
blind_step; [blind_step|].
destruct a as [[dag_mappings|]|e]; [|blind_step..].
blind_step; [blind_step|].
destruct a; cbn [negb]; [|repeat blind_step].
blind_step; [blind_step|].
destruct a; cbn [negb]; [|repeat blind_step].
blind_step; [blind_step|].
destruct a; [|repeat blind_step].
blind_step; [blind_step|].
destruct a; [|repeat blind_step].
blind_step; [apply flag_blind_resolve_handles | blind_step].
Qed.

(** Startup polls nothing. *)
Lemma polled_startup trace : Forall startup_event trace -> polled trace = [].
Proof.
induction 1 as [|e trace He _ IH]; [done|].
unfold polled in *. by destruct e; cbn; rewrite ?IH.
Qed.

Lemma polled_shutdown (sigs : list Z) : polled (ShutdownRequested <$> sigs) = [].
Proof. by induction sigs. Qed.

End StartupFlag.

(** X12. Startup does not look at the run-flag (lines 90-258): with the
    flag down it makes the same calls, gets the same answers and gives the
    same table of handles as with the flag up.  So a stop signal that comes
    during startup does not cut startup short: every collaborator is still
    started and every name resolved; then the loop finds the flag down at its
    head, not one turn is run and the source is not polled, the source is
    stopped and the process returns 0. *)
Theorem startup_is_not_cut_short_by_a_signal (C : Collaborators) argv :
  flag_blind (initialize C argv) /\
  forall fuel (s : Sys C) signal_handles s1 e1 t s2 e2,
    initialize C argv s = (inr signal_handles, s1, e1) ->
    now C LastPeriodicCheck s1 = (t, s2, e2) ->
    g_running s2 = false ->
    exists s3 e3,
      main C (S fuel) argv s = (Exit 0, s3, e1 ++ e2 ++ e3) /\
      actions e3 = [Stop] /\
      polled (e1 ++ e2 ++ e3) = [].
Proof.
  split; [apply flag_blind_initialize|].
  intros fuel s signal_handles s1 e1 t s2 e2 Hinit Hclock Hdown.
  rewrite main_run, Hinit, Hclock. cbn [driver_loop]. rewrite bind_run, Hdown.
  rewrite bind_run, outside_run. cbn -[actions polled].
  do 2 eexists. split; [reflexivity|].
  rewrite app_nil_r. split.
  - rewrite actions_cons_keep by done. by rewrite actions_shutdown.
  - pose proof (always_initialize (C:=C) argv s) as Halpha.
    rewrite Hinit in Halpha. cbn in Halpha.
    destruct (now_events (C:=C) LastPeriodicCheck s1) as [sigs Hnow].
    rewrite Hclock in Hnow. cbn in Hnow. subst e2.
    rewrite !polled_app, (polled_startup _ Halpha).
    change (?x :: ?l) with ([x] ++ l). by rewrite !polled_app, !polled_shutdown.
Qed.

Lemma startup_is_not_cut_short_by_a_signal_witness :
  let C := scripted (healthy speed_file) in
  let run := main C 5 argv4 (start stop_at_once (healthy speed_file)) in
  run.1.1 = Exit 0 /\
  run.2
  = [ProcessorInitialize true; ShutdownRequested 15; SourceInitialize true;
     ResolverCreate OkStatus; ClientCreate OkStatus;
     Resolve "Vehicle.Speed" (OkValue (Handle 1));
     Clock LastPeriodicCheck 0; Stop] /\
  polled run.2 = [].
Proof.
  intros C run.
  pose (s := start stop_at_once (healthy speed_file)).
  pose (started := initialize C argv4 s).
  pose (clock := now C LastPeriodicCheck started.1.2).
  destruct (proj2 (startup_is_not_cut_short_by_a_signal C argv4) 4%nat s
              speed_handles started.1.2 started.2 clock.1.1 clock.1.2 clock.2)
    as (s3 & e3 & Hrun & Hstop & Hpolled); try (vm_compute; reflexivity).
  subst run. fold s. split_and!.
  - by rewrite Hrun.
  - vm_compute. reflexivity.
  - rewrite Hrun. exact Hpolled.
Defined.

(** ** The loop's trace, turn after turn *)

Section Ticks.
Context {C : Collaborators}.
Implicit Types (s : Sys C) (signal_handles : gmap string DynamicSignalHandle).

Lemma ticks_from_plain clock trace rest :
Forall is_plain trace -> ticks_from clock (trace ++ rest) = ticks_from clock rest.
Proof. induction 1 as [|e trace He _ IH]; [done|]. by destruct e. Qed.

Lemma ticks_from_actions trace : forall clock,
ticks_from clock (actions trace) = ticks_from clock trace.
Proof.
induction trace as [|e trace IH]; intros clock; [done|].
destruct (is_shutdown e) eqn:He.
- unfold actions in *. rewrite filter_cons_False by (by rewrite He).
  rewrite IH. by destruct e.
- rewrite actions_cons_keep by done.
  destruct e as [| | | | | | | | |updates|batch ems| | |]; cbn; rewrite ?IH; try done;
    destruct batch; by rewrite IH.
Qed.

(** The ticks of two traces in a row: those of the second are counted
  from the clock the first leaves. *)
Lemma ticks_from_app trace1 : forall clock trace2,
exists clock',
  ticks_from clock (trace1 ++ trace2) = ticks_from clock trace1 ++ ticks_from clock' trace2.
Proof.
induction trace1 as [|e trace1 IH]; intros clock trace2; [by exists clock|].
destruct e as [| | | | | | | |use t|updates|batch ems| | |]; cbn;
  try apply IH.
destruct batch; [|apply IH].
destruct (IH clock trace2) as [clock' ->]. by exists clock'.
Qed.

Lemma publish_trace_plain signal_handles vss_signals trace :
publish_trace signal_handles vss_signals trace -> Forall is_plain trace.
Proof. induction 1; by repeat constructor. Qed.

(** The ticks of a turn: the reading for the periodic check, when the check
  fires, and no other. *)
Lemma ticks_from_turn signal_handles last_check t0 updates on_updates t1 periodic t2
  last_check' clock rest :
match updates with
| [] => on_updates = []
| _ :: _ => tick_trace signal_handles updates on_updates
end ->
(if 50 <=? to_milliseconds (t1 - last_check) then
   tick_trace signal_handles [] periodic /\ last_check' = t1
 else periodic = [] /\ last_check' = last_check) ->
ticks_from clock (turn_trace t0 updates on_updates t1 periodic t2 ++ rest)
= (if 50 <=? to_milliseconds (t1 - last_check) then [t1] else [])
  ++ ticks_from t2 rest.
Proof.
intros Hu Hp. unfold turn_trace. rewrite <- !app_assoc. cbn [app ticks_from].
assert (forall tail, ticks_from t0 (on_updates ++ tail) = ticks_from t0 tail) as ->.
{ intros tail. destruct updates as [|u updates]; [by subst|].
  destruct Hu as [ems tr Hpub]. cbn.
  apply ticks_from_plain. by eapply publish_trace_plain. }
cbn [ticks_from].
assert (forall tail,
           ticks_from t1 (periodic ++ tail)
           = (if 50 <=? to_milliseconds (t1 - last_check) then [t1] else [])
             ++ ticks_from t1 tail) as ->.
{ intros tail. destruct (50 <=? _); destruct Hp as [Hp _].
  - destruct Hp as [ems tr Hpub]. cbn. f_equal.
    apply ticks_from_plain. by eapply publish_trace_plain.
  - by subst. }
f_equal. cbn [ticks_from]. unfold sleep_trace. by destruct (_ <? _).
Qed.

Lemma emitted_app trace1 trace2 : emitted (trace1 ++ trace2) = emitted trace1 ++ emitted trace2.
Proof. apply omap_app. Qed.

Lemma emitted_actions trace : emitted (actions trace) = emitted trace.
Proof.
induction trace as [|e trace IH]; [done|].
destruct (is_shutdown e) eqn:He.
- unfold actions in *. rewrite filter_cons_False by (by rewrite He).
  rewrite IH. by destruct e.
- rewrite actions_cons_keep by done.
  unfold emitted in *. destruct e; cbn; rewrite ?IH; done.
Qed.

Lemma emitted_plain trace : Forall is_plain trace -> emitted trace = [].
Proof.
induction 1 as [|e trace He _ IH]; [done|].
unfold emitted in *. by destruct e; cbn; rewrite ?IH.
Qed.

Lemma set_attempts_startup_like trace :
Forall (fun e => match e with SetValue _ _ _ => False | _ => True end) trace ->
set_attempts trace = [].
Proof.
induction 1 as [|e trace He _ IH]; [done|].
unfold set_attempts in *. by destruct e; cbn; rewrite ?IH.
Qed.

Lemma publishable_app signal_handles l1 l2 :
publishable signal_handles (l1 ++ l2)
= publishable signal_handles l1 ++ publishable signal_handles l2.
Proof. apply omap_app. Qed.

(** A tick writes the emissions of its call that can be written. *)
Lemma tick_trace_conserves signal_handles batch trace :
tick_trace signal_handles batch trace ->
exists vss_signals,
  emitted trace = [vss_signals] /\
  set_attempts trace = publishable signal_handles vss_signals.
Proof.
destruct 1 as [ems tr Hpub]. exists ems. split.
- change (emitted (Process batch ems :: tr)) with (ems :: emitted tr).
  by rewrite (emitted_plain _ (publish_trace_plain _ _ _ Hpub)).
- change (set_attempts (Process batch ems :: tr)) with (set_attempts tr).
  by apply publish_trace_writes.
Qed.

(** A turn writes what its processor calls gave and can be written. *)
Lemma loop_body_conserves signal_handles last_check s :
set_attempts (loop_body C signal_handles last_check s).2
= publishable signal_handles (concat (emitted (loop_body C signal_handles last_check s).2)).
Proof.
destruct (loop_body C signal_handles last_check s) as [[last' s'] trace] eqn:Hbody.
destruct (loop_body_shape _ _ _ _ _ _ Hbody)
  as (t0 & updates & on_updates & t1 & periodic & t2 & Hshape & Hu & Hp).
cbn [snd]. rewrite <- set_attempts_actions, <- emitted_actions, Hshape.
unfold turn_trace.
assert (exists l1, emitted on_updates = l1 /\
                   set_attempts on_updates = publishable signal_handles (concat l1))
  as (l1 & He1 & Hs1).
{ destruct updates; [subst; by exists []|].
  destruct (tick_trace_conserves _ _ _ Hu) as (ems & -> & ->).
  exists [ems]. cbn. by rewrite app_nil_r. }
assert (exists l2, emitted periodic = l2 /\
                   set_attempts periodic = publishable signal_handles (concat l2))
  as (l2 & He2 & Hs2).
{ destruct (50 <=? _); destruct Hp as [Hp _]; [|subst; by exists []].
  destruct (tick_trace_conserves _ _ _ Hp) as (ems & -> & ->).
  exists [ems]. cbn. by rewrite app_nil_r. }
rewrite !set_attempts_app, !emitted_app, Hs1, Hs2, He1, He2.
assert (set_attempts (sleep_trace t0 t2) = [] /\ emitted (sleep_trace t0 t2) = []) as [-> ->].
{ unfold sleep_trace. by destruct (_ <? _). }
set (none := @nil (DynamicSignalHandle * QualifiedValue)).
change (set_attempts [Clock LoopStart t0; Poll updates]) with none.
change (set_attempts [Clock PeriodicNow t1]) with none.
change (set_attempts [Clock LoopEnd t2]) with none.
change (emitted [Clock LoopStart t0; Poll updates]) with (@nil (list VSSSignal)).
change (emitted [Clock PeriodicNow t1]) with (@nil (list VSSSignal)).
change (emitted [Clock LoopEnd t2]) with (@nil (list VSSSignal)).
subst none.
cbn [app]. rewrite !app_nil_r, concat_app. by rewrite publishable_app.
Qed.

End Ticks.

(** X13. The periodic calls of the processor are at least 50 ms apart
    (lines 289-316): in any run of the loop, take every processor call on an
    empty batch with the reading of the clock that came before it; the first
    of these readings is at least 50 ms after the reference the loop was
    entered with, and each further one at least 50 ms after the one before.
    These are all the calls on an empty batch there are: line 271 keeps the
    empty batch of a poll away from the processor. *)
Theorem periodic_ticks_are_50ms_apart (C : Collaborators)
    fuel signal_handles last_check (s : Sys C) clock :
  let trace := (driver_loop C fuel signal_handles last_check s).2 in
  spaced (50 * ticks_per_ms) last_check (ticks_from clock trace) /\
  length (ticks_from clock trace)
  = length (filter (fun batch => length batch = 0%nat) (processed trace)).
Proof.
  intros trace. subst trace. split.
  - revert last_check s clock.
    induction fuel as [|fuel IH]; intros last_check s clock; cbn [driver_loop]; [done|].
    rewrite bind_run. destruct (g_running s) eqn:Hflag.
    + rewrite bind_run.
      destruct (loop_body C signal_handles last_check s) as [[last' s1] e1] eqn:Hbody.
      specialize (IH last' s1).
      destruct (driver_loop C fuel signal_handles last' s1) as [[o s2] e2].
      cbn [fst snd] in *.
      destruct (loop_body_shape _ _ _ _ _ _ Hbody)
        as (t0 & updates & on_updates & t1 & periodic & t2 & Hshape & Hu & Hp).
      cbn [app]. rewrite <- ticks_from_actions, actions_app, Hshape.
      rewrite (ticks_from_turn _ _ _ _ _ _ _ _ _ _ _ Hu Hp), ticks_from_actions.
      destruct (50 <=? to_milliseconds (t1 - last_check)) eqn:Hfire.
      * destruct Hp as [_ ->]. apply elapsed_at_least_50 in Hfire.
        cbn [app spaced]. split; [lia|apply IH].
      * destruct Hp as [_ ->]. apply IH.
    + rewrite bind_run, outside_run. cbn [fst snd app mret M_ret].
      rewrite <- ticks_from_actions, app_nil_r, actions_cons_keep by done.
      by rewrite actions_shutdown.
  - generalize (driver_loop C fuel signal_handles last_check s).2. intros trace.
    revert clock. induction trace as [|e trace IH]; intros clock; [done|].
    destruct e as [| | | | | | | | | |batch ems| | |]; cbn [ticks_from];
      try (rewrite IH; reflexivity).
    change (processed (Process batch ems :: trace)) with (batch :: processed trace).
    destruct batch as [|u batch].
    + rewrite filter_cons_True by done. cbn [length]. by rewrite IH.
    + rewrite filter_cons_False by done. apply IH.
Qed.

(** X14. Nothing the processor gives is lost, written twice or written out
    of order: the writes of a run of the loop are, in order, the emissions of
    its processor calls that have a handle and a valid value, each written
    once with its handle; an emission without handle or with an invalid value
    is the only kind that is not written.  The same holds for a whole run of
    [main], whose startup writes nothing. *)
Theorem every_publishable_emission_is_written_once (C : Collaborators) :
  (forall fuel signal_handles last_check (s : Sys C),
      let trace := (driver_loop C fuel signal_handles last_check s).2 in
      set_attempts trace = publishable signal_handles (concat (emitted trace))) /\
  (forall fuel argv (s : Sys C),
      let trace := (main C fuel argv s).2 in
      match (initialize C argv s).1.1 with
      | inr signal_handles =>
          set_attempts trace = publishable signal_handles (concat (emitted trace))
      | inl _ => set_attempts trace = [] /\ emitted trace = []
      end).
Proof.
  assert (forall fuel signal_handles last_check (s : Sys C),
             set_attempts (driver_loop C fuel signal_handles last_check s).2
             = publishable signal_handles
                 (concat (emitted (driver_loop C fuel signal_handles last_check s).2)))
    as Hloop.
  { induction fuel as [|fuel IH]; intros signal_handles last_check s; cbn [driver_loop];
      [done|].
    rewrite bind_run. destruct (g_running s) eqn:Hflag.
    - rewrite bind_run.
      pose proof (loop_body_conserves (C:=C) signal_handles last_check s) as Hturn.
      destruct (loop_body C signal_handles last_check s) as [[last' s1] e1].
      specialize (IH signal_handles last' s1).
      destruct (driver_loop C fuel signal_handles last' s1) as [[o s2] e2].
      cbn [fst snd app] in *.
      by rewrite set_attempts_app, emitted_app, concat_app, publishable_app, Hturn, IH.
    - rewrite bind_run, outside_run. cbn [fst snd app mret M_ret].
      rewrite <- set_attempts_actions, <- emitted_actions, app_nil_r.
      rewrite actions_cons_keep by done. by rewrite actions_shutdown. }
  split; [exact Hloop|].
  intros fuel argv s trace. subst trace. rewrite main_run.
  pose proof (always_initialize (C:=C) argv s) as Halpha.
  assert (forall trace, Forall startup_event trace ->
                        set_attempts trace = [] /\ emitted trace = []) as Hquiet.
  { induction 1 as [|e trace He _ [IH1 IH2]]; [done|].
    unfold set_attempts, emitted in *. by destruct e; cbn; rewrite ?IH1, ?IH2. }
  destruct (initialize C argv s) as [[[outcome|signal_handles] s1] e1]; cbn [fst snd] in *.
  - by apply Hquiet.
  - destruct (Hquiet _ Halpha) as [Hs He].
    destruct (now_events (C:=C) LastPeriodicCheck s1) as [sigs Hnow].
    destruct (now C LastPeriodicCheck s1) as [[t s2] e2]. cbn in Hnow. subst e2.
    specialize (Hloop fuel signal_handles t s2).
    destruct (driver_loop C fuel signal_handles t s2) as [[o s3] e3]. cbn [fst snd] in *.
    rewrite !set_attempts_app, !emitted_app, Hs, He, Hloop.
    assert (set_attempts (Clock LastPeriodicCheck t :: (ShutdownRequested <$> sigs)) = []
            /\ emitted (Clock LastPeriodicCheck t :: (ShutdownRequested <$> sigs)) = [])
      as [-> ->]; [|done].
    split.
    + rewrite <- set_attempts_actions, actions_cons_keep by done.
      by rewrite actions_shutdown.
    + rewrite <- emitted_actions, actions_cons_keep by done.
      by rewrite actions_shutdown.
Qed.

(** X15. What [publish_to_kuksa] returns (lines 51-79, "true if
    successful, false otherwise"): true exactly when the value is valid and
    [client->set] answered ok.  It calls [client->set] once for a valid value
    and not at all for an invalid one, with the handle and the value it was
    given; and the publishing pass goes on with the next emission from the
    state the call left, whatever was returned. *)
Theorem publish_to_kuksa_returns_success (C : Collaborators) handle vss (s : Sys C) :
  let qv := qualified_value vss in
  let run := publish_to_kuksa C handle vss s in
  (run.1.1 = true <->
   is_valid qv = true /\ (client_set C handle qv (world s)).1 = OkStatus) /\
  set_attempts run.2 = (if is_valid qv then [(handle, qv)] else []) /\
  (forall signal_handles rest,
      signal_handles !! path vss = Some handle ->
      publish_signals C signal_handles (vss :: rest) s
      = let '(u, s2, e2) := publish_signals C signal_handles rest run.1.2 in
        (u, s2, run.2 ++ e2)).
Proof.
  intros qv run. subst run.
  destruct (publish_to_kuksa_run (C:=C) handle vss s) as [Hvalue Hact].
  cbn zeta in Hvalue, Hact. fold qv in Hvalue, Hact.
  split_and!.
  - rewrite Hvalue, andb_true_iff. unfold ok.
    destruct (client_set C handle qv (world s)).1; intuition congruence.
  - rewrite <- set_attempts_actions, Hact.
    destruct (is_valid qv); [|done].
    by destruct (client_set C handle qv (world s)).1.
  - intros signal_handles rest Hh. cbn [publish_signals]. rewrite Hh, !bind_run.
    destruct (publish_to_kuksa C handle vss s) as [[b s1] e1]. cbn [fst snd mret M_ret].
    destruct (publish_signals C signal_handles rest s1) as [[u s2] e2].
    by rewrite app_nil_r.
Qed.

(** * The fixture of the integration test *)

Section FixtureFacts.
Context {H : Host}.
Implicit Types (e : Env H).

Lemma fbind_run {A B} (m : F H A) (f : A -> F H B) e :
(m ≫= f) e =
let '(a, e1, t1) := m e in let '(b, e2, t2) := f a e1 in (b, e2, t1 ++ t2).
Proof. reflexivity. Qed.

Lemma call_run {A} (op : HostState H -> A * HostState H) (ev : A -> Call) e :
call H op ev e
= ((op (host e)).1, {| statics := statics e; host := (op (host e)).2 |}, [ev (op (host e)).1]).
Proof. unfold call. by destruct (op (host e)). Qed.

Lemma system_run command e :
system H command e
= ((host_system H command (host e)).1,
   {| statics := statics e; host := (host_system H command (host e)).2 |},
   [System command (host_system H command (host e)).1]).
Proof. unfold system, call. by destruct (host_system H command (host e)). Qed.

Lemma sleep_ms_run d e :
sleep_ms H d e
= (tt, {| statics := statics e; host := (host_sleep H d (host e)).2 |}, [SleepFor d]).
Proof. unfold sleep_ms, call. by destruct (host_sleep H d (host e)) as [[] h]. Qed.

(** The commands, as the fixture puts them together. *)
Lemma commands_as_built :
"ip link show " +:+ VCAN_INTERFACE +:+ " > /dev/null 2>&1" = show_vcan /\
"sudo ip link add dev " +:+ VCAN_INTERFACE +:+ " type vcan 2>/dev/null" = add_vcan /\
"sudo ip link set up " +:+ VCAN_INTERFACE +:+ " 2>/dev/null" = up_vcan /\
"sudo ip link delete " +:+ VCAN_INTERFACE +:+ " 2>/dev/null" = delete_vcan /\
"docker ps -q -f name=" +:+ CONTAINER_NAME +:+ " | grep -q ." = docker_ps /\
"docker logs " +:+ CONTAINER_NAME +:+ " 2>&1" = docker_logs /\
"nc -z localhost " +:+ KUKSA_PORT +:+ " 2>/dev/null" = probe_port.
Proof. by vm_compute. Qed.

(** [SetupVCAN], run: by the three statuses. *)
Lemma SetupVCAN_run e :
let st := statics e in
let shown := host_system H show_vcan (host e) in
let added := host_system H add_vcan shown.2 in
let up := host_system H up_vcan added.2 in
let marked created h :=
  {| statics := {| kuksa_address := kuksa_address st; kuksa_started := kuksa_started st;
                   vcan_setup := true; vcan_created_by_test := created;
                   feeder_pid := feeder_pid st |};
     host := h |} in
SetupVCAN H e =
if shown.1 =? 0 then (true, marked false shown.2, [System show_vcan shown.1])
else if negb (added.1 =? 0) then
  (false, {| statics := st; host := added.2 |},
   [System show_vcan shown.1; System add_vcan added.1])
else if negb (up.1 =? 0) then
  (false, {| statics := st; host := up.2 |},
   [System show_vcan shown.1; System add_vcan added.1; System up_vcan up.1])
else
  (true, marked true up.2,
   [System show_vcan shown.1; System add_vcan added.1; System up_vcan up.1]).
Proof.
cbn zeta. unfold SetupVCAN.
destruct commands_as_built as (-> & -> & -> & _).
rewrite fbind_run, system_run.
destruct (host_system H show_vcan (host e)) as [a h1]. cbn [fst snd].
destruct (a =? 0); [done|].
rewrite fbind_run, system_run. cbn [fst snd statics host].
destruct (host_system H add_vcan h1) as [b h2]. cbn [fst snd].
destruct (b =? 0); [|done]. cbn [negb].
rewrite fbind_run, system_run. cbn [fst snd statics host].
destruct (host_system H up_vcan h2) as [c h3]. cbn [fst snd].
by destruct (c =? 0).
Qed.

Lemma CleanupVCAN_run e :
CleanupVCAN H e =
if vcan_setup (statics e) && vcan_created_by_test (statics e) then
  (tt, {| statics := statics e; host := (host_system H delete_vcan (host e)).2 |},
   [System delete_vcan (host_system H delete_vcan (host e)).1])
else (tt, e, []).
Proof.
unfold CleanupVCAN. destruct commands_as_built as (_ & _ & _ & -> & _).
rewrite fbind_run. cbn [read_statics].
destruct (vcan_setup (statics e) && vcan_created_by_test (statics e)); [|done].
rewrite fbind_run, system_run. done.
Qed.

End FixtureFacts.

(** X16. The test deletes the vcan interface only if it created it (lines
    93-131).  From the static members as they are defined, [SetupVCAN] ends in
    one of four ways: the interface exists, nothing more is run and nothing
    is marked as created; it cannot be added; it was added but cannot be
    brought up, then it is not marked at all; or it was added and brought up
    and is marked as created.  It returns what it leaves in [vcan_setup].
    [CleanupVCAN], in any later state with these two marks, runs the delete
    command exactly in the last case: an interface that was there before the
    test is never deleted, and one that was added but not brought up is left
    behind. *)
Theorem vcan_is_deleted_only_when_the_test_created_it (H : Host) (e : Env H) :
  vcan_setup (statics e) = false ->
  vcan_created_by_test (statics e) = false ->
  let run := SetupVCAN H e in
  let after := statics run.1.2 in
  vcan_setup after = run.1.1 /\
  (run.2 = [System show_vcan 0] /\ run.1.1 = true /\ vcan_created_by_test after = false \/
   (exists a b,
       a <> 0 /\ b <> 0 /\ run.2 = [System show_vcan a; System add_vcan b] /\
       run.1.1 = false /\ vcan_created_by_test after = false) \/
   (exists a c,
       a <> 0 /\ c <> 0 /\
       run.2 = [System show_vcan a; System add_vcan 0; System up_vcan c] /\
       run.1.1 = false /\ vcan_created_by_test after = false) \/
   (exists a,
       a <> 0 /\ run.2 = [System show_vcan a; System add_vcan 0; System up_vcan 0] /\
       run.1.1 = true /\ vcan_created_by_test after = true)) /\
  forall e2 : Env H,
    vcan_setup (statics e2) = vcan_setup after ->
    vcan_created_by_test (statics e2) = vcan_created_by_test after ->
    commands (CleanupVCAN H e2).2 = (if vcan_created_by_test after then [delete_vcan] else []) /\
    statics (CleanupVCAN H e2).1.2 = statics e2.
Proof.
  intros Hsetup Hcreated run after. subst run after.
  pose proof (SetupVCAN_run e) as Hrun. cbn zeta in Hrun. rewrite Hrun. clear Hrun.
  destruct (host_system H show_vcan (host e)) as [a h1]. cbn [fst snd].
  destruct (a =? 0) eqn:Ha.
  { apply Z.eqb_eq in Ha as ->. cbn [fst snd statics vcan_setup vcan_created_by_test].
    split; [done|]. split; [by left|].
    intros e2 Hs Hc. rewrite CleanupVCAN_run, Hs, Hc. done. }
  apply Z.eqb_neq in Ha.
  destruct (host_system H add_vcan h1) as [b h2]. cbn [fst snd].
  destruct (b =? 0) eqn:Hb; cbn [negb].
  2:{ apply Z.eqb_neq in Hb. cbn [fst snd statics]. rewrite Hsetup, Hcreated.
      split; [done|]. split; [right; left; by exists a, b|].
      intros e2 Hs Hc. rewrite CleanupVCAN_run, Hs, Hc. done. }
  apply Z.eqb_eq in Hb as ->.
  destruct (host_system H up_vcan h2) as [c h3]. cbn [fst snd].
  destruct (c =? 0) eqn:Hc; cbn [negb].
  - apply Z.eqb_eq in Hc as ->. cbn [fst snd statics vcan_setup vcan_created_by_test].
    split; [done|]. split; [right; right; right; by exists a|].
    intros e2 Hs Hc. rewrite CleanupVCAN_run, Hs, Hc. done.
  - apply Z.eqb_neq in Hc. cbn [fst snd statics]. rewrite Hsetup, Hcreated.
    split; [done|]. split; [right; right; left; by exists a, c|].
    intros e2 Hs Hc'. rewrite CleanupVCAN_run, Hs, Hc'. done.
Qed.

Lemma vcan_is_deleted_only_when_the_test_created_it_witness :
  (* the interface is there: it is not deleted *)
  (SetupVCAN build_host (fresh [0])).2 = [System show_vcan 0] /\
  commands (CleanupVCAN build_host (SetupVCAN build_host (fresh [0])).1.2).2 = [] /\
  (* the test adds it and brings it up: it is deleted *)
  commands (CleanupVCAN build_host (SetupVCAN build_host (fresh [1; 0; 0])).1.2).2
  = [delete_vcan] /\
  (* the test adds it and cannot bring it up: it is left behind *)
  (SetupVCAN build_host (fresh [1; 0; 2])).2
  = [System show_vcan 1; System add_vcan 0; System up_vcan 2] /\
  commands (CleanupVCAN build_host (SetupVCAN build_host (fresh [1; 0; 2])).1.2).2 = [].
Proof.
  pose proof (fun statuses =>
                vcan_is_deleted_only_when_the_test_created_it build_host (fresh statuses)
                  eq_refl eq_refl) as Hall.
  cbn zeta in Hall.
  split_and!.
  - vm_compute. reflexivity.
  - destruct (Hall [0]) as (_ & _ & Hclean).
    by destruct (Hclean _ eq_refl eq_refl) as [-> _].
  - destruct (Hall [1; 0; 0]) as (_ & _ & Hclean).
    by destruct (Hclean _ eq_refl eq_refl) as [-> _].
  - vm_compute. reflexivity.
  - destruct (Hall [1; 0; 2]) as (_ & _ & Hclean).
    by destruct (Hclean _ eq_refl eq_refl) as [-> _].
Defined.

Section Waiting.
Context {H : Host}.
Implicit Types (e : Env H).

Lemma sleeps_app t1 t2 : sleeps (t1 ++ t2) = sleeps t1 ++ sleeps t2.
Proof. apply omap_app. Qed.

Lemma commands_app t1 t2 : commands (t1 ++ t2) = commands t1 ++ commands t2.
Proof. apply omap_app. Qed.

Lemma kills_app t1 t2 : kills (t1 ++ t2) = kills t1 ++ kills t2.
Proof. apply omap_app. Qed.

(** The wait: a turn sleeps one second, looks for the container and probes
  the port; it ends with the first probe that is answered, with the first
  turn in which the container is gone, or when the turns are used up. *)
Lemma wait_for_kuksa_run turns : forall e,
let run := wait_for_kuksa H turns e in
(length (sleeps run.2) <= turns)%nat /\
Forall (fun d => d = 1000) (sleeps run.2) /\
statics run.1.2 = statics e /\
(run.1.1 = true <-> last run.2 = Some (System probe_port 0)) /\
(run.1.1 = true \/ last run.2 = None /\ turns = O \/
 (exists status, last run.2 = Some (System docker_logs status)) \/
 (exists status, status <> 0 /\ last run.2 = Some (System probe_port status) /\
                 length (sleeps run.2) = turns)).
Proof.
induction turns as [|turns IH]; intros e; cbn zeta.
{ cbn. split; [done|]. split; [constructor|]. split; [done|]. split; [done|].
  right. by left. }
cbn [wait_for_kuksa]. destruct commands_as_built as (_ & _ & _ & _ & -> & -> & ->).
rewrite fbind_run, sleep_ms_run. rewrite fbind_run, system_run.
cbn [fst snd statics host].
destruct (host_system H docker_ps _) as [alive h1]. cbn [fst snd].
destruct (alive =? 0); cbn [negb].
2:{ rewrite fbind_run, system_run. cbn [fst snd statics host app].
    split_and!; try done.
    - cbn. lia.
    - by repeat constructor.
    - right. right. left. eauto. }
rewrite fbind_run, system_run. cbn [fst snd statics host].
destruct (host_system H probe_port h1) as [answered h2]. cbn [fst snd].
destruct (answered =? 0) eqn:Hanswered.
{ apply Z.eqb_eq in Hanswered as ->. cbn [fst snd app].
  split_and!; try done; [cbn; lia|by repeat constructor|by left]. }
apply Z.eqb_neq in Hanswered.
specialize (IH {| statics := statics e; host := h2 |}). cbn zeta in IH.
destruct (wait_for_kuksa H turns _) as [[up e2] t2]. cbn [fst snd app] in *.
destruct IH as (Hlen & Hall & Hst & Hiff & Hend).
change (SleepFor 1000 :: System docker_ps alive :: System probe_port answered :: t2)
  with ([SleepFor 1000; System docker_ps alive; System probe_port answered] ++ t2).
rewrite sleeps_app. change (sleeps [_; _; _]) with [1000]. cbn [app length].
split_and!; [lia|by constructor|done|..].
- destruct t2 as [|c t2].
  + cbn. rewrite Hiff. cbn. split; [done|]. intros [= ?]. done.
  + by rewrite !last_cons_cons.
- destruct Hend as [Hup|[[Hnone ->]|[[status Hlogs]|(status & Hne & Hlast & Hn)]]].
  + by left.
  + apply last_None in Hnone as ->.
    right. right. right. exists answered. split; [done|]. split; [done|].
    reflexivity.
  + right. right. left. exists status.
    destruct t2 as [|c t2]; [done|]. by rewrite !last_cons_cons.
  + right. right. right. exists status. split; [done|].
    destruct t2 as [|c t2]; [done|]. rewrite !last_cons_cons. split; [done|]. lia.
Qed.

End Waiting.

(** X17. [StartKuksa] waits for the broker for thirty seconds at most
    (lines 133-186): it sleeps one second at a time and no more than thirty
    times; it returns true exactly when its last act was a probe of the port
    that was answered; when it returns false, either the broker was never
    waited for (no working directory, no configuration file, or the container
    did not start), or the container was gone and its log was the last thing
    asked for, or all thirty probes went unanswered.  It changes no static
    member. *)
Theorem StartKuksa_waits_at_most_30_seconds (H : Host) (e : Env H) :
  let run := StartKuksa H e in
  (length (sleeps run.2) <= 30)%nat /\
  Forall (fun d => d = 1000) (sleeps run.2) /\
  statics run.1.2 = statics e /\
  (run.1.1 = true <-> last run.2 = Some (System probe_port 0)) /\
  (run.1.1 = false ->
   sleeps run.2 = [] \/
   (exists status, last run.2 = Some (System docker_logs status)) \/
   (exists status,
       status <> 0 /\ last run.2 = Some (System probe_port status) /\
       length (sleeps run.2) = 30%nat)).
Proof.
  intros run. subst run. unfold StartKuksa.
  rewrite fbind_run, call_run.
  destruct (host_getcwd H (host e)) as [[cwd|] h1]; cbn [fst snd].
  2:{ cbn. split; [lia|]. split; [constructor|]. split; [done|]. split; [done|].
      intros _. by left. }
  rewrite fbind_run, call_run. cbn [host statics].
  destruct (host_access H _ h1) as [found h2]. cbn [fst snd].
  destruct (found =? 0); cbn [negb].
  2:{ cbn. split; [lia|]. split; [constructor|]. split; [done|]. split; [done|].
      intros _. by left. }
  change ("docker run -d --rm " +:+ _) with (docker_run (cwd +:+ "/tesla_vss.json")).
  rewrite fbind_run, system_run. cbn [fst snd host statics].
  destruct (host_system H _ h2) as [started h3]. cbn [fst snd].
  destruct (started =? 0) eqn:Hstarted; cbn [negb].
  2:{ cbn. split; [lia|]. split; [constructor|]. split; [done|]. split.
      - split; try done; by intros [= _ ->].
      - intros _. by left. }
  pose proof (wait_for_kuksa_run 30 {| statics := statics e; host := h3 |}) as Hwait.
  cbn zeta in Hwait.
  destruct (wait_for_kuksa H 30 _) as [[up e2] t2]. cbn [fst snd app] in *.
  destruct Hwait as (Hlen & Hall & Hst & Hiff & Hend).
  assert (exists c t, t2 = c :: t) as (c & t & ->).
  { destruct t2 as [|c t]; [|eauto].
    destruct Hend as [Hup|[[_ [=]]|[[? [=]]|(? & _ & [=] & _)]]].
    apply Hiff in Hup. done. }
  change (?a :: ?b :: ?d :: c :: t) with ([a; b; d] ++ c :: t).
  rewrite sleeps_app, last_app_cons. cbn [sleeps omap list_omap app].
  split_and!; try done.
  intros ->. destruct Hend as [[=]|[[_ [=]]|[Hlogs|Hprobe]]]; auto.
Qed.

Lemma StartKuksa_waits_at_most_30_seconds_witness :
  (* the second probe is answered *)
  (StartKuksa build_host (fresh [0; 0; 0; 1; 0; 0])).1.1 = true /\
  sleeps (StartKuksa build_host (fresh [0; 0; 0; 1; 0; 0])).2 = [1000; 1000] /\
  (* the container is gone in the first turn *)
  (StartKuksa build_host (fresh [0; 0; 1])).1.1 = false /\
  last (StartKuksa build_host (fresh [0; 0; 1])).2 = Some (System docker_logs 0) /\
  (* no probe is answered *)
  length (sleeps (StartKuksa build_host
                    (fresh (0 :: 0 :: concat (replicate 30 [0; 1])))).2) = 30%nat.
Proof.
  pose proof (fun statuses =>
                StartKuksa_waits_at_most_30_seconds build_host (fresh statuses)) as Hall.
  cbn zeta in Hall. split_and!.
  - destruct (Hall [0; 0; 0; 1; 0; 0]) as (_ & _ & _ & Hiff & _).
    apply Hiff. vm_compute. reflexivity.
  - vm_compute. reflexivity.
  - destruct (Hall [0; 0; 1]) as (_ & _ & _ & Hiff & _).
    destruct (StartKuksa build_host (fresh [0; 0; 1])).1.1 eqn:Hup; [|done].
    destruct Hiff as [Hiff _]. specialize (Hiff eq_refl). by vm_compute in Hiff.
  - vm_compute. reflexivity.
  - vm_compute. reflexivity.
Defined.

Section Suite.
Context {H : Host}.
Implicit Types (e : Env H).

(** How [StartKuksa] ends: it has asked the host for something, it leaves
  the static members alone, and it returns true exactly when the last thing
  it did was a probe that was answered. *)
Lemma StartKuksa_last e :
statics (StartKuksa H e).1.2 = statics e /\
(StartKuksa H e).2 <> [] /\
((StartKuksa H e).1.1 = true <-> last (StartKuksa H e).2 = Some (System probe_port 0)).
Proof.
unfold StartKuksa. rewrite fbind_run, call_run.
destruct (host_getcwd H (host e)) as [[cwd|] h1]; cbn [fst snd]; [|done].
rewrite fbind_run, call_run. cbn [host statics].
destruct (host_access H _ h1) as [found h2]. cbn [fst snd].
destruct (found =? 0); cbn [negb]; [|done].
change ("docker run -d --rm " +:+ _) with (docker_run (cwd +:+ "/tesla_vss.json")).
rewrite fbind_run, system_run. cbn [fst snd host statics].
destruct (host_system H _ h2) as [started h3]. cbn [fst snd].
destruct (started =? 0) eqn:Hstarted; cbn [negb].
2:{ cbn. split; [done|]. split; [done|]. split; try done; by intros [= _ ->]. }
destruct (wait_for_kuksa_run 30 {| statics := statics e; host := h3 |})
  as (_ & _ & Hst & Hiff & Hend).
destruct (wait_for_kuksa H 30 _) as [[up e2] t2]. cbn [fst snd app] in *.
split; [done|]. split; [done|].
destruct t2 as [|c t].
- destruct Hend as [Hup|[[_ [=]]|[[? [=]]|(? & _ & [=] & _)]]].
  apply Hiff in Hup. done.
- change (?a :: ?b :: ?d :: c :: t) with ([a; b; d] ++ c :: t).
  by rewrite last_app_cons.
Qed.

Lemma StopKuksa_run e :
statics (StopKuksa H e).1.2 = statics e /\
commands (StopKuksa H e).2
= ["docker stop can2vss-test-broker 2>/dev/null";
   "docker rm -f can2vss-test-broker 2>/dev/null"] /\
sleeps (StopKuksa H e).2 = [500] /\
kills (StopKuksa H e).2 = [].
Proof.
unfold StopKuksa. rewrite !fbind_run, !system_run. cbn [fst snd statics host].
rewrite fbind_run, system_run, sleep_ms_run. done.
Qed.

Lemma StopFeeder_run e :
StopFeeder H e =
if 0 <? feeder_pid (statics e) then
  (tt,
   {| statics := {| kuksa_address := kuksa_address (statics e);
                    kuksa_started := kuksa_started (statics e);
                    vcan_setup := vcan_setup (statics e);
                    vcan_created_by_test := vcan_created_by_test (statics e);
                    feeder_pid := 0 |};
      host := (host_waitpid H (feeder_pid (statics e))
                 (host_kill H (feeder_pid (statics e)) SIGTERM (host e)).2).2 |},
   [Kill (feeder_pid (statics e)) SIGTERM; Waitpid (feeder_pid (statics e))])
else (tt, e, []).
Proof.
unfold StopFeeder. rewrite fbind_run. cbn [read_statics].
destruct (0 <? feeder_pid (statics e)); [|done].
rewrite !fbind_run, !call_run. cbn [fst snd statics host].
rewrite fbind_run, call_run. done.
Qed.

End Suite.

(** X18. [SetUpTestSuite] marks the broker as started only when it has
    answered (lines 40-71): from a state in which it is not marked, the mark
    is set exactly when the last thing the function did was a probe of the
    broker's port that was answered; then the address is localhost:55557,
    the vcan interface is set up and [SetUp] lets the test run, and otherwise
    [SetUp] fails it.  When docker is not there the function stops at once:
    it has run the version check and nothing else, no command with sudo, and
    has changed no static member.  The feeder's pid is never touched. *)
Theorem SetUpTestSuite_marks_the_broker_only_when_it_answers (H : Host) (e : Env H) :
  kuksa_started (statics e) = false ->
  let run := SetUpTestSuite H e in
  let after := statics run.1.2 in
  (kuksa_started after = true <-> last run.2 = Some (System probe_port 0)) /\
  (kuksa_started after = true ->
   kuksa_address after = "localhost:55557" /\ vcan_setup after = true) /\
  (SetUp H run.1.2).1.1 = kuksa_started after /\
  ((host_system H docker_version (host e)).1 <> 0 ->
   run.2 = [System docker_version (host_system H docker_version (host e)).1] /\
   after = statics e) /\
  feeder_pid after = feeder_pid (statics e).
Proof.
  intros Hnot run after. subst run after. unfold SetUpTestSuite.
  fold docker_version. rewrite fbind_run, system_run.
  destruct (host_system H docker_version (host e)) as [docker h0]. cbn [fst snd].
  destruct (docker =? 0) eqn:Hdocker; cbn [negb].
  2:{ apply Z.eqb_neq in Hdocker. cbn. rewrite Hnot.
      split_and!; try done; split; try done; by intros [= ? ?]. }
  apply Z.eqb_eq in Hdocker as ->.
  rewrite fbind_run.
  pose proof (SetupVCAN_run {| statics := statics e; host := h0 |}) as Hvcan.
  cbn zeta in Hvcan. cbn [statics host] in Hvcan. rewrite Hvcan. clear Hvcan.
  destruct (host_system H show_vcan h0) as [a h1]. cbn [fst snd].
  destruct (host_system H add_vcan h1) as [b h2]. cbn [fst snd].
  destruct (host_system H up_vcan h2) as [c h3]. cbn [fst snd].
  set (marked created h :=
         {| statics := {| kuksa_address := kuksa_address (statics e);
                          kuksa_started := kuksa_started (statics e);
                          vcan_setup := true; vcan_created_by_test := created;
                          feeder_pid := feeder_pid (statics e) |};
            host := h |} : Env H).
  assert (forall created h pre,
             pre <> [] ->
             let rest :=
               (StopKuksa H ≫= fun _ => CreateTeslaVSSConfig H ≫= fun _ =>
                StartKuksa H ≫= fun kuksa_ok =>
                if negb kuksa_ok then mret tt
                else
                  read_statics H ≫= fun st =>
                  write_statics H
                    {| kuksa_address := "localhost:" +:+ KUKSA_PORT;
                       kuksa_started := true;
                       vcan_setup := vcan_setup st;
                       vcan_created_by_test := vcan_created_by_test st;
                       feeder_pid := feeder_pid st |}) (marked created h) in
             (kuksa_started (statics rest.1.2) = true <->
              last (pre ++ rest.2) = Some (System probe_port 0)) /\
             (kuksa_started (statics rest.1.2) = true ->
              kuksa_address (statics rest.1.2) = "localhost:55557" /\
              vcan_setup (statics rest.1.2) = true) /\
             feeder_pid (statics rest.1.2) = feeder_pid (statics e)) as Hrest.
  { intros created h pre Hpre rest.
    assert (rest = rest) as Hrun by done. unfold rest at 2 in Hrun. clearbody rest.
    rewrite fbind_run in Hrun.
    destruct (StopKuksa_run (marked created h)) as (Hs1 & _).
    destruct (StopKuksa H (marked created h)) as [[[] e1] t1]. cbn [fst snd] in *.
    rewrite fbind_run in Hrun. unfold CreateTeslaVSSConfig in Hrun. rewrite call_run in Hrun.
    cbn [fst snd] in Hrun. rewrite fbind_run in Hrun.
    set (e2 := {| statics := statics e1; host := _ |}) in Hrun.
    destruct (StartKuksa_last e2) as (Hs3 & Hne & Hiff).
    destruct (StartKuksa H e2) as [[kuksa_ok e3] t3]. cbn [fst snd] in *.
    assert (forall tail,
               last (pre ++ t1 ++ WriteFile "tesla_vss.json" :: t3 ++ tail)
               = last (t3 ++ tail)) as Hlast.
    { intros tail. destruct t3 as [|c3 t3]; [done|].
      change (pre ++ t1 ++ WriteFile "tesla_vss.json" :: (c3 :: t3) ++ tail)
        with (pre ++ t1 ++ [WriteFile "tesla_vss.json"] ++ c3 :: (t3 ++ tail)).
      rewrite !app_assoc. by rewrite last_app_cons. }
    subst e2. cbn [statics] in Hs3. rewrite Hs1 in Hs3. subst marked. cbn [statics] in Hs3.
    destruct kuksa_ok; cbn [negb] in Hrun.
    - rewrite fbind_run in Hrun. cbn [read_statics write_statics fst snd app] in Hrun.
      rewrite Hrun. cbn [fst snd statics kuksa_started kuksa_address vcan_setup feeder_pid].
      rewrite Hlast, !app_nil_r, Hs3. cbn [vcan_setup feeder_pid].
      split_and!; try done; split; try done; intros _; by apply Hiff.
    - cbn [mret F_ret fst snd app] in Hrun. rewrite Hrun. cbn [fst snd].
      rewrite Hlast, app_nil_r, Hs3. cbn [kuksa_started feeder_pid]. rewrite Hnot.
      split_and!; try done; split; try done; intros Hl; by apply Hiff in Hl. }
  cbn [SetUp fst snd].
  destruct (a =? 0) eqn:Ha.
  { cbn [negb]. fold (marked false h1).
    destruct (Hrest false h1 [System docker_version 0; System show_vcan a] ltac:(done))
      as (H1 & H2 & H3).
    cbn zeta in H1, H2, H3.
    match goal with
    | |- context [(?m ≫= ?f) (marked false h1)] =>
        destruct ((m ≫= f) (marked false h1)) as [[[] e9] t9]
    end.
    cbn [fst snd app] in *. split_and!; try done. }
  destruct (b =? 0) eqn:Hb; cbn [negb].
  2:{ cbn. rewrite Hnot. split_and!; try done; split; try done; by intros [= ? ?]. }
  destruct (c =? 0) eqn:Hc; cbn [negb].
  2:{ cbn. rewrite Hnot. split_and!; try done; split; try done; by intros [= ? ?]. }
  fold (marked true h3).
  destruct (Hrest true h3
              [System docker_version 0; System show_vcan a; System add_vcan b;
               System up_vcan c] ltac:(done)) as (H1 & H2 & H3).
  cbn zeta in H1, H2, H3.
  match goal with
  | |- context [(?m ≫= ?f) (marked true h3)] =>
      destruct ((m ≫= f) (marked true h3)) as [[[] e9] t9]
  end.
  cbn [fst snd app] in *. split_and!; try done.
Qed.

Lemma SetUpTestSuite_marks_the_broker_only_when_it_answers_witness :
  (* everything answers: the broker is marked, the test may run *)
  kuksa_started (statics (SetUpTestSuite build_host (fresh [])).1.2) = true /\
  kuksa_address (statics (SetUpTestSuite build_host (fresh [])).1.2) = "localhost:55557" /\
  last (SetUpTestSuite build_host (fresh [])).2 = Some (System probe_port 0) /\
  (* no docker: one command, no mark, the test is failed by SetUp *)
  (SetUpTestSuite build_host (fresh [127])).2 = [System docker_version 127] /\
  (SetUp build_host (SetUpTestSuite build_host (fresh [127])).1.2).1.1 = false.
Proof.
  pose proof (fun statuses =>
                SetUpTestSuite_marks_the_broker_only_when_it_answers build_host
                  (fresh statuses) eq_refl) as Hall.
  cbn zeta in Hall.
  assert (last (SetUpTestSuite build_host (fresh [])).2 = Some (System probe_port 0)) as Hlast
    by (vm_compute; reflexivity).
  destruct (Hall []) as (Hiff & Haddr & _).
  split_and!.
  - by apply Hiff.
  - by destruct (Haddr (proj2 Hiff Hlast)).
  - exact Hlast.
  - destruct (Hall [127]) as (_ & _ & _ & Hdocker & _).
    by destruct (Hdocker ltac:(vm_compute; discriminate)).
  - destruct (Hall [127]) as (Hiff' & _ & -> & _).
    destruct (kuksa_started (statics (SetUpTestSuite build_host (fresh [127])).1.2)) eqn:Hk;
      [|done].
    destruct Hiff' as [Hiff' _]. specialize (Hiff' eq_refl). by vm_compute in Hiff'.
Defined.

Section Feeder.
Context {H : Host}.
Implicit Types (e : Env H).

Lemma CleanupVCAN_kills e : kills (CleanupVCAN H e).2 = [] /\ sleeps (CleanupVCAN H e).2 = [].
Proof. rewrite CleanupVCAN_run. by destruct (_ && _). Qed.

(** Tearing down sends the feeder what [StopFeeder] sends it, and nothing
  to any other process. *)
Lemma TearDownTestSuite_kills e :
kills (TearDownTestSuite H e).2 = kills (StopFeeder H e).2.
Proof.
unfold TearDownTestSuite. rewrite fbind_run.
destruct (StopFeeder H e) as [[[] e1] t1]. cbn [fst snd].
rewrite fbind_run.
destruct (StopKuksa_run e1) as (_ & _ & _ & Hk2).
destruct (StopKuksa H e1) as [[[] e2] t2]. cbn [fst snd] in *.
rewrite fbind_run.
destruct (CleanupVCAN_kills e2) as [Hk3 _].
destruct (CleanupVCAN H e2) as [[[] e3] t3]. cbn [fst snd] in *.
unfold CleanupVSSConfig. rewrite call_run. cbn [fst snd].
rewrite !kills_app, Hk2, Hk3. cbn. by rewrite app_nil_r.
Qed.

End Feeder.

Section Arguments.
Context {C : Collaborators}.

(** With five arguments the usage is not printed. *)
Lemma no_usage_with_four_arguments fuel argv (s : Sys C) :
length argv = 5%nat -> Usage ∉ (main C fuel argv s).2.
Proof.
intros Hlen Hin.
destruct (main C fuel argv s) as [[outcome s'] trace] eqn:Hmain. cbn [snd] in Hin.
assert (forall started s1 e1,
           initialize C argv s = (started, s1, e1) -> Usage ∉ e1) as Hstart.
{ intros started s1 e1 Hinit Hu. apply in_actions in Hu; [|done].
  apply initialize_shape in Hinit.
  destruct Hinit as [Hne|lines e0 _ _|lines _ _|lines m _ _|lines m _ _|lines m text _ _
                     |lines m text _ _|lines m h tr _ _ Hres]; [done|..];
    rewrite ?elem_of_app in Hu;
    repeat match goal with
           | Hx : _ \/ _ |- _ => destruct Hx as [Hx|Hx]
           | Hx : _ ∈ log_events _ |- _ =>
               apply elem_of_log_events in Hx as (? & ? & [=])
           | Hx : _ ∈ _ :: _ |- _ => apply elem_of_cons in Hx as [[=]|Hx]
           | Hx : _ ∈ [] |- _ => by apply elem_of_nil in Hx
           end.
  by destruct (resolve_trace_events _ _ _ _ _ Hres Hu) as [(? & ? & [=])|(? & ? & [=])]. }
apply main_inv in Hmain
  as [Hinit|(signal_handles & s1 & e1 & t & s2 & sigs & e3 & Hinit & _ & Hloop & ->)].
- by eapply Hstart.
- rewrite elem_of_app in Hin. destruct Hin as [Hin|Hin]; [by eapply Hstart|].
  apply elem_of_cons in Hin as [[=]|Hin].
  rewrite elem_of_app in Hin. destruct Hin as [Hin|Hin].
  + apply list_elem_of_fmap in Hin as (? & [=] & _).
  + pose proof (always_driver_loop (C:=C) fuel signal_handles t s2) as Hevents.
    rewrite Hloop in Hevents. cbn in Hevents. rewrite Forall_forall in Hevents.
    by destruct (Hevents _ Hin) as [?|[=]].
Qed.

End Arguments.

(** X19. [StopFeeder] signals the feeder once (lines 361-371): with a pid
    in [feeder_pid] it sends that process SIGTERM, waits for it and sets the
    member to 0; without one it does nothing.  So a second call does nothing,
    and [TearDownTestSuite] (lines 73-80), which calls it first, sends the
    feeder what [StopFeeder] would and no signal to any other process: after
    the test has stopped the feeder itself, tearing down sends no signal. *)
Theorem StopFeeder_signals_the_feeder_once (H : Host) (e : Env H) :
  let run := StopFeeder H e in
  (0 < feeder_pid (statics e) ->
   run.2 = [Kill (feeder_pid (statics e)) SIGTERM; Waitpid (feeder_pid (statics e))] /\
   feeder_pid (statics run.1.2) = 0) /\
  (feeder_pid (statics e) <= 0 -> run = (tt, e, [])) /\
  StopFeeder H run.1.2 = (tt, run.1.2, []) /\
  kills (TearDownTestSuite H e).2 = kills run.2 /\
  kills (TearDownTestSuite H run.1.2).2 = [].
Proof.
  intros run.
  assert (forall e' : Env H, feeder_pid (statics e') <= 0 -> StopFeeder H e' = (tt, e', []))
    as Hidle.
  { intros e' Hle. rewrite StopFeeder_run.
    destruct (0 <? feeder_pid (statics e')) eqn:Hpid; [|done].
    apply Z.ltb_lt in Hpid. lia. }
  assert (feeder_pid (statics run.1.2) <= 0) as Hafter.
  { subst run. rewrite StopFeeder_run.
    destruct (0 <? feeder_pid (statics e)) eqn:Hpid; cbn; [lia|].
    apply Z.ltb_ge in Hpid. done. }
  split_and!.
  - intros Hpid. subst run. rewrite StopFeeder_run.
    apply Z.ltb_lt in Hpid. by rewrite Hpid.
  - apply Hidle.
  - by apply Hidle.
  - apply TearDownTestSuite_kills.
  - rewrite TearDownTestSuite_kills, Hidle; done.
Qed.

Lemma StopFeeder_signals_the_feeder_once_witness :
  let e : Env build_host :=
    {| statics := running_statics; host := [] : HostState build_host |} in
  (StopFeeder build_host e).2 = [Kill 4711 15; Waitpid 4711] /\
  feeder_pid (statics (StopFeeder build_host e).1.2) = 0 /\
  kills (TearDownTestSuite build_host e).2 = [(4711, 15)] /\
  kills (TearDownTestSuite build_host (StopFeeder build_host e).1.2).2 = [].
Proof.
  intros e.
  destruct (StopFeeder_signals_the_feeder_once build_host e)
    as (Hrun & _ & _ & Hdown & Hquiet).
  destruct (Hrun ltac:(reflexivity)) as [Htrace Hpid].
  split_and!; [exact Htrace|exact Hpid| |exact Hquiet].
  rewrite Hdown, Htrace. reflexivity.
Defined.

(** X20. The test starts the feeder the way [main] expects and stops it
    the way [main] understands.  The argument vector [StartFeeder] hands to
    [execl] (lines 340-346) is the program name and four arguments: the DBC
    file, the mapping file, the interface vcan0 and the broker's address; a
    run of [main] on it never prints the usage, and when its startup gets to
    the loop it has parsed the test's mapping file and resolved its names,
    each once, in whatever order the table is walked.  In
    the parent nothing is executed, the pid is kept, and [StopFeeder] then
    sends that pid one signal, SIGTERM, on which [signal_handler] clears the
    run-flag. *)
Theorem feeder_is_started_and_stopped_as_main_expects (H : Host)
    dbc_path mapping_path (e : Env H) :
  let run := StartFeeder H dbc_path mapping_path e in
  (forall argv,
      argv ∈ exec_vectors run.2 ->
      argv = ["can2vss-feeder"; dbc_path; mapping_path; VCAN_INTERFACE;
              kuksa_address (statics e)] /\
      forall (C : Collaborators) fuel (s : Sys C),
        (Usage ∉ (main C fuel argv s).2) /\
        forall signal_handles,
          (initialize C argv s).1.1 = inr signal_handles ->
          exists lines dag_mappings,
            load_mappings C mapping_path = (lines, Ok (Some dag_mappings)) /\
            resolved_names (initialize C argv s).2 ≡ₚ (map_to_list dag_mappings).*1) /\
  (forall pid,
      run.1.1 = Returns pid -> 0 < pid ->
      exec_vectors run.2 = [] /\
      feeder_pid (statics run.1.2) = pid /\
      kills (StopFeeder H run.1.2).2 = [(pid, SIGTERM)] /\
      forall (C : Collaborators) (s : Sys C),
        g_running (signal_handler C SIGTERM s).1.2 = false).
Proof.
  intros run. subst run. unfold StartFeeder.
  rewrite fbind_run, call_run.
  destruct (host_fork H (host e)) as [pid h1]. cbn [fst snd].
  destruct (pid =? 0) eqn:Hchild.
  - apply Z.eqb_eq in Hchild as ->.
    rewrite fbind_run, call_run. cbn [host statics].
    destruct (host_getcwd H h1) as [[cwd|] h2]; cbn [fst snd].
    2:{ split; [|done]. intros argv Hin. cbn in Hin. by apply elem_of_nil in Hin. }
    rewrite fbind_run. cbn [read_statics fst snd statics].
    rewrite fbind_run, call_run. cbn [host statics].
    destruct (host_execl H _ _ h2) as [replaced h3]. cbn [fst snd].
    split.
    2:{ intros pid Hret. by destruct replaced. }
    intros argv Hin.
    assert (argv = ["can2vss-feeder"; dbc_path; mapping_path; VCAN_INTERFACE;
                    kuksa_address (statics e)]) as ->.
    { destruct replaced; cbn in Hin; apply elem_of_cons in Hin as [->|Hin]; try done;
        by apply elem_of_nil in Hin. }
    split; [done|]. intros C fuel s. split.
    + by apply no_usage_with_four_arguments.
    + intros signal_handles Hready.
      destruct (initialize C _ s) as [[started s1] e1] eqn:Hinit.
      cbn [fst snd] in *. subst started.
      apply initialize_shape, startup_ready_inv in Hinit
        as (_ & lines & dag_mappings & Hload & Hnames).
      exists lines, dag_mappings. split; [exact Hload|].
      rewrite <- resolved_names_actions, Hnames. apply iteration_order_keys.
  - destruct (0 <? pid) eqn:Hparent.
    + rewrite fbind_run. cbn [read_statics write_statics fst snd statics].
      rewrite fbind_run. cbn [read_statics write_statics fst snd statics mret F_ret app].
      split; [intros argv Hin; cbn in Hin; by apply elem_of_nil in Hin|].
      intros pid' [= <-] Hpos. split; [done|]. split; [done|]. split.
      * rewrite StopFeeder_run. cbn [statics feeder_pid].
        apply Z.ltb_lt in Hpos. by rewrite Hpos.
      * intros C s. done.
    + cbn [mret F_ret fst snd].
      split; [intros argv Hin; cbn in Hin; by apply elem_of_nil in Hin|].
      intros pid' [= <-] Hpos. lia.
Qed.

Lemma feeder_is_started_and_stopped_as_main_expects_witness :
  let child : Env child_host :=
    {| statics := running_statics; host := [] : HostState child_host |} in
  let parent : Env build_host :=
    {| statics := initial_statics; host := [] : HostState build_host |} in
  let argv := ["can2vss-feeder"; dbc_path; mapping_path; "vcan0"; "localhost:55557"] in
  exec_vectors (StartFeeder child_host dbc_path mapping_path child).2 = [argv] /\
  (Usage ∉ (main (scripted (healthy speed_file)) 5 argv
              (start stop_while_asleep (healthy speed_file))).2) /\
  (StartFeeder build_host dbc_path mapping_path parent).1.1 = Returns 4711 /\
  kills (StopFeeder build_host
           (StartFeeder build_host dbc_path mapping_path parent).1.2).2 = [(4711, 15)].
Proof.
  intros child parent argv.
  assert (exec_vectors (StartFeeder child_host dbc_path mapping_path child).2 = [argv])
    as Hexec by (vm_compute; reflexivity).
  split_and!.
  - exact Hexec.
  - destruct (feeder_is_started_and_stopped_as_main_expects child_host
                dbc_path mapping_path child) as [Hchild _].
    destruct (Hchild argv) as [_ Hmain].
    { rewrite Hexec. apply list_elem_of_here. }
    by destruct (Hmain (scripted (healthy speed_file)) 5%nat
                   (start stop_while_asleep (healthy speed_file))).
  - vm_compute. reflexivity.
  - destruct (feeder_is_started_and_stopped_as_main_expects build_host
                dbc_path mapping_path parent) as [_ Hparent].
    by destruct (Hparent 4711 ltac:(vm_compute; reflexivity) ltac:(lia)) as (_ & _ & Hkill & _).
Defined.
